(** * Alphy Chat: signaling server, landing page and adaptive quality loop

    A shallow embedding of the three source files of the application:

    - [Server]  : [server.js], the in-memory room registry, the REST
      handlers that touch it, the socket.io signaling handlers and the two
      cleanup timers;
    - [Landing] : [public/js/main.js], the room-code extraction used for
      pasted text and the [?room=] query parameter;
    - [Room]    : [public/js/room.js], the hysteresis of the adaptive
      quality loop, with its thresholds computed in binary64 as JavaScript
      does, and the statistics tick that feeds it.

    The models come first, the properties proved about them follow. *)

From Stdlib Require Import ZArith QArith Lqa Ascii String List.
From Stdlib Require PrimFloat SpecFloat FloatOps.
From stdpp Require Import gmap strings list fin_maps.

Open Scope Z_scope.

(** ** server.js *)

Module Server.

(** [const MAX_PARTICIPANTS = 4] *)
Definition MAX_PARTICIPANTS : nat := 4%nat.

(** [const generateRoomId = customAlphabet('0123456789', 4)].  nanoid builds
    the identifier character by character, each one taken from the alphabet
    at a random index below its length.  The four random indices of one call
    are an input of the model (a [seed]); an index is reduced modulo the
    alphabet length. *)
Definition alphabet : list ascii :=
  ["0"; "1"; "2"; "3"; "4"; "5"; "6"; "7"; "8"; "9"]%char.

Definition seed : Type := nat * nat * nat * nat.

Definition pick (i : nat) : ascii :=
  nth (i mod length alphabet) alphabet "0"%char.

Definition generateRoomId (r : seed) : string :=
  let '(a, b, c, d) := r in
  String (pick a) (String (pick b) (String (pick c) (String (pick d) EmptyString))).

(** [roomId -> { participants: Set<socketId>, createdAt: Date }] *)
Record RoomRec : Type := mkRoom {
  participants : gset string;
  createdAt : Z
}.

(** Messages the server emits on the signaling channel (the relayed
    offer/answer/ice-candidate messages carry no registry state and are left
    out). *)
Inductive message : Type :=
| room_full
| room_joined (existingParticipants : list string)
| participant_joined (socketId : string)
| participant_left (socketId : string).

(** One delivery: the receiving socket and the message. *)
Definition emission : Type := string * message.

(** The state of the process.
    - [rooms]       the [rooms] map;
    - [currentRoom] the closure variable [currentRoom] of every connected
                    socket ([None] is [null]); a socket is connected exactly
                    when it has an entry;
    - [adapter]     socket.io's room membership, changed by [socket.join],
                    [sock.leave] and by the disconnection of a socket;
    - [timeouts]    the pending [setTimeout] callbacks of [leaveRoom], each
                    with its due time and the [roomId] it closes over;
    - [nextSweep]   the due time of the next run of the [setInterval]
                    callback;
    - [now]         the wall clock, [Date.now()]. *)
Record state : Type := mkState {
  rooms : gmap string RoomRec;
  currentRoom : gmap string (option string);
  adapter : gmap string (gset string);
  timeouts : list (Z * string);
  nextSweep : Z;
  now : Z
}.

Definition set_rooms (m : gmap string RoomRec) (st : state) : state :=
  mkState m (currentRoom st) (adapter st) (timeouts st) (nextSweep st) (now st).

Definition set_currentRoom (c : gmap string (option string)) (st : state) : state :=
  mkState (rooms st) c (adapter st) (timeouts st) (nextSweep st) (now st).

Definition set_adapter (a : gmap string (gset string)) (st : state) : state :=
  mkState (rooms st) (currentRoom st) a (timeouts st) (nextSweep st) (now st).

Definition set_timeouts (t : list (Z * string)) (st : state) : state :=
  mkState (rooms st) (currentRoom st) (adapter st) t (nextSweep st) (now st).

Definition set_nextSweep (t : Z) (st : state) : state :=
  mkState (rooms st) (currentRoom st) (adapter st) (timeouts st) t (now st).

Definition set_now (t : Z) (st : state) : state :=
  mkState (rooms st) (currentRoom st) (adapter st) (timeouts st) (nextSweep st) t.

(** The process right after start-up at time [t0]: the interval is armed,
    nothing else exists. *)
Definition init (t0 : Z) : state :=
  mkState ∅ ∅ ∅ [] (t0 + 1800000) t0.

(** *** socket.io rooms *)

(** Sockets currently in the socket.io room [room]. *)
Definition members (st : state) (room : string) : gset string :=
  default ∅ (adapter st !! room).

(** [socket.join(room)] *)
Definition socket_join (s room : string) (st : state) : state :=
  set_adapter (<[room := members st room ∪ {[s]}]> (adapter st)) st.

(** [sock.leave(room)] *)
Definition socket_leave (s room : string) (st : state) : state :=
  set_adapter (<[room := members st room ∖ {[s]}]> (adapter st)) st.

(** A closing socket leaves every socket.io room before its ['disconnect']
    handler runs. *)
Definition socket_leave_all (s : string) (st : state) : state :=
  set_adapter ((λ m : gset string, m ∖ {[s]}) <$> adapter st) st.

(** [socket.to(room).emit(msg)]: every socket of the room but the sender. *)
Definition broadcast (s room : string) (msg : message) (st : state) : list emission :=
  (λ t, (t, msg)) <$> elements (members st room ∖ {[s]}).

(** *** Cleanup timers *)

(** The interval callback: [participants.size === 0 && now - createdAt > 3600000]. *)
Definition stale (t : Z) (r : RoomRec) : bool :=
  bool_decide (size (participants r) = 0%nat) && (3600000 <? t - createdAt r).

Definition sweep (st : state) : state :=
  set_rooms (filter (λ kv : string * RoomRec, stale (now st) kv.2 = false) (rooms st)) st.

(** The timeout callback of [leaveRoom]:
    [const r = rooms.get(roomId); if (r && r.participants.size === 0) rooms.delete(roomId)]. *)
Definition cleanup (roomId : string) (st : state) : state :=
  match rooms st !! roomId with
  | Some r =>
      if decide (size (participants r) = 0%nat)
      then set_rooms (delete roomId (rooms st)) st
      else st
  | None => st
  end.

(** *** REST handlers *)

(** The [do ... while (rooms.has(roomId) && attempts < 20)] loop of
    [POST /api/rooms]; [rnd k] seeds call number [k] of [generateRoomId],
    [left] is [19 - attempts] before the call. *)
Fixpoint draw_loop (m : gmap string RoomRec) (rnd : nat → seed)
    (attempts left : nat) : string :=
  let roomId := generateRoomId (rnd attempts) in
  match left with
  | O => roomId
  | S left' =>
      if decide (is_Some (m !! roomId))
      then draw_loop m rnd (S attempts) left'
      else roomId
  end.

Definition draw_roomId (m : gmap string RoomRec) (rnd : nat → seed) : string :=
  draw_loop m rnd 0 19.

(** [POST /api/rooms]: the new state and the [roomId] of the response. *)
Definition post_rooms (rnd : nat → seed) (st : state) : state * string :=
  let roomId := draw_roomId (rooms st) rnd in
  (set_rooms (<[roomId := mkRoom ∅ (now st)]> (rooms st)) st, roomId).

(** The body of the response of [GET /api/rooms/:id]; [None] is the 404. *)
Record status : Type := mkStatus {
  st_roomId : string;
  st_participants : nat;
  st_maxParticipants : nat;
  st_isFull : bool
}.

Definition get_room (id : string) (st : state) : option status :=
  match rooms st !! id with
  | None => None
  | Some room =>
      Some (mkStatus id (size (participants room)) MAX_PARTICIPANTS
                     (MAX_PARTICIPANTS <=? size (participants room))%nat)
  end.

(** *** Signaling handlers *)

(** [function leaveRoom(sock, roomId)] *)
Definition leaveRoom (sock roomId : string) (st : state) : state * list emission :=
  match rooms st !! roomId with
  | None => (st, [])
  | Some room =>
      let room' := mkRoom (participants room ∖ {[sock]}) (createdAt room) in
      let st1 := socket_leave sock roomId (set_rooms (<[roomId := room']> (rooms st)) st) in
      let out := broadcast sock roomId (participant_left sock) st1 in
      if decide (size (participants room') = 0%nat)
      then (set_timeouts (timeouts st1 ++ [(now st1 + 300000, roomId)]) st1, out)
      else (st1, out)
  end.

(** [if (currentRoom) leaveRoom(socket, currentRoom)]: [null] and the empty
    string are the falsy values a room identifier of type string can take. *)
Definition leave_current (s : string) (st : state) : state * list emission :=
  match currentRoom st !! s with
  | Some (Some cur) => if decide (cur = EmptyString) then (st, []) else leaveRoom s cur st
  | _ => (st, [])
  end.

(** [if (!rooms.has(roomId)) rooms.set(roomId, { participants: new Set(), createdAt: Date.now() })] *)
Definition ensure_room (roomId : string) (st : state) : state :=
  if decide (is_Some (rooms st !! roomId)) then st
  else set_rooms (<[roomId := mkRoom ∅ (now st)]> (rooms st)) st.

(** [currentRoom = roomId; room.participants.add(socket.id); socket.join(roomId)].
    [room] is the object the handler read from the map before it left the
    previous room; [leaveRoom] changes rooms in place and removes none, so
    the object is still the entry of [roomId]. *)
Definition enroll (s roomId : string) (st : state) : state :=
  socket_join s roomId
    (set_rooms (alter (λ r, mkRoom (participants r ∪ {[s]}) (createdAt r))
                      roomId (rooms st))
       (set_currentRoom (<[s := Some roomId]> (currentRoom st)) st)).

(** [[...room.participants].filter((id) => id !== socket.id)] *)
Definition existingParticipants (s roomId : string) (st : state) : list string :=
  match rooms st !! roomId with
  | Some r => filter (λ id, id ≠ s) (elements (participants r))
  | None => []
  end.

(** [socket.on('join-room', ({ roomId }) => ...)] *)
Definition join_room (s roomId : string) (st : state) : state * list emission :=
  let st0 := ensure_room roomId st in
  match rooms st0 !! roomId with
  | None => (st0, [])
  | Some room =>
      if (MAX_PARTICIPANTS <=? size (participants room))%nat
      then (st0, [(s, room_full)])
      else
        let '(st1, out1) := leave_current s st0 in
        let st2 := enroll s roomId st1 in
        (st2, out1 ++ [(s, room_joined (existingParticipants s roomId st2))]
                   ++ broadcast s roomId (participant_joined s) st2)
  end.

(** [socket.on('leave-room', ...)] *)
Definition leave_room (s : string) (st : state) : state * list emission :=
  match currentRoom st !! s with
  | Some (Some cur) =>
      if decide (cur = EmptyString) then (st, [])
      else
        let '(st1, out) := leaveRoom s cur st in
        (set_currentRoom (<[s := None]> (currentRoom st1)) st1, out)
  | _ => (st, [])
  end.

(** [socket.on('disconnect', ...)], after which the socket is gone. *)
Definition disconnect (s : string) (st : state) : state * list emission :=
  let '(st1, out) := leave_current s (socket_leave_all s st) in
  (set_currentRoom (delete s (currentRoom st1)) st1, out).

(** [io.on('connection', (socket) => { let currentRoom = null; ... })]; a new
    socket is in the socket.io room named by its own id. *)
Definition connect (s : string) (st : state) : state :=
  socket_join s s (set_currentRoom (<[s := None]> (currentRoom st)) st).

(** *** The event loop *)

(** What the process reacts to: a new connection, a request, a signaling
    message from socket [s], a timer that fires, time that passes. *)
Inductive event : Type :=
| Connect (s : string)
| PostRooms (rnd : nat → seed)
| JoinRoom (s roomId : string)
| LeaveRoom (s : string)
| Disconnect (s : string)
| Timeout (k : nat)
| Sweep
| Advance (dt : Z).

(** One turn of the event loop; [None] when the event cannot happen in the
    state (a message from a socket that is not connected, a timer that is
    not due, a clock running backwards). *)
Definition step (e : event) (st : state) : option (state * list emission) :=
  match e with
  | Connect s =>
      match currentRoom st !! s with
      | None => Some (connect s st, [])
      | Some _ => None
      end
  | PostRooms rnd => Some ((post_rooms rnd st).1, [])
  | JoinRoom s roomId =>
      match currentRoom st !! s with
      | Some _ => Some (join_room s roomId st)
      | None => None
      end
  | LeaveRoom s =>
      match currentRoom st !! s with
      | Some _ => Some (leave_room s st)
      | None => None
      end
  | Disconnect s =>
      match currentRoom st !! s with
      | Some _ => Some (disconnect s st)
      | None => None
      end
  | Timeout k =>
      match timeouts st !! k with
      | Some (due, roomId) =>
          if decide (due ≤ now st)
          then Some (cleanup roomId (set_timeouts (delete k (timeouts st)) st), [])
          else None
      | None => None
      end
  | Sweep =>
      if decide (nextSweep st ≤ now st)
      then Some (set_nextSweep (nextSweep st + 1800000) (sweep st), [])
      else None
  | Advance dt =>
      if decide (0 ≤ dt) then Some (set_now (now st + dt) st, []) else None
  end.

(** A run of the event loop, with everything emitted on the way. *)
Fixpoint exec (evs : list event) (st : state) : option (state * list emission) :=
  match evs with
  | [] => Some (st, [])
  | e :: evs' =>
      match step e st with
      | Some (st1, out1) =>
          match exec evs' st1 with
          | Some (st2, out2) => Some (st2, out1 ++ out2)
          | None => None
          end
      | None => None
      end
  end.

Definition reachable (st : state) : Prop :=
  ∃ t0 evs out, exec evs (init t0) = Some (st, out).

(** The state a trace leads to from start-up at time [t0] (the start state
    itself when the trace cannot run). *)
Definition after (evs : list event) (t0 : Z) : state :=
  match exec evs (init t0) with
  | Some (st, _) => st
  | None => init t0
  end.

(** A room code as the generator and the page routes have it: four decimal
    digits. *)
Definition is_digit (c : ascii) : bool :=
  (48 <=? nat_of_ascii c)%nat && (nat_of_ascii c <=? 57)%nat.

Definition is_code (s : string) : bool :=
  match s with
  | String a (String b (String c (String d EmptyString))) =>
      is_digit a && is_digit b && is_digit c && is_digit d
  | _ => false
  end.

(** *** Properties of states and of what a turn emits *)

(** No room of the registry holds more than [MAX_PARTICIPANTS] sockets. *)
Definition capacity_ok (st : state) : Prop :=
  ∀ r room, rooms st !! r = Some room →
    (size (participants room) ≤ MAX_PARTICIPANTS)%nat.

(** Every key of the registry is a four-digit code. *)
Definition codes_ok (st : state) : Prop :=
  ∀ r, is_Some (rooms st !! r) → is_code r = true.

(** A participant of a room with a non-empty name is a connected socket
    bound to that room and sits in the socket.io room of the same name. *)
Definition bound_ok (st : state) : Prop :=
  ∀ r room s, r ≠ EmptyString → rooms st !! r = Some room →
    s ∈ participants room →
    s ∈ members st r ∧ currentRoom st !! s = Some (Some r).

#[global] Instance message_eq_dec : EqDecision message.
Proof. solve_decision. Defined.

(** The messages a turn delivers to socket [s], in order. *)
Definition inbox (s : string) (out : list emission) : list message :=
  snd <$> filter (λ e : emission, e.1 = s) out.

(** How many times a turn delivers [msg] to socket [s]. *)
Definition received (s : string) (msg : message) (out : list emission) : nat :=
  length (filter (λ m, m = msg) (inbox s out)).

(** Whether a trace asks to join rooms with four-digit codes only. *)
Definition joins_codes_only (evs : list event) : Prop :=
  ∀ s roomId, JoinRoom s roomId ∈ evs → is_code roomId = true.

(** Events that run one of the two cleanup callbacks. *)
Definition is_cleanup (e : event) : bool :=
  match e with
  | Timeout _ | Sweep => true
  | _ => false
  end.

(** *** Auxiliary properties *)

(** [m'] holds no room and no participant that [m] does not hold. *)
Definition shrinks (m m' : gmap string RoomRec) : Prop :=
  ∀ r room', m' !! r = Some room' →
    ∃ room, m !! r = Some room ∧ participants room' ⊆ participants room
            ∧ createdAt room' = createdAt room.

(** The three parts of [bound_ok]; while socket [x] disconnects it has left
    its socket.io rooms already, so the first part is stated up to [x]. *)
Definition in_adapter_but (x : string) (st : state) : Prop :=
  ∀ r room t, r ≠ EmptyString → rooms st !! r = Some room →
    t ∈ participants room → t ≠ x → t ∈ members st r.

Definition in_binding (st : state) : Prop :=
  ∀ r room t, r ≠ EmptyString → rooms st !! r = Some room →
    t ∈ participants room → currentRoom st !! t = Some (Some r).

Definition free (s : string) (st : state) : Prop :=
  ∀ r room, r ≠ EmptyString → rooms st !! r = Some room → s ∉ participants room.

(** The five minutes after a departure at time [T] from room [roomId],
    created at time [C]: while they last, the room is in the registry, not
    older than it was (or made anew since [T]), and no cleanup of it is due
    before they are over. *)
Definition in_grace (roomId : string) (T C : Z) (st : state) : Prop :=
  T ≤ now st
  ∧ (now st < T + 300000 →
     (∃ room, rooms st !! roomId = Some room ∧ Z.min C T ≤ createdAt room)
     ∧ ∀ due, (due, roomId) ∈ timeouts st → T + 300000 ≤ due).

(** *** Sample states *)

Definition sample_full : state :=
  after [Connect "a"; Connect "b"; Connect "c"; Connect "d"; Connect "e";
         JoinRoom "e" "5678";
         JoinRoom "a" "1234"; JoinRoom "b" "1234"; JoinRoom "c" "1234";
         JoinRoom "d" "1234"] 0.

Definition sample_pair : state :=
  after [Connect "a"; Connect "b"; Connect "c";
         JoinRoom "a" "1234"; JoinRoom "b" "1234"] 0.

Definition sample_single : state :=
  after [Connect "a"; JoinRoom "a" "1234"] 0.

Definition sample_old : state :=
  after [Connect "a"; JoinRoom "a" "1234";
         Advance 1800000; Sweep; Advance 1800000; Sweep; Advance 1800000; Sweep;
         Advance 1799000] 0.

Definition sample_due : state :=
  after [Connect "a"; Connect "b"; JoinRoom "a" "1234"; JoinRoom "b" "5678";
         LeaveRoom "a"; Advance 3600001] 0.

Definition sample_unnamed : state :=
  after [Connect "a"; Connect "b";
         JoinRoom "a" EmptyString; JoinRoom "b" EmptyString] 0.

(** *** Relayed signaling *)

(** The three targeted messages: [offer], [answer] and [ice-candidate]. *)
Inductive signal_kind : Type :=
| sig_offer
| sig_answer
| sig_ice_candidate.

(** What the target receives: the kind, [sender: socket.id] and the payload
    ([sdp] or [candidate]), which the server passes on as it is. *)
Record signal (P : Type) : Type := mkSignal {
  sig_kind : signal_kind;
  sig_sender : string;
  sig_payload : P
}.

(** [io.to(target).emit(kind, { sender: socket.id, ... })]: every socket of
    the socket.io room named [target]. *)
Definition relay {P : Type} (k : signal_kind) (s target : string) (payload : P)
    (st : state) : list (string * signal P) :=
  (λ t, (t, mkSignal P k s payload)) <$> elements (members st target).

(** Whether the sockets of a trace have ids that are not four-digit codes
    (socket.io ids are twenty characters long). *)
Definition ids_not_codes (evs : list event) : Prop :=
  ∀ s, Connect s ∈ evs → is_code s = false.

(** The socket.io room named by an id that is not a room code holds the
    socket of that id while it is connected and nothing else. *)
Definition own_rooms_ok (st : state) : Prop :=
  ∀ t, is_code t = false →
    members st t = if decide (is_Some (currentRoom st !! t)) then {[t]} else ∅.

(** Every binding names a four-digit code. *)
Definition bindings_codes (st : state) : Prop :=
  ∀ s c, currentRoom st !! s = Some (Some c) → is_code c = true.

(** The clock has not run backwards since start-up at [t0], no room is
    younger than the clock allows and no cleanup is due more than five
    minutes ahead. *)
Definition time_ok (t0 : Z) (st : state) : Prop :=
  t0 ≤ now st
  ∧ (∀ r room, rooms st !! r = Some room → t0 ≤ createdAt room ≤ now st)
  ∧ (∀ due r, (due, r) ∈ timeouts st → due ≤ now st + 300000).

(** The three facts the relay rests on. *)
Definition relay_ok (st : state) : Prop :=
  own_rooms_ok st ∧ bindings_codes st
  ∧ ∀ t, is_Some (currentRoom st !! t) → is_code t = false.

End Server.

(** ** public/js/main.js *)

Module Landing.

(** A JavaScript string is a sequence of code units; the model keeps the
    code units below 256 ([ascii]).  [\d] is [0-9]; [trim] removes
    WhiteSpace and LineTerminator code units, of which TAB, LF, VT, FF, CR,
    SP and NBSP are in range. *)
Definition is_digit (c : ascii) : bool :=
  (48 <=? nat_of_ascii c)%nat && (nat_of_ascii c <=? 57)%nat.

Definition is_space (c : ascii) : bool :=
  let n := nat_of_ascii c in
  ((9 <=? n)%nat && (n <=? 13)%nat) || (n =? 32)%nat || (n =? 160)%nat.

Fixpoint trim_start (s : list ascii) : list ascii :=
  match s with
  | c :: s' => if is_space c then trim_start s' else s
  | [] => []
  end.

(** [input.trim()] *)
Definition trim (s : list ascii) : list ascii :=
  rev (trim_start (rev (trim_start s))).

(** [(?!\d)] at the head of [s] *)
Definition not_followed_by_digit (s : list ascii) : bool :=
  match s with
  | c :: _ => negb (is_digit c)
  | [] => true
  end.

(** One attempt of [/(\d{4})(?!\d)/] at the head of [s]. *)
Definition match_here (s : list ascii) : option (list ascii) :=
  match s with
  | a :: b :: c :: d :: rest =>
      if is_digit a && is_digit b && is_digit c && is_digit d
         && not_followed_by_digit rest
      then Some [a; b; c; d]
      else None
  | _ => None
  end.

(** [s.match(/(\d{4})(?!\d)/g)]: the attempts go from left to right; after a
    match the next attempt starts behind it, so [skip] code units of the
    match just found are passed over. *)
Fixpoint match_global (skip : nat) (s : list ascii) : list (list ascii) :=
  match s with
  | [] => []
  | c :: rest =>
      match skip with
      | S k => match_global k rest
      | O =>
          match match_here (c :: rest) with
          | Some m => m :: match_global 3 rest
          | None => match_global 0 rest
          end
      end
  end.

(** [function extractRoomId(input)]; [None] is [null]. *)
Definition extractRoomId (input : list ascii) : option (list ascii) :=
  let trimmed := trim input in
  match trimmed with
  | [] => None
  | _ =>
      match match_global 0 trimmed with
      | [] => None
      | matches => last matches
      end
  end.

(** [w] is a run of four digits of [s], at offset
    [i], that no digit follows. *)
Definition code_at (s : list ascii) (i : nat) (w : list ascii) : Prop :=
  ∃ post, drop i s = w ++ post ∧ length w = 4%nat
          ∧ forallb is_digit w = true ∧ not_followed_by_digit post = true.

(** Every match of the pattern in [s], from left to right, overlapping or
    not. *)
Fixpoint code_windows (s : list ascii) : list (list ascii) :=
  match s with
  | [] => []
  | c :: rest =>
      match match_here (c :: rest) with
      | Some m => m :: code_windows rest
      | None => code_windows rest
      end
  end.

(** [w] is the last such run of [s]. *)
Definition last_code (s : list ascii) (w : list ascii) : Prop :=
  ∃ i, code_at s i w ∧ ∀ j w', code_at s j w' → (j ≤ i)%nat.

(** *** The four code boxes *)

(** The values of [codeInputs], one string per box, in document order. *)
Abbreviation boxes := (list (list ascii)).

(** [codeInputs.map((input) => input.value).join('')] *)
Definition readCode (inputs : boxes) : list ascii := concat inputs.

(** [fillCode(code)]: box [index] gets [digits[index] || '']. *)
Definition fillCode (code : list ascii) (inputs : boxes) : boxes :=
  imap (λ index _, match code !! index with Some d => [d] | None => [] end) inputs.

(** [/^\d{4}$/.test(code)] *)
Definition test_code (code : list ascii) : bool :=
  (length code =? 4)%nat && forallb is_digit code.

(** [maybeJoin()]: the argument of the call of [joinRoom], if it is made. *)
Definition maybeJoin (inputs : boxes) : option (list ascii) :=
  let code := readCode inputs in
  let allFilled := forallb (λ v, negb (bool_decide (v = []))) inputs in
  if allFilled && test_code code then Some code else None.

(** What a handler leaves behind: the boxes, the box it focuses, the room it
    asks to join, whether it called [preventDefault]. *)
Record outcome : Type := mkOutcome {
  o_inputs : boxes;
  o_focus : option nat;
  o_join : option (list ascii);
  o_prevented : bool
}.

(** The ['paste'] listener. *)
Definition on_paste (text : list ascii) (inputs : boxes) : outcome :=
  match extractRoomId text with
  | None => mkOutcome inputs None None false
  | Some roomId =>
      let inputs' := fillCode roomId inputs in
      mkOutcome inputs' None (maybeJoin inputs') true
  end.

(** [chunk.split('').forEach((digit, offset) => { codeInputs[index + offset].value = digit; })] *)
Fixpoint distribute (index : nat) (chunk : list ascii) (inputs : boxes) : boxes :=
  match chunk with
  | [] => inputs
  | digit :: chunk' => distribute (S index) chunk' (<[index := [digit]]> inputs)
  end.

(** The ['input'] listener of box [index], whose value is what the user has
    just typed or dropped into it. *)
Definition on_input (index : nat) (inputs : boxes) : outcome :=
  match inputs !! index with
  | None => mkOutcome inputs None None false
  | Some value =>
      let digits := filter (λ c, is_digit c = true) value in
      if (1 <? length digits)%nat then
        let available := (length inputs - index)%nat in
        let chunk := take available digits in
        let inputs' := distribute index chunk inputs in
        let nextIndex := Nat.min (index + length chunk) (length inputs - 1) in
        mkOutcome inputs' (Some nextIndex) (maybeJoin inputs') false
      else
        let inputs' := <[index := digits]> inputs in
        let focus :=
          if negb (bool_decide (digits = [])) && (index <? length inputs - 1)%nat
          then Some (S index) else None in
        mkOutcome inputs' focus (maybeJoin inputs') false
  end.

End Landing.

(** ** public/js/room.js *)

#[local] Set Warnings "-inexact-float".

Module Room.
Import PrimFloat.

Local Open Scope Q_scope.

(** A JavaScript number is an IEEE 754 binary64 value; [frameRate] is the
    one field of a tier the loop computes with and is kept as such. *)
Record tier : Type := mkTier {
  width : Z;
  height : Z;
  frameRate : PrimFloat.float;
  maxBitrate : Z;
  label : string
}.

(** [const QUALITY_TIERS], highest first. *)
Definition QUALITY_TIERS : list tier :=
  [ mkTier 1920 1080 30%float 10000000 "1080p+";
    mkTier 1920 1080 30%float 5000000 "1080p";
    mkTier 1280 720 30%float 2500000 "720p";
    mkTier 960 540 24%float 1200000 "540p";
    mkTier 640 360 20%float 600000 "360p" ].

(** The part of a [RoomManager] the quality loop reads and writes: the keys
    of the [peers] map and the adaptive quality state. *)
Record manager : Type := mkManager {
  peers : list string;
  currentTierIndex : nat;
  degradeCount : nat;
  improveCount : nat
}.

(** What the constructor sets. *)
Definition start : manager := mkManager [] 0 0 0.

(** The rational a finite binary64 number denotes, in lowest terms (0 for
    an infinity or a NaN, which no product of the tier table is). *)
Definition value (x : PrimFloat.float) : Q :=
  match FloatOps.Prim2SF x with
  | SpecFloat.S754_finite s m e =>
      let a := if s then Z.neg m else Z.pos m in
      Qred (if (0 <=? e)%Z then inject_Z (a * 2 ^ e) else a # Z.to_pos (2 ^ (- e)))
  | _ => 0
  end.

(** A sample is a finite binary64 number and is read as the rational it
    denotes; comparing two such numbers is comparing what they denote.  The
    thresholds are the binary64 products [targetFps * 0.6] and
    [targetFps * 0.85], rounded as IEEE 754 rounds them, with [0.6] and
    [0.85] the binary64 numbers nearest to 6/10 and 85/100. *)
Definition Qlt_bool (x y : Q) : bool := negb (Qle_bool y x).

(** [adaptQuality(actualFps)]; [None] is the TypeError of reading
    [frameRate] of an [undefined] tier.  [applyCurrentTier] acts on the
    capture track and the senders only and is not part of the state. *)
Definition adaptQuality (actualFps : Q) (rm : manager) : option manager :=
  if decide (length (peers rm) = 0%nat) then Some rm
  else
    match QUALITY_TIERS !! currentTierIndex rm with
    | None => None
    | Some t =>
        let targetFps := frameRate t in
        let '(d, i) :=
          if Qlt_bool 0 actualFps && Qlt_bool actualFps (value (targetFps * 0.6)%float)
          then (S (degradeCount rm), 0%nat)
          else if Qle_bool (value (targetFps * 0.85)%float) actualFps
          then (0%nat, S (improveCount rm))
          else (0%nat, 0%nat) in
        let '(idx1, d1, i1) :=
          if (3 <=? d)%nat && (currentTierIndex rm <? length QUALITY_TIERS - 1)%nat
          then (S (currentTierIndex rm), 0%nat, 0%nat)
          else (currentTierIndex rm, d, i) in
        let '(idx2, d2, i2) :=
          if (8 <=? i1)%nat && (0 <? idx1)%nat
          then (Nat.pred idx1, 0%nat, 0%nat)
          else (idx1, d1, i1) in
        Some (mkManager (peers rm) idx2 d2 i2)
    end.

(** A run of the control loop over consecutive samples. *)
Fixpoint adaptAll (samples : list Q) (rm : manager) : option manager :=
  match samples with
  | [] => Some rm
  | f :: samples' =>
      match adaptQuality f rm with
      | Some rm' => adaptAll samples' rm'
      | None => None
      end
  end.

(** One entry of an [RTCStatsReport], with the fields the tick reads for the
    decision; [framesPerSecond] may be missing. *)
Record report : Type := mkReport {
  rtype : string;
  kind : string;
  framesPerSecond : option Q
}.

(** [let minFps = Infinity] *)
Inductive fpsval : Type :=
| Infinity
| Fps (q : Q).

(** [Math.min(minFps, fps)] *)
Definition Math_min (m : fpsval) (fps : Q) : fpsval :=
  match m with
  | Infinity => Fps fps
  | Fps q => if Qle_bool q fps then Fps q else Fps fps
  end.

Definition is_outbound_video (r : report) : bool :=
  String.eqb (rtype r) "outbound-rtp" && String.eqb (kind r) "video".

(** [const fps = report.framesPerSecond || 0] *)
Definition reading (r : report) : Q :=
  match framesPerSecond r with
  | Some q => q
  | None => 0
  end.

(** The loop over [stats.values()] of one peer. *)
Definition scan_reports (rs : list report) (minFps : fpsval) : fpsval :=
  fold_left
    (λ m r,
       if is_outbound_video r
       then if Qlt_bool 0 (reading r) then Math_min m (reading r) else m
       else m)
    rs minFps.

(** The loop over [this.peers]; [getStats p] is what [peer.pc.getStats()]
    resolves to for peer [p], [None] when it rejects (the [catch] skips the
    peer). *)
Definition scan_peers (getStats : string → option (list report))
    (ps : list string) (minFps : fpsval) : fpsval :=
  fold_left
    (λ m p, match getStats p with Some rs => scan_reports rs m | None => m end)
    ps minFps.

(** The value of [minFps] when the loops are over. *)
Definition minFps_of (getStats : string → option (list report)) (rm : manager) : fpsval :=
  scan_peers getStats (peers rm) Infinity.

(** [collectStats()], as far as the quality state goes: the display text and
    the byte counters kept for the bitrate do not reach the decision. *)
Definition collectStats (getStats : string → option (list report))
    (rm : manager) : option manager :=
  if decide (length (peers rm) = 0%nat) then Some rm
  else
    match minFps_of getStats rm with
    | Fps f => adaptQuality f rm
    | Infinity => Some rm
    end.

(** Every frame rate the tick observes on an outbound video report. *)
Definition observed (getStats : string → option (list report))
    (ps : list string) : list Q :=
  flat_map
    (λ p, match getStats p with
          | Some rs => map reading (filter (λ r, is_outbound_video r = true) rs)
          | None => []
          end)
    ps.

(** The two thresholds of tier [t], as the code computes them. *)
Definition low_threshold (t : tier) : Q := value (frameRate t * 0.6)%float.

Definition high_threshold (t : tier) : Q := value (frameRate t * 0.85)%float.

(** The three bands of a sample against the thresholds of tier [t]; a
    sample that is not above 0 is in none of them. *)
Definition low (t : tier) (f : Q) : Prop :=
  0 < f ∧ f < low_threshold t.

Definition high (t : tier) (f : Q) : Prop :=
  high_threshold t <= f.

Definition middle (t : tier) (f : Q) : Prop :=
  low_threshold t <= f ∧ f < high_threshold t.

(** [acc] is the least of the readings of [L] that are above 0, or
    [Infinity] when there is none. *)
Definition least_positive (acc : fpsval) (L : list Q) : Prop :=
  match acc with
  | Infinity => ∀ f, f ∈ L → ¬ 0 < f
  | Fps m => m ∈ L ∧ 0 < m ∧ ∀ f, f ∈ L → 0 < f → m <= f
  end.

(** *** Sample inputs *)

(** The binary64 number 14.399999999999998578..., the one next below the
    one nearest to 14.4; JavaScript prints it as [14.399999999999999]. *)
Definition just_under : Q := 2026619832316723 # 140737488355328.

Definition sample_manager : manager := mkManager ["a"; "b"] 0 0 0.

(** Peer ["a"] sends 12 frames per second, peer ["b"] 30. *)
Definition sample_stats (p : string) : option (list report) :=
  if String.eqb p "a"
  then Some [mkReport "outbound-rtp" "video" (Some 12);
             mkReport "inbound-rtp" "video" (Some 3)]
  else Some [mkReport "outbound-rtp" "audio" None;
             mkReport "outbound-rtp" "video" (Some 30)].

(** Peer ["a"] is stalled at 0 frames per second, peer ["b"] sends 30. *)
Definition stalled_stats (p : string) : option (list report) :=
  if String.eqb p "a"
  then Some [mkReport "outbound-rtp" "video" (Some 0)]
  else Some [mkReport "outbound-rtp" "video" (Some 30)].

(** *** The roster and the loop *)

(** [adjustQuality()]: the roster changed; both counters start again and
    the current tier is applied once more. *)
Definition adjustQuality (rm : manager) : manager :=
  mkManager (peers rm) (currentTierIndex rm) 0 0.

(** [this.peers.set(peerId, ...)] of [createPeerConnection]: a new key goes
    to the end, a known key keeps its place. *)
Definition createPeerConnection (peerId : string) (rm : manager) : manager :=
  mkManager (if decide (peerId ∈ peers rm) then peers rm else peers rm ++ [peerId])
            (currentTierIndex rm) (degradeCount rm) (improveCount rm).

(** [removePeer(peerId)] *)
Definition removePeer (peerId : string) (rm : manager) : manager :=
  mkManager (filter (λ p, p ≠ peerId) (peers rm))
            (currentTierIndex rm) (degradeCount rm) (improveCount rm).

(** What reaches the quality state: the three roster messages of the server
    and the tick of the statistics interval. *)
Inductive happening : Type :=
| on_room_joined (participants : list string)
| on_participant_joined (socketId : string)
| on_participant_left (socketId : string)
| on_tick (getStats : string → option (list report)).

Definition handle (h : happening) (rm : manager) : option manager :=
  match h with
  | on_room_joined participants =>
      Some (fold_left (λ m peerId, createPeerConnection peerId m) participants rm)
  | on_participant_joined socketId =>
      Some (adjustQuality (createPeerConnection socketId rm))
  | on_participant_left socketId =>
      Some (adjustQuality (removePeer socketId rm))
  | on_tick getStats => collectStats getStats rm
  end.

Fixpoint handleAll (hs : list happening) (rm : manager) : option manager :=
  match hs with
  | [] => Some rm
  | h :: hs' =>
      match handle h rm with
      | Some rm' => handleAll hs' rm'
      | None => None
      end
  end.

(** *** The room of the page *)

(** One attempt of [/\/(\d{4})\/?$/] at the head of [s]: a slash, four
    digits, and then the end, with or without one more slash before it. *)
Definition match_path_here (s : list ascii) : option (list ascii) :=
  match s with
  | slash :: a :: b :: c :: d :: rest =>
      if bool_decide (slash = "/"%char)
         && Landing.is_digit a && Landing.is_digit b
         && Landing.is_digit c && Landing.is_digit d
         && (bool_decide (rest = []) || bool_decide (rest = ["/"%char]))
      then Some [a; b; c; d]
      else None
  | _ => None
  end.

(** [window.location.pathname.match(/\/(\d{4})\/?$/)] and
    [this.roomId = pathMatch ? pathMatch[1] : null]. *)
Fixpoint path_roomId (pathname : list ascii) : option (list ascii) :=
  match pathname with
  | [] => None
  | c :: rest =>
      match match_path_here (c :: rest) with
      | Some m => Some m
      | None => path_roomId rest
      end
  end.

(** *** Relay detection *)

(** One entry of an [RTCStatsReport], with the fields the relay check reads;
    a field an entry does not have is the empty string or [false]. *)
Record stat : Type := mkStat {
  s_type : string;
  s_state : string;
  s_nominated : bool;
  localCandidateId : string;
  remoteCandidateId : string;
  candidateType : string
}.

(** [const c = stats.get(id); c && c.candidateType === 'relay'] *)
Definition is_relay_candidate (stats : gmap string stat) (id : string) : bool :=
  match stats !! id with
  | Some c => String.eqb (candidateType c) "relay"
  | None => false
  end.

(** The condition on a report in the loop of [check]. *)
Definition nominated_pair (r : stat) : bool :=
  String.eqb (s_type r) "candidate-pair" && String.eqb (s_state r) "succeeded"
  && s_nominated r.

(** The loop of [check] in [startRelayCheck]: the value of [isRelay] when
    every report has been seen. *)
Definition check_relay (stats : gmap string stat) : bool :=
  fold_left
    (λ isRelay (kv : string * stat),
       if nominated_pair kv.2
       then if is_relay_candidate stats (localCandidateId kv.2)
               || is_relay_candidate stats (remoteCandidateId kv.2)
            then true else isRelay
       else isRelay)
    (map_to_list stats) false.

(** [updateRelayBadge()]: the value of [relayBadge.hidden], from the
    [isRelay] flags of the peers in the order of the map. *)
Fixpoint badge_hidden (flags : list (string * bool)) : bool :=
  match flags with
  | [] => true
  | (_, isRelay) :: flags' => if isRelay then false else badge_hidden flags'
  end.

End Room.

(** * Properties *)

#[local] Set Warnings "-clear-no-such-hyp".

(** ** The registry and the gateway *)

Module ServerFacts.
Import Server.

(** *** What the handlers do to the registry *)

Lemma shrinks_refl m : shrinks m m.
Proof. intros r room' Hl. exists room'. set_solver. Qed.

Lemma shrinks_trans m1 m2 m3 : shrinks m1 m2 → shrinks m2 m3 → shrinks m1 m3.
Proof.
  intros H12 H23 r room3 Hl.
  destruct (H23 _ _ Hl) as (room2 & Hl2 & Hsub2 & Hc2).
  destruct (H12 _ _ Hl2) as (room1 & Hl1 & Hsub1 & Hc1).
  exists room1. split; [done|]. split; [set_solver|congruence].
Qed.

Lemma shrinks_capacity st st' :
  shrinks (rooms st) (rooms st') → capacity_ok st → capacity_ok st'.
Proof.
  intros Hs Hc r room' Hl.
  destruct (Hs _ _ Hl) as (room & Hl0 & Hsub & _).
  specialize (Hc _ _ Hl0). apply subseteq_size in Hsub. lia.
Qed.

Lemma leaveRoom_rooms s r st :
  rooms (leaveRoom s r st).1 =
  match rooms st !! r with
  | Some room => <[r := mkRoom (participants room ∖ {[s]}) (createdAt room)]> (rooms st)
  | None => rooms st
  end.
Proof.
  unfold leaveRoom. destruct (rooms st !! r); [|done].
  cbn. case_decide; done.
Qed.

Lemma leaveRoom_shrinks s r st : shrinks (rooms st) (rooms (leaveRoom s r st).1).
Proof.
  rewrite leaveRoom_rooms. destruct (rooms st !! r) as [room|] eqn:E;
    [|apply shrinks_refl].
  intros r' room' Hl. destruct (decide (r = r')) as [->|Hne].
  - rewrite lookup_insert_eq in Hl. injection Hl as <-. exists room. cbn.
    split; [done|]. split; [apply subseteq_difference_l; done|done].
  - rewrite lookup_insert_ne in Hl by done. exists room'. set_solver.
Qed.

Lemma leave_current_shrinks s st : shrinks (rooms st) (rooms (leave_current s st).1).
Proof.
  unfold leave_current.
  destruct (currentRoom st !! s) as [[cur|]|]; cbn; try apply shrinks_refl.
  case_decide; cbn; [apply shrinks_refl|apply leaveRoom_shrinks].
Qed.

Lemma leave_room_shrinks s st : shrinks (rooms st) (rooms (leave_room s st).1).
Proof.
  unfold leave_room.
  destruct (currentRoom st !! s) as [[cur|]|]; cbn; try apply shrinks_refl.
  case_decide; cbn; [apply shrinks_refl|].
  pose proof (leaveRoom_shrinks s cur st) as Hs.
  destruct (leaveRoom s cur st) as [st1 out]. exact Hs.
Qed.

Lemma disconnect_shrinks s st : shrinks (rooms st) (rooms (disconnect s st).1).
Proof.
  unfold disconnect.
  pose proof (leave_current_shrinks s (socket_leave_all s st)) as Hs.
  destruct (leave_current s (socket_leave_all s st)) as [st1 out]. exact Hs.
Qed.

Lemma cleanup_shrinks roomId st : shrinks (rooms st) (rooms (cleanup roomId st)).
Proof.
  unfold cleanup. destruct (rooms st !! roomId) as [r|]; [|apply shrinks_refl].
  case_decide; [|apply shrinks_refl].
  intros r' room' Hl. cbn in Hl. apply lookup_delete_Some in Hl as [_ Hl].
  exists room'. set_solver.
Qed.

Lemma sweep_shrinks st : shrinks (rooms st) (rooms (sweep st)).
Proof.
  intros r' room' Hl. cbn in Hl. apply map_lookup_filter_Some in Hl as [Hl _].
  exists room'. set_solver.
Qed.

(** A turn that neither creates a room nor lets a socket in only shrinks the
    registry. *)
Ltac split_pair H :=
  let H1 := fresh in let H2 := fresh in
  pose proof (f_equal fst H) as H1; pose proof (f_equal snd H) as H2;
  cbn [fst snd] in H1, H2; clear H; subst.

Ltac step_inv :=
  let H := fresh in intros H; apply (inj Some) in H; split_pair H.

Lemma step_shrinks e st st' out :
  step e st = Some (st', out) →
  match e with PostRooms _ | JoinRoom _ _ => True | _ => shrinks (rooms st) (rooms st') end.
Proof.
  destruct e as [s|rnd|s roomId|s|s|k| |dt]; cbn; try done.
  - destruct (currentRoom st !! s); [done|]. step_inv. apply shrinks_refl.
  - destruct (currentRoom st !! s); [|done]. step_inv.
    apply leave_room_shrinks.
  - destruct (currentRoom st !! s); [|done]. step_inv.
    apply disconnect_shrinks.
  - destruct (timeouts st !! k) as [[due roomId]|]; [|done].
    case_decide; [|done]. step_inv.
    apply (cleanup_shrinks roomId (set_timeouts (delete k (timeouts st)) st)).
  - case_decide; [|done]. step_inv. apply sweep_shrinks.
  - case_decide; [|done]. step_inv. apply shrinks_refl.
Qed.

(** *** Runs *)

Lemma exec_invariant (P : state → Prop) (ok : event → Prop) :
  (∀ e st st' out, ok e → P st → step e st = Some (st', out) → P st') →
  ∀ evs st st' out,
    (∀ e, e ∈ evs → ok e) → P st → exec evs st = Some (st', out) → P st'.
Proof.
  intros Hstep evs. induction evs as [|e evs IH]; intros st st' out Hok HP Hex.
  - cbn in Hex. injection Hex as <- _. exact HP.
  - cbn in Hex. destruct (step e st) as [[st1 out1]|] eqn:He; [|done].
    destruct (exec evs st1) as [[st2 out2]|] eqn:Hevs; [|done].
    injection Hex as <- _.
    apply (IH st1 st2 out2); [|eapply Hstep; eauto|done].
    + intros e' He'. apply Hok. by right.
    + apply Hok. by left.
Qed.

Lemma reachable_invariant (P : state → Prop) :
  (∀ t0, P (init t0)) →
  (∀ e st st' out, P st → step e st = Some (st', out) → P st') →
  ∀ st, reachable st → P st.
Proof.
  intros Hinit Hstep st (t0 & evs & out & Hex).
  apply (exec_invariant P (λ _, True)) with evs (init t0) out; eauto.
Qed.

Lemma reachable_step e st st' out :
  reachable st → step e st = Some (st', out) → reachable st'.
Proof.
  intros (t0 & evs & out0 & Hex) Hst. exists t0, (evs ++ [e]).
  revert Hex. generalize (init t0) as st0. revert out0.
  induction evs as [|e' evs IH]; intros out0 st0 Hex.
  - cbn in Hex. injection Hex as -> <-. cbn. rewrite Hst. eauto.
  - cbn in Hex |- *. destruct (step e' st0) as [[st1 out1]|]; [|done].
    destruct (exec evs st1) as [[st2 out2]|] eqn:Hevs; [|done].
    injection Hex as -> <-.
    destruct (IH _ _ Hevs) as [out3 ->]. eauto.
Qed.

(** *** The capacity of a room *)

Lemma ensure_room_lookup roomId st :
  rooms (ensure_room roomId st) !! roomId =
  Some (default (mkRoom ∅ (now st)) (rooms st !! roomId)).
Proof.
  unfold ensure_room. case_decide as Hs.
  - destruct Hs as [room Hroom]. by rewrite Hroom.
  - cbn. rewrite lookup_insert_eq.
    destruct (rooms st !! roomId) eqn:E; [|done]. destruct Hs; eauto.
Qed.

Lemma ensure_room_present roomId st room :
  rooms st !! roomId = Some room → ensure_room roomId st = st.
Proof. intros Hl. unfold ensure_room. rewrite decide_True; eauto. Qed.

Lemma ensure_room_lookup_ne roomId st r :
  r ≠ roomId → rooms (ensure_room roomId st) !! r = rooms st !! r.
Proof.
  intros Hne. unfold ensure_room. case_decide; [done|].
  cbn. by rewrite lookup_insert_ne.
Qed.

Lemma ensure_room_capacity roomId st :
  capacity_ok st → capacity_ok (ensure_room roomId st).
Proof.
  intros Hc r room Hl. destruct (decide (r = roomId)) as [->|Hne].
  - rewrite ensure_room_lookup in Hl. injection Hl as <-.
    destruct (rooms st !! roomId) as [room0|] eqn:E; cbn.
    + by apply (Hc roomId).
    + rewrite size_empty. unfold MAX_PARTICIPANTS. lia.
  - rewrite ensure_room_lookup_ne in Hl by done. by apply (Hc r).
Qed.

Lemma post_rooms_rooms rnd st :
  rooms (post_rooms rnd st).1 =
  <[(post_rooms rnd st).2 := mkRoom ∅ (now st)]> (rooms st).
Proof. reflexivity. Qed.

Lemma post_rooms_capacity rnd st :
  capacity_ok st → capacity_ok (post_rooms rnd st).1.
Proof.
  intros Hc r room. rewrite post_rooms_rooms.
  destruct (decide ((post_rooms rnd st).2 = r)) as [->|Hne].
  - rewrite lookup_insert_eq. intros Hl. injection Hl as <-. cbn.
    rewrite size_empty. unfold MAX_PARTICIPANTS. lia.
  - rewrite lookup_insert_ne by done. apply Hc.
Qed.

Lemma enroll_capacity s roomId st :
  capacity_ok st →
  (∀ room, rooms st !! roomId = Some room →
     (size (participants room) < MAX_PARTICIPANTS)%nat) →
  capacity_ok (enroll s roomId st).
Proof.
  intros Hc Hlt r room' Hl. cbn in Hl. rewrite lookup_alter in Hl.
  case_decide as Heq.
  - subst r. destruct (rooms st !! roomId) as [room|] eqn:E; [|done].
    cbn in Hl. injection Hl as <-. cbn.
    specialize (Hlt _ eq_refl).
    pose proof (size_union_alt (participants room) {[s]}) as Hu.
    assert (size ({[s]} ∖ participants room) ≤ 1)%nat.
    { etrans; [apply subseteq_size, subseteq_difference_l; reflexivity|].
      by rewrite size_singleton. }
    lia.
  - by apply (Hc r).
Qed.

Lemma join_room_capacity s roomId st :
  capacity_ok st → capacity_ok (join_room s roomId st).1.
Proof.
  intros Hc. unfold join_room.
  pose proof (ensure_room_capacity roomId st Hc) as Hc0.
  destruct (rooms (ensure_room roomId st) !! roomId) as [room|] eqn:E; [|done].
  destruct (MAX_PARTICIPANTS <=? size (participants room))%nat eqn:Hfull; [done|].
  apply Nat.leb_gt in Hfull.
  pose proof (leave_current_shrinks s (ensure_room roomId st)) as Hs.
  destruct (leave_current s (ensure_room roomId st)) as [st1 out1]. cbn in Hs.
  cbn [fst]. apply enroll_capacity.
  - by apply (shrinks_capacity (ensure_room roomId st)).
  - intros room1 Hl1. destruct (Hs _ _ Hl1) as (room0 & Hl0 & Hsub & _).
    rewrite E in Hl0. injection Hl0 as <-. apply subseteq_size in Hsub. lia.
Qed.

(** Every turn of the event loop keeps the rooms within capacity. *)
Lemma step_capacity e st st' out :
  capacity_ok st → step e st = Some (st', out) → capacity_ok st'.
Proof.
  intros Hc Hst. pose proof (step_shrinks e st st' out Hst) as Hs.
  destruct e as [s|rnd|s roomId|s|s|k| |dt];
    try (by apply (shrinks_capacity st)).
  - cbn in Hst. revert Hst. step_inv. by apply post_rooms_capacity.
  - cbn in Hst. destruct (currentRoom st !! s); [|done]. revert Hst. step_inv.
    by apply join_room_capacity.
Qed.

Lemma init_capacity t0 : capacity_ok (init t0).
Proof. intros r room Hl. cbn in Hl. by rewrite lookup_empty in Hl. Qed.

(** *** Participants, bindings and socket.io rooms *)

Lemma bound_ok_parts st :
  bound_ok st → (∀ x, in_adapter_but x st) ∧ in_binding st.
Proof.
  intros Hb. split.
  - intros x r room t Hr Hl Ht _. by apply (Hb r room t).
  - intros r room t Hr Hl Ht. by apply (Hb r room t).
Qed.

Lemma bound_ok_of_parts s st :
  in_adapter_but s st → in_binding st → free s st → bound_ok st.
Proof.
  intros Ha Hb Hf r room t Hr Hl Ht. split; [|by apply (Hb r room t)].
  apply (Ha r room t); try done. intros ->. by apply (Hf r room).
Qed.

Lemma members_socket_leave s r st r' :
  members (socket_leave s r st) r' =
  if decide (r = r') then members st r ∖ {[s]} else members st r'.
Proof.
  unfold members at 1. cbn. case_decide as Heq.
  - subst. by rewrite lookup_insert_eq.
  - by rewrite lookup_insert_ne.
Qed.

Lemma members_socket_join s r st r' :
  members (socket_join s r st) r' =
  if decide (r = r') then members st r ∪ {[s]} else members st r'.
Proof.
  unfold members at 1. cbn. case_decide as Heq.
  - subst. by rewrite lookup_insert_eq.
  - by rewrite lookup_insert_ne.
Qed.

Lemma members_socket_leave_all s st r :
  members (socket_leave_all s st) r = members st r ∖ {[s]}.
Proof.
  unfold members. cbn. rewrite lookup_fmap.
  destruct (adapter st !! r); cbn; [done|].
  apply set_eq. intros x. rewrite elem_of_difference, elem_of_empty. tauto.
Qed.

Lemma leaveRoom_currentRoom s r st :
  currentRoom (leaveRoom s r st).1 = currentRoom st.
Proof.
  unfold leaveRoom. destruct (rooms st !! r); [|done]. cbn. case_decide; done.
Qed.

Lemma leaveRoom_adapter s r st :
  adapter (leaveRoom s r st).1 =
  match rooms st !! r with
  | Some _ => <[r := members st r ∖ {[s]}]> (adapter st)
  | None => adapter st
  end.
Proof.
  unfold leaveRoom. destruct (rooms st !! r); [|done]. cbn. case_decide; done.
Qed.

Lemma leaveRoom_members s r st r' :
  members (leaveRoom s r st).1 r' =
  if decide (is_Some (rooms st !! r) ∧ r = r')
  then members st r ∖ {[s]} else members st r'.
Proof.
  unfold members at 1. rewrite leaveRoom_adapter.
  destruct (rooms st !! r) as [room|] eqn:E.
  - destruct (decide (r = r')) as [->|Hne].
    + rewrite lookup_insert_eq, decide_True by eauto. done.
    + rewrite lookup_insert_ne, decide_False by naive_solver. done.
  - rewrite decide_False; [done|]. intros [[? ?] _]. done.
Qed.

Lemma leaveRoom_out s r st room :
  rooms st !! r = Some room →
  (leaveRoom s r st).2 =
  (λ t, (t, participant_left s)) <$> elements (members st r ∖ {[s]} ∖ {[s]}).
Proof.
  intros Hl. unfold leaveRoom. rewrite Hl.
  assert (∀ st1, members st1 r = members st r ∖ {[s]} →
            broadcast s r (participant_left s) st1 =
            (λ t, (t, participant_left s)) <$> elements (members st r ∖ {[s]} ∖ {[s]})) as Hb.
  { intros st1 Hm. unfold broadcast. by rewrite Hm. }
  cbn. case_decide; cbn; apply Hb; rewrite members_socket_leave, decide_True; done.
Qed.

Lemma leaveRoom_absent s r st :
  rooms st !! r = None → leaveRoom s r st = (st, []).
Proof. intros Hl. unfold leaveRoom. by rewrite Hl. Qed.

Lemma leaveRoom_in_adapter_but s cur st :
  in_adapter_but s st → in_adapter_but s (leaveRoom s cur st).1.
Proof.
  intros Ha r room' t Hr Hl Ht Hts.
  rewrite leaveRoom_members. rewrite leaveRoom_rooms in Hl.
  destruct (rooms st !! cur) as [room|] eqn:E.
  - destruct (decide (cur = r)) as [->|Hne].
    + rewrite lookup_insert_eq in Hl. injection Hl as <-. cbn in Ht.
      rewrite decide_True by eauto.
      apply elem_of_difference. split; [|set_solver].
      apply (Ha r room t); set_solver.
    + rewrite lookup_insert_ne in Hl by done.
      rewrite decide_False by naive_solver. by apply (Ha r room' t).
  - rewrite decide_False by (intros [[? ?] _]; done). by apply (Ha r room' t).
Qed.

Lemma shrinks_in_binding st st' :
  shrinks (rooms st) (rooms st') → currentRoom st' = currentRoom st →
  in_binding st → in_binding st'.
Proof.
  intros Hs Hc Hb r room' t Hr Hl Ht.
  destruct (Hs _ _ Hl) as (room & Hl0 & Hsub & _).
  rewrite Hc. apply (Hb r room t); set_solver.
Qed.

Lemma shrinks_in_adapter_but x st st' :
  shrinks (rooms st) (rooms st') → adapter st' = adapter st →
  in_adapter_but x st → in_adapter_but x st'.
Proof.
  intros Hs Hc Hb r room' t Hr Hl Ht Hx.
  destruct (Hs _ _ Hl) as (room & Hl0 & Hsub & _).
  unfold members. rewrite Hc. apply (Hb r room t); set_solver.
Qed.

Lemma shrinks_free s st st' :
  shrinks (rooms st) (rooms st') → free s st → free s st'.
Proof.
  intros Hs Hf r room' Hr Hl Ht.
  destruct (Hs _ _ Hl) as (room & Hl0 & Hsub & _).
  apply (Hf r room); set_solver.
Qed.

Lemma in_binding_free s st :
  in_binding st →
  (∀ cur, currentRoom st !! s = Some (Some cur) → cur = EmptyString) →
  free s st.
Proof.
  intros Hb Hcur r room Hr Hl Ht.
  apply Hr, Hcur. by apply (Hb r room s).
Qed.

Lemma leaveRoom_free s cur st :
  in_binding st → currentRoom st !! s = Some (Some cur) →
  free s (leaveRoom s cur st).1.
Proof.
  intros Hb Hcur r room' Hr Hl Ht. rewrite leaveRoom_rooms in Hl.
  destruct (rooms st !! cur) as [room|] eqn:E.
  - destruct (decide (cur = r)) as [->|Hne].
    + rewrite lookup_insert_eq in Hl. injection Hl as <-. cbn in Ht. set_solver.
    + rewrite lookup_insert_ne in Hl by done.
      pose proof (Hb r room' s Hr Hl Ht) as Hc. congruence.
  - pose proof (Hb r room' s Hr Hl Ht) as Hc. congruence.
Qed.

Lemma leave_current_currentRoom s st :
  currentRoom (leave_current s st).1 = currentRoom st.
Proof.
  unfold leave_current. destruct (currentRoom st !! s) as [[cur|]|]; try done.
  case_decide; [done|apply leaveRoom_currentRoom].
Qed.

Lemma leave_current_post s st :
  in_adapter_but s st → in_binding st →
  in_adapter_but s (leave_current s st).1 ∧ in_binding (leave_current s st).1
  ∧ free s (leave_current s st).1.
Proof.
  intros Ha Hb. split; [|split].
  - unfold leave_current. destruct (currentRoom st !! s) as [[cur|]|]; try done.
    case_decide; [done|by apply leaveRoom_in_adapter_but].
  - apply (shrinks_in_binding st); [apply leave_current_shrinks| |done].
    apply leave_current_currentRoom.
  - unfold leave_current. destruct (currentRoom st !! s) as [[cur|]|] eqn:E;
      cbn [fst];
      try (apply in_binding_free; [done|intros ?; congruence]).
    case_decide; cbn [fst];
      [apply in_binding_free; [done|intros ?; congruence]|].
    by apply leaveRoom_free.
Qed.

Lemma connect_bound s st :
  currentRoom st !! s = None → bound_ok st → bound_ok (connect s st).
Proof.
  intros Hs Hb r room t Hr Hl Ht. cbn in Hl.
  destruct (Hb r room t Hr Hl Ht) as [Hm Hc].
  assert (t ≠ s) by (intros ->; congruence).
  split.
  - unfold connect. rewrite members_socket_join.
    case_decide; [subst r; apply elem_of_union; left|]; exact Hm.
  - cbn. by rewrite lookup_insert_ne.
Qed.

Lemma post_rooms_bound rnd st : bound_ok st → bound_ok (post_rooms rnd st).1.
Proof.
  intros Hb r room t Hr. rewrite post_rooms_rooms.
  destruct (decide ((post_rooms rnd st).2 = r)) as [->|Hne].
  - rewrite lookup_insert_eq. intros Hl. injection Hl as <-. cbn.
    intros Ht. by apply elem_of_empty in Ht.
  - rewrite lookup_insert_ne by done. apply (Hb r room t Hr).
Qed.

Lemma ensure_room_bound roomId st : bound_ok st → bound_ok (ensure_room roomId st).
Proof.
  intros Hb. unfold ensure_room. case_decide; [done|].
  intros r room t Hr. cbn. destruct (decide (roomId = r)) as [->|Hne].
  - rewrite lookup_insert_eq. intros Hl. injection Hl as <-. cbn.
    intros Ht. by apply elem_of_empty in Ht.
  - rewrite lookup_insert_ne by done. apply (Hb r room t Hr).
Qed.

Lemma enroll_rooms s roomId st :
  rooms (enroll s roomId st) =
  alter (λ r, mkRoom (participants r ∪ {[s]}) (createdAt r)) roomId (rooms st).
Proof. reflexivity. Qed.

Lemma enroll_currentRoom s roomId st :
  currentRoom (enroll s roomId st) = <[s := Some roomId]> (currentRoom st).
Proof. reflexivity. Qed.

Lemma enroll_members s roomId st r :
  members (enroll s roomId st) r =
  if decide (roomId = r) then members st roomId ∪ {[s]} else members st r.
Proof. unfold enroll. rewrite members_socket_join. reflexivity. Qed.

Lemma enroll_bound s roomId st :
  in_adapter_but s st → in_binding st → free s st → bound_ok (enroll s roomId st).
Proof.
  intros Ha Hb Hf r room' t Hr Hl Ht.
  rewrite enroll_rooms, lookup_alter in Hl.
  rewrite enroll_members, enroll_currentRoom.
  destruct (decide (roomId = r)) as [->|Hne].
  - destruct (rooms st !! r) as [room|] eqn:E; [|done].
    cbn in Hl. injection Hl as <-. cbn in Ht.
    destruct (decide (t = s)) as [->|Hts].
    + split; [apply elem_of_union; right; by apply elem_of_singleton|].
      by rewrite lookup_insert_eq.
    + apply elem_of_union in Ht as [Ht|Ht];
        [|apply elem_of_singleton in Ht; done].
      split; [apply elem_of_union; left; by apply (Ha r room t)|].
      rewrite lookup_insert_ne by done. by apply (Hb r room t).
  - assert (t ≠ s) by (intros ->; by apply (Hf r room')).
    split; [by apply (Ha r room' t)|].
    rewrite lookup_insert_ne by done. by apply (Hb r room' t).
Qed.

Lemma join_room_bound s roomId st : bound_ok st → bound_ok (join_room s roomId st).1.
Proof.
  intros Hb. apply (ensure_room_bound roomId) in Hb. unfold join_room.
  destruct (rooms (ensure_room roomId st) !! roomId) as [room|]; [|done].
  destruct (MAX_PARTICIPANTS <=? size (participants room))%nat; [done|].
  destruct (bound_ok_parts _ Hb) as [Ha Hc].
  destruct (leave_current_post s _ (Ha s) Hc) as (Ha1 & Hc1 & Hf1).
  destruct (leave_current s (ensure_room roomId st)) as [st1 out1].
  cbn [fst] in *. by apply enroll_bound.
Qed.

Lemma unbind_bound s st :
  in_adapter_but s st → in_binding st → free s st →
  ∀ c, (c = <[s := None]> (currentRoom st) ∨ c = delete s (currentRoom st)) →
  bound_ok (set_currentRoom c st).
Proof.
  intros Ha Hb Hf c Hc r room t Hr Hl Ht. cbn in Hl.
  assert (t ≠ s) by (intros ->; by apply (Hf r room)).
  split; [by apply (Ha r room t)|]. cbn.
  destruct Hc as [-> | ->];
    [rewrite lookup_insert_ne by done|rewrite lookup_delete_ne by done];
    by apply (Hb r room t).
Qed.

Lemma leave_room_bound s st : bound_ok st → bound_ok (leave_room s st).1.
Proof.
  intros Hb. unfold leave_room.
  destruct (currentRoom st !! s) as [[cur|]|] eqn:E; try done.
  case_decide; [done|].
  destruct (bound_ok_parts _ Hb) as [Ha Hc].
  pose proof (leaveRoom_in_adapter_but s cur st (Ha s)) as Ha1.
  pose proof (leaveRoom_free s cur st Hc E) as Hf1.
  pose proof (shrinks_in_binding st _ (leaveRoom_shrinks s cur st)
                (leaveRoom_currentRoom s cur st) Hc) as Hc1.
  destruct (leaveRoom s cur st) as [st1 out]. cbn [fst] in *.
  apply (unbind_bound s); auto.
Qed.

Lemma socket_leave_all_parts s st :
  bound_ok st →
  in_adapter_but s (socket_leave_all s st) ∧ in_binding (socket_leave_all s st).
Proof.
  intros Hb. destruct (bound_ok_parts _ Hb) as [Ha Hc]. split.
  - intros r room t Hr Hl Ht Hts. rewrite members_socket_leave_all.
    apply elem_of_difference. split; [by apply (Ha s r room t)|].
    intros Hin. by apply elem_of_singleton in Hin.
  - exact Hc.
Qed.

Lemma disconnect_bound s st : bound_ok st → bound_ok (disconnect s st).1.
Proof.
  intros Hb. unfold disconnect.
  destruct (socket_leave_all_parts s st Hb) as [Ha Hc].
  destruct (leave_current_post s _ Ha Hc) as (Ha1 & Hc1 & Hf1).
  destruct (leave_current s (socket_leave_all s st)) as [st1 out].
  cbn [fst] in *. apply (unbind_bound s); auto.
Qed.

Lemma shrinks_bound st st' :
  shrinks (rooms st) (rooms st') → adapter st' = adapter st →
  currentRoom st' = currentRoom st → bound_ok st → bound_ok st'.
Proof.
  intros Hs Ha Hc Hb r room' t Hr Hl Ht.
  destruct (Hs _ _ Hl) as (room & Hl0 & Hsub & _).
  unfold members. rewrite Ha, Hc. apply (Hb r room t); auto.
Qed.

Lemma step_bound e st st' out :
  bound_ok st → step e st = Some (st', out) → bound_ok st'.
Proof.
  intros Hb. destruct e as [s|rnd|s roomId|s|s|k| |dt]; cbn.
  - destruct (currentRoom st !! s) eqn:E; [done|]. step_inv. by apply connect_bound.
  - step_inv. by apply post_rooms_bound.
  - destruct (currentRoom st !! s); [|done]. step_inv. by apply join_room_bound.
  - destruct (currentRoom st !! s); [|done]. step_inv. by apply leave_room_bound.
  - destruct (currentRoom st !! s); [|done]. step_inv. by apply disconnect_bound.
  - destruct (timeouts st !! k) as [[due roomId]|]; [|done].
    case_decide; [|done]. step_inv.
    apply (shrinks_bound st); try done.
    + apply (cleanup_shrinks roomId (set_timeouts (delete k (timeouts st)) st)).
    + unfold cleanup. cbn. destruct (rooms st !! roomId); [case_decide|]; done.
    + unfold cleanup. cbn. destruct (rooms st !! roomId); [case_decide|]; done.
  - case_decide; [|done]. step_inv.
    apply (shrinks_bound st); try done. apply sweep_shrinks.
  - case_decide; [|done]. step_inv. exact Hb.
Qed.

Lemma init_bound t0 : bound_ok (init t0).
Proof. intros r room t _ Hl. cbn in Hl. by rewrite lookup_empty in Hl. Qed.

Lemma reachable_bound st : reachable st → bound_ok st.
Proof.
  apply reachable_invariant; [apply init_bound|].
  intros e st0 st' out. apply step_bound.
Qed.

(** *** Deliveries *)

Lemma inbox_app s o1 o2 : inbox s (o1 ++ o2) = inbox s o1 ++ inbox s o2.
Proof. unfold inbox. by rewrite filter_app, fmap_app. Qed.

Lemma received_app s msg o1 o2 :
  received s msg (o1 ++ o2) = (received s msg o1 + received s msg o2)%nat.
Proof. unfold received. by rewrite inbox_app, filter_app, length_app. Qed.

Lemma inbox_cons s t msg out :
  inbox s ((t, msg) :: out) = if decide (t = s) then msg :: inbox s out else inbox s out.
Proof.
  unfold inbox. rewrite filter_cons. cbn beta. cbn [fst].
  destruct (decide (t = s)); done.
Qed.

Lemma received_cons s t msg msg' out :
  received s msg ((t, msg') :: out) =
  if decide (t = s ∧ msg' = msg) then S (received s msg out) else received s msg out.
Proof.
  unfold received. rewrite inbox_cons.
  destruct (decide (t = s)) as [->|Hts].
  - rewrite filter_cons. destruct (decide (msg' = msg)) as [->|Hm].
    + rewrite decide_True by done. done.
    + rewrite decide_False by naive_solver. done.
  - rewrite decide_False by naive_solver. done.
Qed.

Lemma inbox_to_others s msg (L : list string) :
  s ∉ L → inbox s ((λ t, (t, msg)) <$> L) = [].
Proof.
  induction L as [|t L IH]; intros Hs; [done|].
  apply not_elem_of_cons in Hs as [Hne HL].
  rewrite fmap_cons, inbox_cons, decide_False by congruence. by apply IH.
Qed.

Lemma received_other_msg s msg msg' (L : list string) :
  msg' ≠ msg → received s msg ((λ t, (t, msg')) <$> L) = 0%nat.
Proof.
  intros Hne. induction L as [|t L IH]; [done|].
  rewrite fmap_cons, received_cons, decide_False by naive_solver. exact IH.
Qed.

Lemma received_absent s msg (L : list string) :
  s ∉ L → received s msg ((λ t, (t, msg)) <$> L) = 0%nat.
Proof. intros Hs. unfold received. by rewrite inbox_to_others. Qed.

Lemma received_once s msg (L : list string) :
  NoDup L → s ∈ L → received s msg ((λ t, (t, msg)) <$> L) = 1%nat.
Proof.
  induction L as [|t L IH]; intros Hnd Hs; [by apply elem_of_nil in Hs|].
  apply NoDup_cons in Hnd as [Ht Hnd].
  rewrite fmap_cons, received_cons.
  destruct (decide (t = s)) as [->|Hts].
  - rewrite decide_True by done. by rewrite received_absent.
  - rewrite decide_False by naive_solver.
    apply elem_of_cons in Hs as [->|Hs]; [done|]. by apply IH.
Qed.

Lemma received_broadcast m s room msg st :
  m ∈ members st room → m ≠ s → received m msg (broadcast s room msg st) = 1%nat.
Proof.
  intros Hm Hne. unfold broadcast. apply received_once; [apply NoDup_elements|].
  apply elem_of_elements, elem_of_difference. split; [done|].
  intros Hin. by apply elem_of_singleton in Hin.
Qed.

Lemma inbox_broadcast s room msg st : inbox s (broadcast s room msg st) = [].
Proof.
  unfold broadcast. apply inbox_to_others. intros Hin.
  apply elem_of_elements, elem_of_difference in Hin as [_ Hin].
  apply Hin. by apply elem_of_singleton.
Qed.

(** What leaving the previous room emits: [participant-left] messages, none
    of them to the socket that leaves. *)
Lemma leaveRoom_emits s r st :
  ∃ L : list string, (s ∉ L) ∧ (leaveRoom s r st).2 = (λ t, (t, participant_left s)) <$> L.
Proof.
  destruct (rooms st !! r) as [room|] eqn:E.
  - eexists. split; [|by apply (leaveRoom_out s r st room)].
    intros Hin. apply elem_of_elements, elem_of_difference in Hin as [_ Hin].
    apply Hin. by apply elem_of_singleton.
  - exists []. split; [apply not_elem_of_nil|]. by rewrite leaveRoom_absent.
Qed.

Lemma leave_current_emits s st :
  ∃ L : list string, (s ∉ L) ∧ (leave_current s st).2 = (λ t, (t, participant_left s)) <$> L.
Proof.
  unfold leave_current.
  destruct (currentRoom st !! s) as [[cur|]|];
    try (exists []; split; [apply not_elem_of_nil|done]).
  case_decide; [exists []; split; [apply not_elem_of_nil|done]|].
  apply leaveRoom_emits.
Qed.

Lemma leaveRoom_keeps s cur st r :
  is_Some (rooms st !! r) → is_Some (rooms (leaveRoom s cur st).1 !! r).
Proof.
  intros Hs. rewrite leaveRoom_rooms. destruct (rooms st !! cur) eqn:E; [|done].
  destruct (decide (cur = r)) as [->|Hne].
  - rewrite lookup_insert_eq. eauto.
  - by rewrite lookup_insert_ne.
Qed.

Lemma leave_current_keeps s st r :
  is_Some (rooms st !! r) → is_Some (rooms (leave_current s st).1 !! r).
Proof.
  intros Hs. unfold leave_current.
  destruct (currentRoom st !! s) as [[cur|]|]; try done.
  case_decide; [done|by apply leaveRoom_keeps].
Qed.

(** *** Who hears of a join and of a departure *)

Lemma join_notifies st s roomId st' out :
  bound_ok st → roomId ≠ EmptyString →
  (∀ room, rooms st !! roomId = Some room →
     (size (participants room) < MAX_PARTICIPANTS)%nat) →
  step (JoinRoom s roomId) st = Some (st', out) →
  ∃ room' l,
    rooms st' !! roomId = Some room' ∧ s ∈ participants room'
    ∧ inbox s out = [room_joined l] ∧ NoDup l
    ∧ (∀ x, x ∈ l ↔ x ∈ participants room' ∧ x ≠ s)
    ∧ (∀ m, m ∈ participants room' → m ≠ s →
         received m (participant_joined s) out = 1%nat).
Proof.
  intros Hb Hr Hroom Hst.
  pose proof (step_bound _ _ _ _ Hb Hst) as Hb'.
  cbn in Hst. destruct (currentRoom st !! s) as [c|]; [|done].
  revert Hb' Hst. unfold join_room.
  rewrite ensure_room_lookup.
  assert (size (participants (default (mkRoom ∅ (now st)) (rooms st !! roomId)))
          < MAX_PARTICIPANTS)%nat as Hlt.
  { destruct (rooms st !! roomId) as [room|] eqn:E; cbn; [by apply Hroom|].
    rewrite size_empty. unfold MAX_PARTICIPANTS. lia. }
  apply Nat.leb_gt in Hlt. rewrite Hlt. clear Hlt.
  pose proof (leave_current_keeps s (ensure_room roomId st) roomId) as Hk.
  rewrite ensure_room_lookup in Hk. specialize (Hk (ltac:(eauto))).
  destruct (leave_current_emits s (ensure_room roomId st)) as (L & HL & Hout1).
  destruct (leave_current s (ensure_room roomId st)) as [st1 out1].
  cbn [fst snd] in *. subst out1.
  destruct Hk as [room1 Hroom1]. intros Hb'. step_inv.
  set (st2 := enroll s roomId st1) in *.
  assert (rooms st2 !! roomId
          = Some (mkRoom (participants room1 ∪ {[s]}) (createdAt room1))) as Hl2.
  { subst st2. by rewrite enroll_rooms, lookup_alter, decide_True, Hroom1 by done. }
  eexists _, _. split; [exact Hl2|]. cbn [participants].
  split; [apply elem_of_union; right; by apply elem_of_singleton|].
  split; [|split; [|split]].
  - rewrite !inbox_app, inbox_to_others, inbox_broadcast by done.
    cbn [app]. rewrite inbox_cons, decide_True by done. reflexivity.
  - unfold existingParticipants. rewrite Hl2. cbn [participants].
    apply NoDup_filter, NoDup_elements.
  - intros x. unfold existingParticipants. rewrite Hl2. cbn [participants].
    rewrite list_elem_of_filter, elem_of_elements. tauto.
  - intros m Hm Hms. rewrite !received_app.
    rewrite received_other_msg by done.
    cbn [app]. rewrite received_cons, decide_False by naive_solver.
    rewrite received_broadcast; [done| |done].
    apply (Hb' roomId _ m Hr Hl2 Hm).
Qed.

Lemma leaveRoom_notifies st s roomId room' m :
  (∀ room t, rooms st !! roomId = Some room → t ∈ participants room → t ≠ s →
     t ∈ members st roomId) →
  rooms (leaveRoom s roomId st).1 !! roomId = Some room' →
  (s ∉ participants room')
  ∧ (m ∈ participants room' →
     received m (participant_left s) (leaveRoom s roomId st).2 = 1%nat).
Proof.
  intros Ha Hl. rewrite leaveRoom_rooms in Hl.
  destruct (rooms st !! roomId) as [room|] eqn:E; [|congruence].
  rewrite lookup_insert_eq in Hl. injection Hl as <-. cbn [participants].
  split.
  - intros Hin. apply elem_of_difference in Hin as [_ Hin].
    apply Hin. by apply elem_of_singleton.
  - intros Hm. apply elem_of_difference in Hm as [Hm Hms].
    assert (m ≠ s) as Hne by (intros ->; apply Hms; by apply elem_of_singleton).
    rewrite (leaveRoom_out s roomId st room E).
    apply received_once; [apply NoDup_elements|].
    apply elem_of_elements. rewrite !elem_of_difference.
    split; [split|]; [by apply (Ha room m)|done|done].
Qed.

Lemma leave_notifies st e s roomId st' out :
  bound_ok st →
  e = LeaveRoom s ∨ e = Disconnect s →
  currentRoom st !! s = Some (Some roomId) → roomId ≠ EmptyString →
  step e st = Some (st', out) →
  ∀ room', rooms st' !! roomId = Some room' →
    (s ∉ participants room')
    ∧ (∀ m, m ∈ participants room' → received m (participant_left s) out = 1%nat).
Proof.
  intros Hb He Hcur Hr Hst room' Hl.
  destruct (bound_ok_parts _ Hb) as [Ha _].
  destruct He as [-> | ->]; cbn in Hst; rewrite Hcur in Hst.
  - unfold leave_room in Hst. rewrite Hcur, decide_False in Hst by done.
    pose proof (leaveRoom_notifies st s roomId room') as Hn.
    destruct (leaveRoom s roomId st) as [st1 out1]. cbn [fst snd] in Hn.
    revert Hst. step_inv. cbn in Hl.
    split; [apply (Hn s)|intros m; apply (Hn m)]; try done;
      intros room t ? ? ?; by apply (Ha s roomId room t).
  - unfold disconnect, leave_current in Hst. cbn [currentRoom socket_leave_all set_adapter] in Hst.
    rewrite Hcur, decide_False in Hst by done.
    pose proof (leaveRoom_notifies (socket_leave_all s st) s roomId room') as Hn.
    destruct (leaveRoom s roomId (socket_leave_all s st)) as [st1 out1].
    cbn [fst snd] in Hn. revert Hst. step_inv. cbn in Hl.
    assert (∀ room t, rooms (socket_leave_all s st) !! roomId = Some room →
              t ∈ participants room → t ≠ s →
              t ∈ members (socket_leave_all s st) roomId) as Ha0.
    { intros room t Hroom Ht Hts. rewrite members_socket_leave_all.
      apply elem_of_difference. split; [by apply (Ha s roomId room t)|].
      intros Hin. by apply elem_of_singleton in Hin. }
    split; [apply (Hn s)|intros m; apply (Hn m)]; done.
Qed.

(** *** Cleanup *)

Lemma size_zero (X : gset string) : size X = 0%nat ↔ X = ∅.
Proof. rewrite size_empty_iff. apply leibniz_equiv_iff. Qed.

Lemma stale_spec t room :
  stale t room = true ↔ participants room = ∅ ∧ 3600000 < t - createdAt room.
Proof.
  unfold stale. rewrite andb_true_iff, bool_decide_eq_true, Z.ltb_lt, size_zero.
  reflexivity.
Qed.

Lemma cleanup_lookup roomId st r :
  rooms (cleanup roomId st) !! r =
  match rooms st !! r with
  | Some room =>
      if decide (r = roomId ∧ participants room = ∅) then None else Some room
  | None => None
  end.
Proof.
  unfold cleanup. destruct (rooms st !! roomId) as [room0|] eqn:E.
  - case_decide as Hsz.
    + apply size_zero in Hsz. cbn. destruct (decide (roomId = r)) as [<-|Hne].
      * rewrite lookup_delete_eq, E, decide_True by done. done.
      * rewrite lookup_delete_ne by done.
        destruct (rooms st !! r); [|done]. rewrite decide_False by naive_solver. done.
    + rewrite size_zero in Hsz. destruct (rooms st !! r) as [room|] eqn:Er; [|done].
      rewrite decide_False; [done|]. intros [-> Hem]. congruence.
  - destruct (rooms st !! r) as [room|] eqn:Er; [|done].
    rewrite decide_False; [done|]. intros [-> Hem]. congruence.
Qed.

Lemma sweep_lookup st r :
  rooms (sweep st) !! r =
  match rooms st !! r with
  | Some room => if stale (now st) room then None else Some room
  | None => None
  end.
Proof.
  cbn. rewrite map_lookup_filter. destruct (rooms st !! r) as [room|]; [|done].
  cbn. destruct (stale (now st) room) eqn:E.
  - rewrite option_guard_False by done. done.
  - rewrite option_guard_True by done. done.
Qed.

(** Only the two cleanup callbacks take rooms out of the registry. *)
Lemma join_room_keeps s roomId st r :
  is_Some (rooms st !! r) → is_Some (rooms (join_room s roomId st).1 !! r).
Proof.
  intros Hs.
  assert (is_Some (rooms (ensure_room roomId st) !! r)) as Hs0.
  { destruct (decide (r = roomId)) as [->|Hne];
      [rewrite ensure_room_lookup; eauto|by rewrite ensure_room_lookup_ne]. }
  unfold join_room.
  destruct (rooms (ensure_room roomId st) !! roomId) as [room|]; [|done].
  destruct (MAX_PARTICIPANTS <=? size (participants room))%nat; [done|].
  pose proof (leave_current_keeps s _ r Hs0) as Hs1.
  destruct (leave_current s (ensure_room roomId st)) as [st1 out1].
  cbn [fst] in *. rewrite enroll_rooms, lookup_alter.
  case_decide; [subst|done]. destruct Hs1 as [x ->]. cbn. eauto.
Qed.

Lemma step_keeps e st st' out r :
  is_cleanup e = false → step e st = Some (st', out) →
  is_Some (rooms st !! r) → is_Some (rooms st' !! r).
Proof.
  intros Hc Hst Hs. destruct e as [s|rnd|s roomId|s|s|k| |dt]; try done;
    unfold step in Hst.
  - destruct (currentRoom st !! s); [done|]. revert Hst. step_inv. exact Hs.
  - revert Hst. step_inv. rewrite post_rooms_rooms.
    destruct (decide ((post_rooms rnd st).2 = r)) as [->|Hne];
      [rewrite lookup_insert_eq; eauto|by rewrite lookup_insert_ne].
  - destruct (currentRoom st !! s); [|done]. revert Hst. step_inv.
    by apply join_room_keeps.
  - destruct (currentRoom st !! s) as [c|] eqn:E; [|done]. revert Hst. step_inv.
    unfold leave_room. rewrite E. destruct c as [cur|]; [|done].
    case_decide; [done|].
    pose proof (leaveRoom_keeps s cur st r Hs) as Hk.
    destruct (leaveRoom s cur st) as [st1 out1]. exact Hk.
  - destruct (currentRoom st !! s) as [c|] eqn:E; [|done]. revert Hst. step_inv.
    unfold disconnect.
    pose proof (leave_current_keeps s (socket_leave_all s st) r Hs) as Hk.
    destruct (leave_current s (socket_leave_all s st)) as [st1 out1]. exact Hk.
  - case_decide; [|done]. revert Hst. step_inv. exact Hs.
Qed.

Lemma exec_keeps evs st st' out r :
  forallb (λ e, negb (is_cleanup e)) evs = true →
  exec evs st = Some (st', out) →
  is_Some (rooms st !! r) → is_Some (rooms st' !! r).
Proof.
  revert st out. induction evs as [|e evs IH]; intros st out Hall Hex Hs.
  - cbn in Hex. injection Hex as <- _. exact Hs.
  - cbn in Hall. apply andb_true_iff in Hall as [He Hall].
    apply negb_true_iff in He.
    cbn in Hex. destruct (step e st) as [[st1 out1]|] eqn:Hst; [|done].
    destruct (exec evs st1) as [[st2 out2]|] eqn:Hevs; [|done].
    injection Hex as <- _. apply (IH st1 out2); [done|done|].
    by apply (step_keeps e st st1 out1).
Qed.

(** The last participant leaves: the room stays, empty, and one cleanup is
    scheduled five minutes ahead. *)
Lemma leaveRoom_last s roomId st room :
  rooms st !! roomId = Some room → participants room ∖ {[s]} = ∅ →
  rooms (leaveRoom s roomId st).1 !! roomId = Some (mkRoom ∅ (createdAt room))
  ∧ timeouts (leaveRoom s roomId st).1 = timeouts st ++ [(now st + 300000, roomId)]
  ∧ now (leaveRoom s roomId st).1 = now st.
Proof.
  intros Hl Hem. rewrite leaveRoom_rooms, Hl, lookup_insert_eq, Hem.
  split; [done|]. unfold leaveRoom. rewrite Hl. cbn [participants].
  rewrite Hem, decide_True by apply size_empty. done.
Qed.

Lemma last_leave st e s roomId room st' out :
  e = LeaveRoom s ∨ e = Disconnect s →
  currentRoom st !! s = Some (Some roomId) → roomId ≠ EmptyString →
  rooms st !! roomId = Some room → participants room ∖ {[s]} = ∅ →
  step e st = Some (st', out) →
  rooms st' !! roomId = Some (mkRoom ∅ (createdAt room))
  ∧ timeouts st' = timeouts st ++ [(now st + 300000, roomId)]
  ∧ now st' = now st.
Proof.
  intros He Hcur Hr Hl Hem Hst.
  destruct He as [-> | ->]; cbn in Hst; rewrite Hcur in Hst.
  - unfold leave_room in Hst. rewrite Hcur, decide_False in Hst by done.
    pose proof (leaveRoom_last s roomId st room Hl Hem) as Hn.
    destruct (leaveRoom s roomId st) as [st1 out1]. cbn [fst] in Hn.
    revert Hst. step_inv. exact Hn.
  - unfold disconnect, leave_current in Hst.
    cbn [currentRoom socket_leave_all set_adapter] in Hst.
    rewrite Hcur, decide_False in Hst by done.
    pose proof (leaveRoom_last s roomId (socket_leave_all s st) room Hl Hem) as Hn.
    destruct (leaveRoom s roomId (socket_leave_all s st)) as [st1 out1].
    cbn [fst] in Hn. revert Hst. step_inv. exact Hn.
Qed.

Lemma timeout_fires st k st' out :
  step (Timeout k) st = Some (st', out) →
  ∃ due roomId,
    timeouts st !! k = Some (due, roomId) ∧ due ≤ now st
    ∧ ∀ r, rooms st' !! r =
           match rooms st !! r with
           | Some room =>
               if decide (r = roomId ∧ participants room = ∅) then None else Some room
           | None => None
           end.
Proof.
  cbn. destruct (timeouts st !! k) as [[due roomId]|]; [|done].
  case_decide; [|done]. step_inv. exists due, roomId.
  split; [done|]. split; [done|]. intros r.
  apply (cleanup_lookup roomId (set_timeouts (delete k (timeouts st)) st) r).
Qed.

(** *** Room codes *)

Lemma pick_digit i : is_digit (pick i) = true.
Proof.
  unfold pick. pose proof (Nat.mod_upper_bound i (length alphabet)) as Hlt.
  cbn [length alphabet] in *. specialize (Hlt ltac:(lia)).
  destruct (i mod 10)%nat as [|n]; [reflexivity|].
  do 9 (destruct n as [|n]; [reflexivity|]). lia.
Qed.

Lemma generateRoomId_code r : is_code (generateRoomId r) = true.
Proof.
  destruct r as [[[a b] c] d]. unfold generateRoomId, is_code.
  by rewrite !pick_digit.
Qed.

Lemma draw_loop_code m rnd attempts left :
  is_code (draw_loop m rnd attempts left) = true.
Proof.
  revert attempts. induction left as [|left IH]; intros attempts; cbn.
  - apply generateRoomId_code.
  - case_decide; [apply IH|apply generateRoomId_code].
Qed.

Lemma post_rooms_code rnd st : is_code (post_rooms rnd st).2 = true.
Proof. apply draw_loop_code. Qed.

Lemma shrinks_codes st st' :
  shrinks (rooms st) (rooms st') → codes_ok st → codes_ok st'.
Proof.
  intros Hs Hc r [room' Hl]. destruct (Hs _ _ Hl) as (room & Hl0 & _).
  apply Hc. eauto.
Qed.

Lemma join_room_codes s roomId st :
  is_code roomId = true → codes_ok st → codes_ok (join_room s roomId st).1.
Proof.
  intros Hr Hc.
  assert (codes_ok (ensure_room roomId st)) as Hc0.
  { intros r Hs. destruct (decide (r = roomId)) as [->|Hne]; [done|].
    rewrite ensure_room_lookup_ne in Hs by done. by apply Hc. }
  unfold join_room.
  destruct (rooms (ensure_room roomId st) !! roomId) as [room|]; [|done].
  destruct (MAX_PARTICIPANTS <=? size (participants room))%nat; [done|].
  pose proof (leave_current_shrinks s (ensure_room roomId st)) as Hs1.
  destruct (leave_current s (ensure_room roomId st)) as [st1 out1].
  cbn [fst] in *. intros r. rewrite enroll_rooms, lookup_alter.
  case_decide; [by subst|]. intros Hs. by apply (shrinks_codes _ st1 Hs1 Hc0).
Qed.

Lemma step_codes e st st' out :
  (∀ s roomId, e = JoinRoom s roomId → is_code roomId = true) →
  codes_ok st → step e st = Some (st', out) → codes_ok st'.
Proof.
  intros He Hc Hst. pose proof (step_shrinks e st st' out Hst) as Hs.
  destruct e as [s|rnd|s roomId|s|s|k| |dt];
    try (by apply (shrinks_codes st)); unfold step in Hst.
  - revert Hst. step_inv. intros r. rewrite post_rooms_rooms.
    destruct (decide ((post_rooms rnd st).2 = r)) as [<-|Hne].
    + intros _. apply post_rooms_code.
    + rewrite lookup_insert_ne by done. apply Hc.
  - destruct (currentRoom st !! s); [|done]. revert Hst. step_inv.
    apply join_room_codes; [by apply (He s)|done].
Qed.

Lemma exec_codes evs st st' out :
  joins_codes_only evs → codes_ok st → exec evs st = Some (st', out) → codes_ok st'.
Proof.
  intros Hj Hc Hex.
  apply (exec_invariant codes_ok
           (λ e, ∀ s roomId, e = JoinRoom s roomId → is_code roomId = true))
    with evs st out; try done.
  - intros e st0 st1 out0 He Hc0 Hst. by apply (step_codes e st0 st1 out0).
  - intros e He s roomId ->. by apply (Hj s).
Qed.

Lemma init_codes t0 : codes_ok (init t0).
Proof. intros r [room Hl]. cbn in Hl. by rewrite lookup_empty in Hl. Qed.

Lemma after_reachable evs t0 :
  is_Some (exec evs (init t0)) → reachable (after evs t0).
Proof.
  intros [[st out] Hex]. exists t0, evs, out. unfold after. by rewrite Hex.
Qed.

(** *** The properties of the registry and of the gateway *)

(** C1.  In every reachable state no room has more than four participants:
    a created room starts with the empty set, and every turn of the event
    loop (join, leave, disconnect, cleanup and all others) leaves every room
    with at most four. *)
Theorem room_capacity st :
  reachable st →
  capacity_ok st
  ∧ (∀ rnd, rooms (post_rooms rnd st).1 !! (post_rooms rnd st).2
            = Some (mkRoom ∅ (now st)))
  ∧ (∀ e st' out, step e st = Some (st', out) → capacity_ok st').
Proof.
  intros Hr.
  assert (capacity_ok st) as Hc.
  { revert st Hr. apply reachable_invariant; [apply init_capacity|].
    intros e st0 st' out. apply step_capacity. }
  split; [exact Hc|]. split.
  - intros rnd. rewrite post_rooms_rooms. apply lookup_insert_eq.
  - intros e st' out. by apply step_capacity.
Qed.

Lemma room_capacity_witness :
  reachable sample_full
  ∧ capacity_ok sample_full
  ∧ (∀ rnd, rooms (post_rooms rnd sample_full).1 !! (post_rooms rnd sample_full).2
            = Some (mkRoom ∅ (now sample_full)))
  ∧ (∀ e st' out, step e sample_full = Some (st', out) → capacity_ok st').
Proof.
  assert (reachable sample_full) as Hr by (apply after_reachable; vm_compute; eauto).
  split; [exact Hr|]. exact (room_capacity sample_full Hr).
Defined.

(** C2.  When the room asked for has four participants, the join request is
    answered by one [room-full] to the requester and nothing else happens:
    the whole state (registry, bindings, socket.io rooms, timers) is as
    before and nobody else receives anything. *)
Theorem join_full_room st s roomId room :
  is_Some (currentRoom st !! s) →
  rooms st !! roomId = Some room →
  size (participants room) = 4%nat →
  step (JoinRoom s roomId) st = Some (st, [(s, room_full)]).
Proof.
  intros [cur Hcur] Hroom Hsize. cbn. rewrite Hcur.
  unfold join_room. rewrite (ensure_room_present _ _ _ Hroom), Hroom, Hsize.
  done.
Qed.

Lemma join_full_room_witness :
  currentRoom sample_full !! "e" = Some (Some "5678")
  ∧ step (JoinRoom "e" "1234") sample_full = Some (sample_full, [("e", room_full)]).
Proof.
  split; [vm_compute; reflexivity|].
  apply (join_full_room sample_full "e" "1234" (mkRoom {["a"; "b"; "c"; "d"]} 0)).
  - vm_compute. eauto.
  - vm_compute. reflexivity.
  - vm_compute. reflexivity.
Defined.

(** For a room whose code is not the empty string:
    a successful join delivers to the joiner exactly one message, a
    [room-joined] whose list is, without repetition, the other participants
    of the room, and delivers exactly one [participant-joined] with the
    joiner's id to each of those; when a socket bound to the room leaves or
    disconnects, it is taken out of the room and each participant that
    remains is delivered exactly one [participant-left] with its id. *)
Theorem notifications st :
  reachable st →
  (∀ s roomId st' out,
     roomId ≠ EmptyString →
     (∀ room, rooms st !! roomId = Some room →
        (size (participants room) < MAX_PARTICIPANTS)%nat) →
     step (JoinRoom s roomId) st = Some (st', out) →
     ∃ room' l,
       rooms st' !! roomId = Some room' ∧ s ∈ participants room'
       ∧ inbox s out = [room_joined l] ∧ NoDup l
       ∧ (∀ x, x ∈ l ↔ x ∈ participants room' ∧ x ≠ s)
       ∧ (∀ m, m ∈ participants room' → m ≠ s →
            received m (participant_joined s) out = 1%nat))
  ∧ (∀ e s roomId st' out,
       e = LeaveRoom s ∨ e = Disconnect s →
       currentRoom st !! s = Some (Some roomId) → roomId ≠ EmptyString →
       step e st = Some (st', out) →
       ∀ room', rooms st' !! roomId = Some room' →
         (s ∉ participants room')
         ∧ (∀ m, m ∈ participants room' →
              received m (participant_left s) out = 1%nat)).
Proof.
  intros Hr. apply reachable_bound in Hr. split.
  - intros s roomId st' out Hne Hroom Hst. by apply (join_notifies st).
  - intros e s roomId st' out He Hcur Hne Hst. by apply (leave_notifies st e).
Qed.

Lemma notifications_witness :
  reachable sample_pair
  ∧ (∃ room' l,
       rooms (join_room "c" "1234" sample_pair).1 !! "1234" = Some room'
       ∧ "c" ∈ participants room'
       ∧ inbox "c" (join_room "c" "1234" sample_pair).2 = [room_joined l]
       ∧ NoDup l
       ∧ (∀ x, x ∈ l ↔ x ∈ participants room' ∧ x ≠ "c")
       ∧ (∀ m, m ∈ participants room' → m ≠ "c" →
            received m (participant_joined "c")
                     (join_room "c" "1234" sample_pair).2 = 1%nat))
  ∧ (∀ room', rooms (leave_room "a" sample_pair).1 !! "1234" = Some room' →
       ("a" ∉ participants room')
       ∧ (∀ m, m ∈ participants room' →
            received m (participant_left "a") (leave_room "a" sample_pair).2 = 1%nat)).
Proof.
  assert (reachable sample_pair) as Hr by (apply after_reachable; vm_compute; eauto).
  split; [exact Hr|]. destruct (notifications sample_pair Hr) as [Hj Hl]. split.
  - apply (Hj "c" "1234"); [discriminate| |vm_compute; reflexivity].
    intros room Hroom. vm_compute in Hroom. injection Hroom as <-.
    vm_compute. lia.
  - apply (Hl (LeaveRoom "a") "a" "1234");
      [by left|vm_compute; reflexivity|discriminate|vm_compute; reflexivity].
Defined.

(** C5.  When a bound participant leaves or disconnects, every participant
    that remains in the room is to receive exactly one [participant-left]
    with its id.  With the empty string as room code, which [join-room]
    takes like any other, the test [if (currentRoom)] of the handlers
    fails: the socket that disconnects is never taken out of the room and
    the participant that remains receives no [participant-left]. *)
Lemma departure_unannounced :
  currentRoom sample_unnamed !! "b" = Some (Some EmptyString)
  ∧ (∃ room, rooms sample_unnamed !! EmptyString = Some room
             ∧ "a" ∈ participants room ∧ "b" ∈ participants room)
  ∧ ∃ st' out room',
      step (Disconnect "b") sample_unnamed = Some (st', out)
      ∧ rooms st' !! EmptyString = Some room'
      ∧ "a" ∈ participants room' ∧ "b" ∈ participants room'
      ∧ received "a" (participant_left "b") out = 0%nat.
Proof.
  split; [vm_compute; reflexivity|]. split.
  - exists (mkRoom {["a"; "b"]} 0). split; [vm_compute; reflexivity|].
    split; set_solver.
  - eexists _, _, (mkRoom {["a"; "b"]} 0).
    split; [vm_compute; reflexivity|]. split; [vm_compute; reflexivity|].
    split; [set_solver|]. split; [set_solver|reflexivity].
Qed.

(** *** The five minutes after the last departure *)

Lemma leaveRoom_time s r st :
  now (leaveRoom s r st).1 = now st
  ∧ ∀ x, x ∈ timeouts (leaveRoom s r st).1 →
         x ∈ timeouts st ∨ x.1 = now st + 300000.
Proof.
  unfold leaveRoom. destruct (rooms st !! r) as [room|]; [|by split; [|left]].
  case_decide; cbn; (split; [done|]); intros x Hx; [|by left].
  apply elem_of_app in Hx as [Hx|Hx]; [by left|].
  apply list_elem_of_singleton in Hx as ->. by right.
Qed.

Lemma leave_current_time s st :
  now (leave_current s st).1 = now st
  ∧ ∀ x, x ∈ timeouts (leave_current s st).1 →
         x ∈ timeouts st ∨ x.1 = now st + 300000.
Proof.
  unfold leave_current.
  destruct (currentRoom st !! s) as [[cur|]|]; try (by split; [|left]).
  case_decide; [by split; [|left]|apply leaveRoom_time].
Qed.

Lemma join_room_ok s roomId st :
  (∀ room, rooms st !! roomId = Some room →
     (size (participants room) < MAX_PARTICIPANTS)%nat) →
  join_room s roomId st =
  (enroll s roomId (leave_current s (ensure_room roomId st)).1,
   (leave_current s (ensure_room roomId st)).2
   ++ [(s, room_joined (existingParticipants s roomId
                          (enroll s roomId (leave_current s (ensure_room roomId st)).1)))]
   ++ broadcast s roomId (participant_joined s)
        (enroll s roomId (leave_current s (ensure_room roomId st)).1)).
Proof.
  intros Hroom. unfold join_room. rewrite ensure_room_lookup.
  assert (size (participants (default (mkRoom ∅ (now st)) (rooms st !! roomId)))
          < MAX_PARTICIPANTS)%nat as Hlt.
  { destruct (rooms st !! roomId) as [room|] eqn:E; cbn; [by apply Hroom|].
    rewrite size_empty. unfold MAX_PARTICIPANTS. lia. }
  apply Nat.leb_gt in Hlt. rewrite Hlt.
  destruct (leave_current s (ensure_room roomId st)) as [st1 out1]. done.
Qed.

Lemma join_room_time s r st :
  now (join_room s r st).1 = now st
  ∧ ∀ x, x ∈ timeouts (join_room s r st).1 →
         x ∈ timeouts st ∨ x.1 = now st + 300000.
Proof.
  unfold join_room.
  assert (now (ensure_room r st) = now st ∧ timeouts (ensure_room r st) = timeouts st)
    as [Hn Ht] by (unfold ensure_room; case_decide; done).
  destruct (rooms (ensure_room r st) !! r) as [room|];
    [|cbn [fst]; rewrite Hn, Ht; by split; [|left]].
  destruct (MAX_PARTICIPANTS <=? size (participants room))%nat;
    [cbn [fst]; rewrite Hn, Ht; by split; [|left]|].
  destruct (leave_current_time s (ensure_room r st)) as [Hn1 Ht1].
  destruct (leave_current s (ensure_room r st)) as [st1 out1]. cbn [fst] in *.
  change (now (enroll s r st1)) with (now st1).
  change (timeouts (enroll s r st1)) with (timeouts st1).
  split; [congruence|].
  intros x Hx. apply Ht1 in Hx. by rewrite Hn, Ht in Hx.
Qed.

Lemma step_now e st st' out : step e st = Some (st', out) → now st ≤ now st'.
Proof.
  destruct e as [s|rnd|s roomId|s|s|k| |dt]; unfold step.
  - destruct (currentRoom st !! s); [done|]. step_inv. done.
  - step_inv. done.
  - destruct (currentRoom st !! s); [|done]. step_inv.
    by rewrite (proj1 (join_room_time s roomId st)).
  - destruct (currentRoom st !! s) as [c|] eqn:E; [|done]. step_inv.
    unfold leave_room. rewrite E. destruct c as [cur|]; [|done].
    case_decide; [done|].
    pose proof (proj1 (leaveRoom_time s cur st)) as Hn.
    destruct (leaveRoom s cur st) as [st1 out1]. cbn [fst] in *. cbn. lia.
  - destruct (currentRoom st !! s) as [c|] eqn:E; [|done]. step_inv.
    unfold disconnect.
    pose proof (proj1 (leave_current_time s (socket_leave_all s st))) as Hn.
    destruct (leave_current s (socket_leave_all s st)) as [st1 out1].
    cbn [fst] in *. cbn in *. lia.
  - destruct (timeouts st !! k) as [[due roomId]|]; [|done].
    case_decide; [|done]. step_inv.
    unfold cleanup. cbn. destruct (rooms st !! roomId); [case_decide|]; done.
  - case_decide; [|done]. step_inv. done.
  - case_decide; [|done]. step_inv. cbn. lia.
Qed.

Lemma step_timeouts e st st' out x :
  step e st = Some (st', out) → x ∈ timeouts st' →
  x ∈ timeouts st ∨ x.1 = now st + 300000.
Proof.
  destruct e as [s|rnd|s roomId|s|s|k| |dt]; unfold step.
  - destruct (currentRoom st !! s); [done|]. step_inv. by left.
  - step_inv. by left.
  - destruct (currentRoom st !! s); [|done]. step_inv.
    apply (proj2 (join_room_time s roomId st)).
  - destruct (currentRoom st !! s) as [c|] eqn:E; [|done]. step_inv.
    unfold leave_room. rewrite E. destruct c as [cur|]; [|by left].
    case_decide; [by left|].
    pose proof (proj2 (leaveRoom_time s cur st) x) as Hx.
    destruct (leaveRoom s cur st) as [st1 out1]. exact Hx.
  - destruct (currentRoom st !! s) as [c|] eqn:E; [|done]. step_inv.
    unfold disconnect.
    pose proof (proj2 (leave_current_time s (socket_leave_all s st)) x) as Hx.
    destruct (leave_current s (socket_leave_all s st)) as [st1 out1]. exact Hx.
  - destruct (timeouts st !! k) as [[due roomId]|]; [|done].
    case_decide; [|done]. step_inv. intros Hx. left.
    assert (x ∈ delete k (timeouts st)) as Hx'.
    { revert Hx. unfold cleanup. cbn.
      destruct (rooms st !! roomId); [case_decide|]; done. }
    apply (elem_of_sublist _ _ _ Hx'), sublist_delete.
  - case_decide; [|done]. step_inv. by left.
  - case_decide; [|done]. step_inv. by left.
Qed.

Lemma join_room_created s roomId st r room :
  rooms st !! r = Some room →
  ∃ room', rooms (join_room s roomId st).1 !! r = Some room'
           ∧ createdAt room' = createdAt room.
Proof.
  intros Hl.
  assert (rooms (ensure_room roomId st) !! r = Some room) as Hl0.
  { destruct (decide (r = roomId)) as [->|Hne];
      [by rewrite ensure_room_lookup, Hl|by rewrite ensure_room_lookup_ne]. }
  unfold join_room.
  destruct (rooms (ensure_room roomId st) !! roomId) as [room0|]; [|by exists room].
  destruct (MAX_PARTICIPANTS <=? size (participants room0))%nat; [by exists room|].
  destruct (leave_current_keeps s (ensure_room roomId st) r) as [room1 Hl1]; [eauto|].
  destruct (leave_current_shrinks s (ensure_room roomId st) r room1 Hl1)
    as (room2 & Hl2 & _ & Hc).
  rewrite Hl0 in Hl2. injection Hl2 as <-.
  destruct (leave_current s (ensure_room roomId st)) as [st1 out1]. cbn [fst] in *.
  rewrite enroll_rooms, lookup_alter. case_decide as Heq.
  - subst r. rewrite Hl1. cbn. eexists. split; [reflexivity|]. done.
  - by exists room1.
Qed.

Lemma step_created e st st' out r room :
  is_cleanup e = false → step e st = Some (st', out) →
  rooms st !! r = Some room →
  ∃ room', rooms st' !! r = Some room'
           ∧ (createdAt room' = createdAt room ∨ createdAt room' = now st).
Proof.
  intros Hc Hst Hl.
  destruct (step_keeps e st st' out r Hc Hst) as [room' Hl']; [eauto|].
  exists room'. split; [done|].
  pose proof (step_shrinks e st st' out Hst) as Hs.
  destruct e as [s|rnd|s roomId|s|s|k| |dt]; try done;
    try (destruct (Hs r room' Hl') as (room0 & Hl0 & _ & Hc0); left; congruence).
  - revert Hst. unfold step. step_inv. rewrite post_rooms_rooms in Hl'.
    destruct (decide ((post_rooms rnd st).2 = r)) as [Heq|Hne].
    + rewrite Heq, lookup_insert_eq in Hl'. injection Hl' as <-. by right.
    + rewrite lookup_insert_ne in Hl' by done. left. congruence.
  - revert Hst. unfold step. destruct (currentRoom st !! s); [|done]. step_inv.
    destruct (join_room_created s roomId st r room Hl) as (room1 & Hl1 & Hc1).
    left. congruence.
Qed.

Lemma step_in_grace roomId T C e st st' out :
  (e = Sweep → T + 300000 ≤ C + 3600000) →
  in_grace roomId T C st → step e st = Some (st', out) → in_grace roomId T C st'.
Proof.
  intros Hok [HT HG] Hst. pose proof (step_now e st st' out Hst) as Hn.
  split; [lia|]. intros Hlt.
  destruct HG as [(room & Hl & Hc) Hdue]; [lia|].
  assert (∀ due, (due, roomId) ∈ timeouts st' → T + 300000 ≤ due) as Hdue'.
  { intros due Hin. destruct (step_timeouts e st st' out _ Hst Hin) as [Hold|Hnew].
    - by apply Hdue.
    - cbn in Hnew. lia. }
  split; [|exact Hdue'].
  destruct (is_cleanup e) eqn:Ec.
  - destruct e as [s|rnd|s r|s|s|k| |dt]; try discriminate Ec.
    + destruct (timeout_fires st k st' out Hst) as (due & r0 & Hk & Hd & Hrooms).
      exists room. split; [|done]. rewrite Hrooms, Hl.
      rewrite decide_False; [done|]. intros [<- _].
      apply list_elem_of_lookup_2 in Hk. specialize (Hdue due Hk). lia.
    + specialize (Hok eq_refl). revert Hst. unfold step.
      case_decide; [|done]. step_inv. exists room. split; [|done].
      change (rooms (set_nextSweep (nextSweep st + 1800000) (sweep st)))
        with (rooms (sweep st)).
      rewrite sweep_lookup, Hl.
      destruct (stale (now st) room) eqn:Es; [|done].
      apply stale_spec in Es as [_ Es]. lia.
  - destruct (step_created e st st' out roomId room Ec Hst Hl) as (room' & Hl' & [Hc'|Hc']).
    + exists room'. split; [done|]. lia.
    + exists room'. split; [done|]. lia.
Qed.

(** A socket that joins another room leaves the one it is in. *)
Lemma switch_last st s roomId r2 room st' out :
  currentRoom st !! s = Some (Some roomId) → roomId ≠ EmptyString → r2 ≠ roomId →
  (∀ room2, rooms st !! r2 = Some room2 →
     (size (participants room2) < MAX_PARTICIPANTS)%nat) →
  rooms st !! roomId = Some room → participants room ∖ {[s]} = ∅ →
  step (JoinRoom s r2) st = Some (st', out) →
  rooms st' !! roomId = Some (mkRoom ∅ (createdAt room))
  ∧ timeouts st' = timeouts st ++ [(now st + 300000, roomId)]
  ∧ now st' = now st.
Proof.
  intros Hcur Hne Hr2 Hfree Hl Hem. unfold step. rewrite Hcur. step_inv.
  rewrite (join_room_ok s r2 st Hfree). cbn [fst].
  assert (currentRoom (ensure_room r2 st) = currentRoom st
          ∧ timeouts (ensure_room r2 st) = timeouts st
          ∧ now (ensure_room r2 st) = now st) as (Hc0 & Ht0 & Hn0)
    by (unfold ensure_room; case_decide; done).
  assert (rooms (ensure_room r2 st) !! roomId = Some room) as Hl0
    by (by rewrite ensure_room_lookup_ne).
  unfold leave_current. rewrite Hc0, Hcur, decide_False by done.
  destruct (leaveRoom_last s roomId (ensure_room r2 st) room Hl0 Hem) as (H1 & H2 & H3).
  split; [|split].
  - rewrite enroll_rooms, lookup_alter_ne by done. exact H1.
  - change (timeouts (enroll s r2 (leaveRoom s roomId (ensure_room r2 st)).1))
      with (timeouts (leaveRoom s roomId (ensure_room r2 st)).1).
    by rewrite H2, Ht0, Hn0.
  - change (now (enroll s r2 (leaveRoom s roomId (ensure_room r2 st)).1))
      with (now (leaveRoom s roomId (ensure_room r2 st)).1).
    by rewrite H3, Hn0.
Qed.

Lemma last_departure st e s roomId room st' out :
  e = LeaveRoom s ∨ e = Disconnect s
  ∨ (∃ r2, e = JoinRoom s r2 ∧ r2 ≠ roomId
           ∧ ∀ room2, rooms st !! r2 = Some room2 →
               (size (participants room2) < MAX_PARTICIPANTS)%nat) →
  currentRoom st !! s = Some (Some roomId) → roomId ≠ EmptyString →
  rooms st !! roomId = Some room → participants room ∖ {[s]} = ∅ →
  step e st = Some (st', out) →
  rooms st' !! roomId = Some (mkRoom ∅ (createdAt room))
  ∧ timeouts st' = timeouts st ++ [(now st + 300000, roomId)]
  ∧ now st' = now st.
Proof.
  intros [He|[He|(r2 & -> & Hr2 & Hfree)]] Hcur Hne Hl Hem Hst.
  - apply (last_leave st e s roomId room st' out); auto.
  - apply (last_leave st e s roomId room st' out); auto.
  - by apply (switch_last st s roomId r2 room st' out).
Qed.

(** C6, as the code has it.  When the last participant of a room with a
    non-empty code leaves it, by [leave-room], by disconnecting or by
    joining another room, the room stays in the registry, empty, and a
    status query finds it; one cleanup is scheduled for five minutes later.
    The room is still in the registry at every moment before the five
    minutes are over, whatever happens in between, provided that no cleanup
    of the same room left pending by an earlier departure comes due before
    then and that, if the periodic sweep runs in between, the room was
    created less than 55 minutes before the departure; and at any later
    moment as long as neither a deferred cleanup nor the sweep has run.  A
    deferred cleanup of the room, when it runs, deletes the room exactly
    when the room is empty at that moment, touching no other room, so that
    a room that has a participant again is kept as it is. *)
Theorem deferred_cleanup st e s roomId room st1 out1 :
  e = LeaveRoom s ∨ e = Disconnect s
  ∨ (∃ r2, e = JoinRoom s r2 ∧ r2 ≠ roomId
           ∧ ∀ room2, rooms st !! r2 = Some room2 →
               (size (participants room2) < MAX_PARTICIPANTS)%nat) →
  currentRoom st !! s = Some (Some roomId) → roomId ≠ EmptyString →
  rooms st !! roomId = Some room → participants room ∖ {[s]} = ∅ →
  step e st = Some (st1, out1) →
  rooms st1 !! roomId = Some (mkRoom ∅ (createdAt room))
  ∧ get_room roomId st1 = Some (mkStatus roomId 0 MAX_PARTICIPANTS false)
  ∧ timeouts st1 = timeouts st ++ [(now st + 300000, roomId)]
  ∧ (∀ evs st2 out2,
       (∀ due, (due, roomId) ∈ timeouts st → now st + 300000 ≤ due) →
       (Sweep ∈ evs → now st + 300000 ≤ createdAt room + 3600000) →
       exec evs st1 = Some (st2, out2) → now st2 < now st + 300000 →
       is_Some (rooms st2 !! roomId) ∧ is_Some (get_room roomId st2))
  ∧ (∀ evs st2 out2,
       forallb (λ e, negb (is_cleanup e)) evs = true →
       exec evs st1 = Some (st2, out2) → is_Some (rooms st2 !! roomId))
  ∧ (∀ st2 k due st3 out3,
       timeouts st2 !! k = Some (due, roomId) →
       step (Timeout k) st2 = Some (st3, out3) →
       due ≤ now st2
       ∧ (rooms st3 !! roomId = None ↔
          ∀ room2, rooms st2 !! roomId = Some room2 → participants room2 = ∅)
       ∧ (∀ room2, rooms st2 !! roomId = Some room2 → participants room2 ≠ ∅ →
            rooms st3 !! roomId = Some room2)
       ∧ (∀ r, r ≠ roomId → rooms st3 !! r = rooms st2 !! r)).
Proof.
  intros He Hcur Hne Hroom Hlast Hst.
  destruct (last_departure st e s roomId room st1 out1 He Hcur Hne Hroom Hlast Hst)
    as (Hl1 & Ht1 & Hn1).
  split; [exact Hl1|]. split.
  { unfold get_room. rewrite Hl1. cbn [participants]. by rewrite size_empty. }
  split; [exact Ht1|]. split; [|split].
  - intros evs st2 out2 Hold Hyoung Hex Hlt.
    assert (in_grace roomId (now st) (createdAt room) st2) as [_ HG].
    { apply (exec_invariant (in_grace roomId (now st) (createdAt room))
               (λ e, e = Sweep → now st + 300000 ≤ createdAt room + 3600000))
        with evs st1 out2; [| | |exact Hex].
      - intros e0 sta stb out0. apply step_in_grace.
      - intros e0 Hin ->. by apply Hyoung.
      - split; [lia|]. intros _. split.
        + exists (mkRoom ∅ (createdAt room)). split; [done|]. cbn. lia.
        + intros due Hin. rewrite Ht1 in Hin.
          apply elem_of_app in Hin as [Hin|Hin]; [by apply Hold|].
          apply list_elem_of_singleton in Hin. injection Hin as ->. lia. }
    destruct (HG Hlt) as [(room2 & Hl2 & _) _].
    split; [eauto|]. unfold get_room. rewrite Hl2. eauto.
  - intros evs st2 out2 Hall Hex. apply (exec_keeps evs st1 st2 out2); eauto.
  - intros st2 k due st3 out3 Hk Hfire.
    destruct (timeout_fires st2 k st3 out3 Hfire) as (due' & r' & Hk' & Hdue & Hrooms).
    rewrite Hk in Hk'. injection Hk' as <- <-.
    split; [exact Hdue|]. split; [|split].
    + rewrite Hrooms. destruct (rooms st2 !! roomId) as [room2|]; [|done].
      case_decide as Hd.
      * destruct Hd as [_ Hd]. split; [|done]. intros _ room2' Heq.
        by injection Heq as <-.
      * split; [done|]. intros Hall. destruct Hd. split; [done|]. by apply Hall.
    + intros room2 Hr2 Hocc. rewrite Hrooms, Hr2. rewrite decide_False; [done|].
      intros [_ Hem]. done.
    + intros r Hr. rewrite Hrooms. destruct (rooms st2 !! r) as [room2|]; [|done].
      rewrite decide_False; [done|]. intros [Heq _]. done.
Qed.

Lemma deferred_cleanup_witness :
  currentRoom sample_single !! "a" = Some (Some "1234")
  ∧ rooms sample_single !! "1234" = Some (mkRoom {["a"]} 0)
  ∧ rooms (leave_room "a" sample_single).1 !! "1234" = Some (mkRoom ∅ 0)
  ∧ get_room "1234" (leave_room "a" sample_single).1
    = Some (mkStatus "1234" 0 MAX_PARTICIPANTS false)
  ∧ timeouts (leave_room "a" sample_single).1 = [(300000, "1234")]
  ∧ (∀ st2 out2,
       exec [Advance 100000; PostRooms (λ _, (5, 6, 7, 8)%nat); Advance 199999]
            (leave_room "a" sample_single).1 = Some (st2, out2) →
       is_Some (rooms st2 !! "1234") ∧ is_Some (get_room "1234" st2)).
Proof.
  split; [vm_compute; reflexivity|]. split; [vm_compute; reflexivity|].
  destruct (deferred_cleanup sample_single (LeaveRoom "a") "a" "1234"
              (mkRoom {["a"]} 0) (leave_room "a" sample_single).1
              (leave_room "a" sample_single).2) as (H1 & H2 & H3 & H4 & _).
  - by left.
  - vm_compute. reflexivity.
  - discriminate.
  - vm_compute. reflexivity.
  - vm_compute. reflexivity.
  - vm_compute. reflexivity.
  - split; [exact H1|]. split; [exact H2|]. split; [exact H3|].
    intros st2 out2 Hex.
    apply (H4 [Advance 100000; PostRooms (λ _, (5, 6, 7, 8)%nat); Advance 199999]
              st2 out2); [| |exact Hex|].
    + intros due Hin. vm_compute in Hin. by apply elem_of_nil in Hin.
    + intros Hin. repeat (apply elem_of_cons in Hin as [Hin|Hin]; [discriminate Hin|]).
      by apply elem_of_nil in Hin.
    + vm_compute in Hex. injection Hex as <- _. vm_compute. reflexivity.
Defined.

(** A cleanup scheduled by an earlier departure is still pending when the
    room is joined and left again, and deletes the room ten seconds after
    the last participant left. *)
Lemma grace_period_cut_short :
  ∃ st_left st_fired out1 out2,
    exec [Connect "a"; JoinRoom "a" "1234"; LeaveRoom "a"; Advance 200000;
          JoinRoom "a" "1234"; Advance 90000; LeaveRoom "a"] (init 0)
    = Some (st_left, out1)
    ∧ now st_left = 290000
    ∧ rooms st_left !! "1234" = Some (mkRoom ∅ 0)
    ∧ timeouts st_left = [(300000, "1234"); (590000, "1234")]
    ∧ exec [Advance 10000; Timeout 0] st_left = Some (st_fired, out2)
    ∧ now st_fired = 300000
    ∧ now st_fired < now st_left + 300000
    ∧ get_room "1234" st_fired = None.
Proof.
  eexists _, _, _, _. split; [vm_compute; reflexivity|].
  split; [reflexivity|]. split; [vm_compute; reflexivity|].
  split; [reflexivity|]. split; [vm_compute; reflexivity|].
  split; [reflexivity|]. split; [reflexivity|]. vm_compute. reflexivity.
Qed.

(** C7, as the code has it.  A run of the periodic sweep deletes exactly the
    rooms that are empty and were created more than an hour before the run,
    and leaves every other room as it is. *)
Theorem sweep_deletes st st' out :
  step Sweep st = Some (st', out) →
  nextSweep st ≤ now st
  ∧ (∀ r, rooms st' !! r = None ↔
          rooms st !! r = None
          ∨ ∃ room, rooms st !! r = Some room ∧ participants room = ∅
                    ∧ 3600000 < now st - createdAt room)
  ∧ (∀ r room', rooms st' !! r = Some room' → rooms st !! r = Some room').
Proof.
  cbn. case_decide as Hdue; [|done]. step_inv. split; [exact Hdue|].
  assert (∀ r, rooms (set_nextSweep (nextSweep st + 1800000) (sweep st)) !! r
               = rooms (sweep st) !! r) as Heq by done.
  split.
  - intros r. rewrite Heq, sweep_lookup.
    destruct (rooms st !! r) as [room|]; [|naive_solver].
    destruct (stale (now st) room) eqn:Hs.
    + apply stale_spec in Hs. naive_solver.
    + split; [done|]. intros [?|(room0 & Hroom0 & Hst)]; [done|].
      injection Hroom0 as <-. apply stale_spec in Hst. congruence.
  - intros r room'. rewrite Heq, sweep_lookup.
    destruct (rooms st !! r) as [room|]; [|done].
    destruct (stale (now st) room); done.
Qed.

Lemma sweep_deletes_witness :
  (∃ st' out, step Sweep sample_due = Some (st', out))
  ∧ nextSweep sample_due ≤ now sample_due
  ∧ (∀ r, rooms (sweep sample_due) !! r = None ↔
          rooms sample_due !! r = None
          ∨ ∃ room, rooms sample_due !! r = Some room ∧ participants room = ∅
                    ∧ 3600000 < now sample_due - createdAt room).
Proof.
  split; [eexists _, _; vm_compute; reflexivity|].
  destruct (sweep_deletes sample_due
              (set_nextSweep (nextSweep sample_due + 1800000) (sweep sample_due)) [])
    as (H1 & H2 & _).
  - vm_compute. reflexivity.
  - split; [exact H1|exact H2].
Defined.

(** A room created two hours ago and occupied until one second ago is
    deleted by the sweep. *)
Lemma just_emptied_room_swept :
  (∃ room, rooms sample_old !! "1234" = Some room ∧ "a" ∈ participants room)
  ∧ now sample_old = 7199000
  ∧ ∃ st_swept out,
      exec [LeaveRoom "a"; Advance 1000; Sweep] sample_old = Some (st_swept, out)
      ∧ now st_swept = 7200000
      ∧ rooms st_swept !! "1234" = None.
Proof.
  split.
  { exists (mkRoom {["a"]} 0). split; [vm_compute; reflexivity|set_solver]. }
  split; [reflexivity|]. eexists _, _.
  split; [vm_compute; reflexivity|]. split; [reflexivity|]. vm_compute. reflexivity.
Qed.

(** C8, as the code has it.  The code of a room made by [POST /api/rooms] is
    a string of four decimal digits; [join-room] keys the room it creates
    with whatever identifier the client sent, so every key of the registry
    is such a code as long as every join request carried one. *)
Theorem registry_codes t0 evs st out :
  joins_codes_only evs →
  exec evs (init t0) = Some (st, out) →
  codes_ok st ∧ (∀ rnd, is_code (post_rooms rnd st).2 = true).
Proof.
  intros Hj Hex. split.
  - apply (exec_codes evs (init t0) st out); [done|apply init_codes|done].
  - intros rnd. apply post_rooms_code.
Qed.

Lemma registry_codes_witness :
  joins_codes_only [Connect "a"; PostRooms (λ _, (4, 0, 4, 2)%nat); JoinRoom "a" "1234"]
  ∧ codes_ok (after [Connect "a"; PostRooms (λ _, (4, 0, 4, 2)%nat);
                     JoinRoom "a" "1234"] 0)
  ∧ is_Some (rooms (after [Connect "a"; PostRooms (λ _, (4, 0, 4, 2)%nat);
                           JoinRoom "a" "1234"] 0) !! "4042").
Proof.
  assert (joins_codes_only
            [Connect "a"; PostRooms (λ _, (4, 0, 4, 2)%nat); JoinRoom "a" "1234"])
    as Hj.
  { intros s roomId Hin.
    repeat (apply elem_of_cons in Hin as [Heq|Hin];
            [try discriminate Heq; injection Heq as -> ->; reflexivity|]).
    by apply elem_of_nil in Hin. }
  split; [exact Hj|]. split; [|vm_compute; eauto].
  eapply (registry_codes 0 _ _ _ Hj). vm_compute. reflexivity.
Defined.

(** A join request with any other identifier puts it into the registry. *)
Lemma registry_key_not_a_code :
  ∃ st out,
    exec [Connect "a"; JoinRoom "a" "lobby"] (init 0) = Some (st, out)
    ∧ is_Some (rooms st !! "lobby") ∧ is_code "lobby" = false
    ∧ ¬ codes_ok st.
Proof.
  eexists _, _. split; [vm_compute; reflexivity|].
  split; [vm_compute; eauto|]. split; [reflexivity|].
  intros Hc. specialize (Hc "lobby"). cbn in Hc.
  assert (is_code "lobby" = true) as Hf by (apply Hc; vm_compute; eauto).
  discriminate Hf.
Qed.

(** C10.  [POST /api/rooms] always writes a fresh empty room under the code
    it returns and changes no binding; and there is a reachable state in
    which each of the twenty draws meets an existing room, so that the
    request replaces an occupied room by an empty one while the binding of
    its participant still names the code. *)
Theorem create_overwrites :
  (∀ rnd st,
     rooms (post_rooms rnd st).1 !! (post_rooms rnd st).2 = Some (mkRoom ∅ (now st))
     ∧ currentRoom (post_rooms rnd st).1 = currentRoom st
     ∧ adapter (post_rooms rnd st).1 = adapter st
     ∧ (∀ r, r ≠ (post_rooms rnd st).2 →
          rooms (post_rooms rnd st).1 !! r = rooms st !! r))
  ∧ (∃ st rnd s room,
       reachable st
       ∧ (∀ k, (k < 20)%nat → is_Some (rooms st !! generateRoomId (rnd k)))
       ∧ rooms st !! (post_rooms rnd st).2 = Some room
       ∧ s ∈ participants room
       ∧ rooms (post_rooms rnd st).1 !! (post_rooms rnd st).2
         = Some (mkRoom ∅ (now st))
       ∧ currentRoom (post_rooms rnd st).1 !! s = Some (Some (post_rooms rnd st).2)).
Proof.
  split.
  - intros rnd st. split; [rewrite post_rooms_rooms; apply lookup_insert_eq|].
    split; [done|]. split; [done|]. intros r Hr.
    rewrite post_rooms_rooms. by rewrite lookup_insert_ne.
  - exists sample_single, (λ _, (1, 2, 3, 4)%nat), "a", (mkRoom {["a"]} 0).
    split; [apply after_reachable; vm_compute; eauto|].
    split; [intros k _; vm_compute; eauto|].
    split; [vm_compute; reflexivity|]. split; [set_solver|].
    split; vm_compute; reflexivity.
Qed.

(** *** Further properties of the registry and of the gateway *)

(** *** One room at a time *)

(** X1.  A participant of a room with a non-empty code is a connected socket
    bound to that room, sits in the socket.io room of that name, and is a
    participant of no other room with a non-empty code. *)
Theorem one_room_at_a_time st s r room :
  reachable st → r ≠ EmptyString →
  rooms st !! r = Some room → s ∈ participants room →
  currentRoom st !! s = Some (Some r)
  ∧ s ∈ members st r
  ∧ (∀ r' room', r' ≠ EmptyString → rooms st !! r' = Some room' →
       s ∈ participants room' → r' = r).
Proof.
  intros Hr Hne Hl Hs. apply reachable_bound in Hr.
  destruct (Hr r room s Hne Hl Hs) as [Hm Hc]. split; [done|]. split; [done|].
  intros r' room' Hne' Hl' Hs'. destruct (Hr r' room' s Hne' Hl' Hs') as [_ Hc'].
  congruence.
Qed.

Lemma one_room_at_a_time_witness :
  reachable sample_pair
  ∧ currentRoom sample_pair !! "a" = Some (Some "1234")
  ∧ "a" ∈ members sample_pair "1234"
  ∧ (∀ r' room', r' ≠ EmptyString → rooms sample_pair !! r' = Some room' →
       "a" ∈ participants room' → r' = "1234").
Proof.
  assert (reachable sample_pair) as Hr by (apply after_reachable; vm_compute; eauto).
  split; [exact Hr|].
  apply (one_room_at_a_time sample_pair "a" "1234" (mkRoom {["a"; "b"]} 0) Hr).
  - discriminate.
  - vm_compute. reflexivity.
  - set_solver.
Defined.

(** *** Creation *)

Lemma draw_loop_first_free m rnd attempts left k :
  (attempts ≤ k ≤ attempts + left)%nat →
  m !! generateRoomId (rnd k) = None →
  ∃ j, (attempts ≤ j ≤ k)%nat
       ∧ draw_loop m rnd attempts left = generateRoomId (rnd j)
       ∧ m !! generateRoomId (rnd j) = None
       ∧ ∀ i, (attempts ≤ i < j)%nat → is_Some (m !! generateRoomId (rnd i)).
Proof.
  revert attempts. induction left as [|left IH]; intros attempts Hk Hfree.
  - assert (k = attempts) as -> by lia. exists attempts. cbn.
    split; [lia|]. split; [done|]. split; [done|]. intros i Hi. lia.
  - cbn [draw_loop]. case_decide as Hs.
    + assert (k ≠ attempts) as Hne.
      { intros ->. rewrite Hfree in Hs. by destruct Hs. }
      destruct (IH (S attempts)) as (j & Hj & Heq & Hjfree & Hbefore); [lia|done|].
      exists j. split; [lia|]. split; [done|]. split; [done|].
      intros i Hi. destruct (decide (i = attempts)) as [->|Hia]; [done|].
      apply Hbefore. lia.
    + exists attempts. split; [lia|]. split; [done|]. split.
      * destruct (m !! generateRoomId (rnd attempts)) eqn:E; [|done].
        destruct Hs. eauto.
      * intros i Hi. lia.
Qed.

(** X2.  When one of the twenty draws of [POST /api/rooms] meets no room, the
    code returned is the first such draw, it was not in the registry, and
    every room that was in the registry is still there, unchanged. *)
Theorem create_fresh rnd st k :
  (k < 20)%nat → rooms st !! generateRoomId (rnd k) = None →
  rooms st !! (post_rooms rnd st).2 = None
  ∧ (∀ r room, rooms st !! r = Some room →
       rooms (post_rooms rnd st).1 !! r = Some room)
  ∧ (∃ j, (j ≤ k)%nat ∧ (post_rooms rnd st).2 = generateRoomId (rnd j)
          ∧ ∀ i, (i < j)%nat → is_Some (rooms st !! generateRoomId (rnd i))).
Proof.
  intros Hk Hfree.
  destruct (draw_loop_first_free (rooms st) rnd 0 19 k) as (j & Hj & Heq & Hjfree & Hbefore);
    [lia|done|].
  change (draw_loop (rooms st) rnd 0 19) with (post_rooms rnd st).2 in Heq.
  split; [by rewrite Heq|]. split.
  - intros r room Hl. rewrite post_rooms_rooms.
    rewrite lookup_insert_ne; [done|]. intros Hr. rewrite Hr, Heq in *. congruence.
  - exists j. split; [lia|]. split; [done|]. intros i Hi. apply Hbefore. lia.
Qed.

Lemma create_fresh_witness :
  rooms sample_single !! generateRoomId (4, 0, 4, 2)%nat = None
  ∧ rooms sample_single
      !! (post_rooms (λ k, if (k <? 3)%nat then (1, 2, 3, 4)%nat else (4, 0, 4, 2)%nat)
                     sample_single).2 = None
  ∧ (post_rooms (λ k, if (k <? 3)%nat then (1, 2, 3, 4)%nat else (4, 0, 4, 2)%nat)
                sample_single).2 = "4042".
Proof.
  split; [vm_compute; reflexivity|]. split; [|vm_compute; reflexivity].
  apply (create_fresh (λ k, if (k <? 3)%nat then (1, 2, 3, 4)%nat else (4, 0, 4, 2)%nat)
                      sample_single 3); [lia|vm_compute; reflexivity].
Defined.

(** X3.  Right after [POST /api/rooms] the status of the code returned is
    zero participants of four, not full; the code is four digits; and a join
    request for it is not refused as full. *)
Theorem create_then_status rnd st :
  get_room (post_rooms rnd st).2 (post_rooms rnd st).1
  = Some (mkStatus (post_rooms rnd st).2 0 4 false)
  ∧ is_code (post_rooms rnd st).2 = true
  ∧ (∀ s, is_Some (currentRoom st !! s) →
       step (JoinRoom s (post_rooms rnd st).2) (post_rooms rnd st).1
       ≠ Some ((post_rooms rnd st).1, [(s, room_full)])).
Proof.
  assert (rooms (post_rooms rnd st).1 !! (post_rooms rnd st).2
          = Some (mkRoom ∅ (now st))) as Hl
    by (rewrite post_rooms_rooms; apply lookup_insert_eq).
  split; [|split].
  - unfold get_room. rewrite Hl. cbn [participants]. by rewrite size_empty.
  - apply post_rooms_code.
  - intros s [c Hc]. unfold step.
    change (currentRoom (post_rooms rnd st).1) with (currentRoom st). rewrite Hc.
    unfold join_room. rewrite (ensure_room_present _ _ _ Hl), Hl.
    cbn [participants]. rewrite size_empty.
    change (MAX_PARTICIPANTS <=? 0)%nat with false.
    destruct (leave_current_emits s (post_rooms rnd st).1) as (L & HL & Hout).
    destruct (leave_current s (post_rooms rnd st).1) as [st1 out1].
    cbn [snd] in Hout. subst out1. intros Heq.
    apply (inj Some) in Heq. apply (f_equal snd) in Heq. cbn [snd] in Heq.
    destruct L as [|t L]; discriminate Heq.
Qed.
(** *** The status query and the join it announces *)

Lemma join_room_not_refused s roomId st :
  (∀ room, rooms st !! roomId = Some room →
     (size (participants room) < MAX_PARTICIPANTS)%nat) →
  (join_room s roomId st).2 ≠ [(s, room_full)].
Proof.
  intros Hroom. rewrite (join_room_ok s roomId st Hroom). cbn [snd].
  destruct (leave_current_emits s (ensure_room roomId st)) as (L & HL & ->).
  destruct L as [|t L]; discriminate.
Qed.

(** X4.  [GET /api/rooms/:id] answers 404 exactly for the ids without a
    room; otherwise it reports the id, the size of the room and the capacity
    four, and it reports the room as full exactly when a join request of a
    connected socket for it is answered by [room-full] with nothing
    changed. *)
Theorem status_predicts_join st s r :
  is_Some (currentRoom st !! s) →
  (get_room r st = None ↔ rooms st !! r = None)
  ∧ (∀ status, get_room r st = Some status →
       st_roomId status = r ∧ st_maxParticipants status = 4%nat
       ∧ (∃ room, rooms st !! r = Some room
                  ∧ st_participants status = size (participants room))
       ∧ (st_isFull status = true ↔
          step (JoinRoom s r) st = Some (st, [(s, room_full)]))).
Proof.
  intros [c Hc]. unfold get_room. split.
  - destruct (rooms st !! r); split; done.
  - intros status. destruct (rooms st !! r) as [room|] eqn:E; [|done].
    intros Hs. injection Hs as <-.
    cbn [st_roomId st_maxParticipants st_participants st_isFull].
    split; [done|]. split; [done|]. split; [by exists room|].
    unfold step. rewrite Hc. split.
    + intros Hfull. unfold join_room.
      rewrite (ensure_room_present _ _ _ E), E.
      replace (MAX_PARTICIPANTS <=? size (participants room))%nat with true
        by (symmetry; exact Hfull).
      done.
    + intros Hj.
      destruct (MAX_PARTICIPANTS <=? size (participants room))%nat eqn:Hfull; [done|].
      apply Nat.leb_gt in Hfull. exfalso.
      apply (join_room_not_refused s r st).
      * intros room0 Hroom0. rewrite E in Hroom0. by injection Hroom0 as <-.
      * apply (inj Some) in Hj. by rewrite Hj.
Qed.

Lemma status_predicts_join_witness :
  is_Some (currentRoom sample_full !! "e")
  ∧ get_room "1234" sample_full = Some (mkStatus "1234" 4 4 true)
  ∧ step (JoinRoom "e" "1234") sample_full = Some (sample_full, [("e", room_full)])
  ∧ (get_room "9999" sample_full = None ↔ rooms sample_full !! "9999" = None).
Proof.
  assert (is_Some (currentRoom sample_full !! "e")) as Hc by (vm_compute; eauto).
  destruct (status_predicts_join sample_full "e" "1234" Hc) as [_ Hs].
  destruct (status_predicts_join sample_full "e" "9999" Hc) as [Hn _].
  assert (get_room "1234" sample_full = Some (mkStatus "1234" 4 4 true)) as Hg
    by (vm_compute; reflexivity).
  split; [exact Hc|]. split; [exact Hg|]. split; [|exact Hn].
  apply (Hs _ Hg). reflexivity.
Defined.

(** *** Switching rooms *)

(** X5.  A socket bound to one room that joins another room successfully is
    bound to the new room and is taken out of the old one, and every
    participant that remains in the old room is delivered exactly one
    [participant-left] with the id of the socket. *)
Theorem room_switch st s r1 r2 st' out :
  reachable st →
  currentRoom st !! s = Some (Some r1) → r1 ≠ EmptyString → r1 ≠ r2 →
  (∀ room, rooms st !! r2 = Some room →
     (size (participants room) < MAX_PARTICIPANTS)%nat) →
  step (JoinRoom s r2) st = Some (st', out) →
  currentRoom st' !! s = Some (Some r2)
  ∧ (∀ room1, rooms st' !! r1 = Some room1 →
       (s ∉ participants room1)
       ∧ (∀ m, m ∈ participants room1 →
            received m (participant_left s) out = 1%nat)).
Proof.
  intros Hr Hcur Hne1 Hne Hroom Hst. apply reachable_bound in Hr.
  unfold step in Hst. rewrite Hcur in Hst. apply (inj Some) in Hst.
  rewrite (join_room_ok s r2 st Hroom) in Hst.
  pose proof (ensure_room_bound r2 st Hr) as Hb0.
  assert (currentRoom (ensure_room r2 st) !! s = Some (Some r1)) as Hcur0.
  { unfold ensure_room. case_decide; done. }
  set (st0 := ensure_room r2 st) in *.
  assert (leave_current s st0 = leaveRoom s r1 st0) as Hlc.
  { unfold leave_current. by rewrite Hcur0, decide_False. }
  rewrite Hlc in Hst. split_pair Hst. split.
  - rewrite enroll_currentRoom. apply lookup_insert_eq.
  - intros room1 Hl1. rewrite enroll_rooms, lookup_alter, decide_False in Hl1 by done.
    destruct (bound_ok_parts _ Hb0) as [Ha _].
    assert (∀ room t, rooms st0 !! r1 = Some room → t ∈ participants room → t ≠ s →
              t ∈ members st0 r1) as Ha1.
    { intros room t ???. by apply (Ha s r1 room t). }
    split; [by apply (leaveRoom_notifies st0 s r1 room1 s Ha1)|].
    intros m Hm.
    assert (m ≠ s) as Hms.
    { intros ->. by apply (leaveRoom_notifies st0 s r1 room1 s Ha1). }
    rewrite !received_app.
    rewrite (proj2 (leaveRoom_notifies st0 s r1 room1 m Ha1 Hl1) Hm).
    cbn [app]. rewrite received_cons, decide_False by naive_solver.
    unfold broadcast. rewrite received_other_msg by done. reflexivity.
Qed.
Lemma room_switch_witness :
  reachable sample_pair
  ∧ currentRoom sample_pair !! "a" = Some (Some "1234")
  ∧ currentRoom (join_room "a" "5678" sample_pair).1 !! "a" = Some (Some "5678")
  ∧ (∀ room1, rooms (join_room "a" "5678" sample_pair).1 !! "1234" = Some room1 →
       ("a" ∉ participants room1)
       ∧ (∀ m, m ∈ participants room1 →
            received m (participant_left "a") (join_room "a" "5678" sample_pair).2
            = 1%nat)).
Proof.
  assert (reachable sample_pair) as Hr by (apply after_reachable; vm_compute; eauto).
  split; [exact Hr|]. split; [vm_compute; reflexivity|].
  apply (room_switch sample_pair "a" "1234" "5678" _ _ Hr);
    [vm_compute; reflexivity|discriminate|discriminate| |vm_compute; reflexivity].
  intros room Hroom. vm_compute in Hroom. discriminate Hroom.
Defined.

(** *** Time *)

Lemma time_ok_frame t0 st st' :
  now st' = now st →
  (∀ x, x ∈ timeouts st' → x ∈ timeouts st ∨ x.1 = now st + 300000) →
  (∀ r room', rooms st' !! r = Some room' →
     (∃ room, rooms st !! r = Some room ∧ createdAt room' = createdAt room)
     ∨ createdAt room' = now st) →
  time_ok t0 st → time_ok t0 st'.
Proof.
  intros Hn Ht Hrooms (H0 & Hc & Hd). unfold time_ok. rewrite Hn.
  split; [done|]. split.
  - intros r room' Hl. destruct (Hrooms r room' Hl) as [(room & Hl0 & ->)| ->];
      [by apply (Hc r)|lia].
  - intros due r Hin. destruct (Ht _ Hin) as [Hold|Hnew]; [|cbn in Hnew; lia].
    specialize (Hd due r Hold). lia.
Qed.
Lemma shrinks_time t0 st st' :
  now st' = now st →
  (∀ x, x ∈ timeouts st' → x ∈ timeouts st ∨ x.1 = now st + 300000) →
  shrinks (rooms st) (rooms st') → time_ok t0 st → time_ok t0 st'.
Proof.
  intros Hn Ht Hs. apply time_ok_frame; [done|done|].
  intros r room' Hl. left. destruct (Hs r room' Hl) as (room & Hl0 & _ & Hc).
  by exists room.
Qed.

Lemma ensure_room_time t0 roomId st : time_ok t0 st → time_ok t0 (ensure_room roomId st).
Proof.
  unfold ensure_room. case_decide; [done|].
  apply time_ok_frame; [done|by left|].
  intros r room'. cbn. destruct (decide (roomId = r)) as [->|Hne].
  - rewrite lookup_insert_eq. intros Hl. injection Hl as <-. by right.
  - rewrite lookup_insert_ne by done. intros Hl. left. by exists room'.
Qed.

Lemma leave_current_time_ok t0 s st : time_ok t0 st → time_ok t0 (leave_current s st).1.
Proof.
  destruct (leave_current_time s st) as [Hn Ht].
  apply shrinks_time; [done|done|apply leave_current_shrinks].
Qed.

Lemma enroll_time t0 s roomId st : time_ok t0 st → time_ok t0 (enroll s roomId st).
Proof.
  apply time_ok_frame; [done|by left|].
  intros r room'. rewrite enroll_rooms, lookup_alter. case_decide as Heq.
  - subst r. destruct (rooms st !! roomId) as [room|]; [|done]. cbn.
    intros Hl. injection Hl as <-. left. by exists room.
  - intros Hl. left. by exists room'.
Qed.

Lemma unbind_time t0 c st : time_ok t0 st → time_ok t0 (set_currentRoom c st).
Proof. done. Qed.

Lemma step_time t0 e st st' out :
  time_ok t0 st → step e st = Some (st', out) → time_ok t0 st'.
Proof.
  intros Ht. destruct e as [s|rnd|s roomId|s|s|k| |dt]; unfold step.
  - destruct (currentRoom st !! s); [done|]. step_inv. exact Ht.
  - step_inv. revert Ht. apply time_ok_frame; [done|by left|].
    intros r room'. rewrite post_rooms_rooms.
    destruct (decide ((post_rooms rnd st).2 = r)) as [->|Hne].
    + rewrite lookup_insert_eq. intros Hl. injection Hl as <-. by right.
    + rewrite lookup_insert_ne by done. intros Hl. left. by exists room'.
  - destruct (currentRoom st !! s); [|done]. step_inv.
    apply (ensure_room_time t0 roomId) in Ht. unfold join_room.
    destruct (rooms (ensure_room roomId st) !! roomId) as [room|]; [|done].
    destruct (MAX_PARTICIPANTS <=? size (participants room))%nat; [done|].
    apply (leave_current_time_ok t0 s) in Ht.
    destruct (leave_current s (ensure_room roomId st)) as [st1 out1].
    by apply enroll_time.
  - destruct (currentRoom st !! s) as [c|] eqn:E; [|done]. step_inv.
    unfold leave_room. rewrite E. destruct c as [cur|]; [|done].
    case_decide; [done|].
    pose proof (leaveRoom_time s cur st) as [Hn Hx].
    pose proof (leaveRoom_shrinks s cur st) as Hs.
    destruct (leaveRoom s cur st) as [st1 out1]. cbn [fst] in *.
    apply unbind_time. by apply (shrinks_time t0 st).
  - destruct (currentRoom st !! s) as [c|] eqn:E; [|done]. step_inv.
    unfold disconnect.
    pose proof (leave_current_time_ok t0 s (socket_leave_all s st) Ht) as Ht1.
    destruct (leave_current s (socket_leave_all s st)) as [st1 out1].
    by apply unbind_time.
  - destruct (timeouts st !! k) as [[due roomId]|]; [|done].
    case_decide; [|done]. step_inv.
    apply (shrinks_time t0 st); [| | |done].
    + unfold cleanup. cbn. destruct (rooms st !! roomId); [case_decide|]; done.
    + intros x Hx. left.
      assert (x ∈ delete k (timeouts st)) as Hx'.
      { revert Hx. unfold cleanup. cbn.
        destruct (rooms st !! roomId); [case_decide|]; done. }
      apply (elem_of_sublist _ _ _ Hx'), sublist_delete.
    + apply (cleanup_shrinks roomId (set_timeouts (delete k (timeouts st)) st)).
  - case_decide; [|done]. step_inv.
    apply (shrinks_time t0 st); [done|by left|apply sweep_shrinks|done].
  - case_decide; [|done]. step_inv. destruct Ht as (H0 & Hc & Hd).
    split; [cbn; lia|]. split.
    + intros r room Hl. specialize (Hc r room Hl). cbn. lia.
    + intros due r Hin. specialize (Hd due r Hin). cbn. lia.
Qed.

(** X6.  In every state the event loop reaches, the clock is not before
    start-up, every room was created between start-up and now, and no
    pending cleanup is due more than five minutes from now. *)
Theorem clock_and_timers t0 evs st out :
  exec evs (init t0) = Some (st, out) →
  t0 ≤ now st
  ∧ (∀ r room, rooms st !! r = Some room → t0 ≤ createdAt room ≤ now st)
  ∧ (∀ due r, (due, r) ∈ timeouts st → due ≤ now st + 300000).
Proof.
  intros Hex.
  apply (exec_invariant (time_ok t0) (λ _, True)) with evs (init t0) out; try done.
  - intros e st0 st1 out0 _. apply step_time.
  - split; [cbn; lia|]. split.
    + intros r room Hl. cbn in Hl. by rewrite lookup_empty in Hl.
    + intros due r Hin. cbn in Hin. by apply elem_of_nil in Hin.
Qed.

Lemma clock_and_timers_witness :
  exec [Connect "a"; JoinRoom "a" "1234"; Advance 500; LeaveRoom "a"; Advance 20]
       (init 100)
  = Some (after [Connect "a"; JoinRoom "a" "1234"; Advance 500; LeaveRoom "a";
                 Advance 20] 100, [("a", room_joined [])])
  ∧ timeouts (after [Connect "a"; JoinRoom "a" "1234"; Advance 500; LeaveRoom "a";
                     Advance 20] 100) = [(300600, "1234")]
  ∧ (∀ due r,
       (due, r) ∈ timeouts (after [Connect "a"; JoinRoom "a" "1234"; Advance 500;
                                   LeaveRoom "a"; Advance 20] 100) →
       due ≤ 620 + 300000).
Proof.
  assert (exec [Connect "a"; JoinRoom "a" "1234"; Advance 500; LeaveRoom "a"; Advance 20]
               (init 100)
          = Some (after [Connect "a"; JoinRoom "a" "1234"; Advance 500; LeaveRoom "a";
                         Advance 20] 100, [("a", room_joined [])])) as Hex
    by (vm_compute; reflexivity).
  split; [exact Hex|]. split; [vm_compute; reflexivity|].
  exact (proj2 (proj2 (clock_and_timers 100 _ _ _ Hex))).
Defined.

(** *** A room nobody returns to *)

(** X7.  When the last participant has left a room or disconnected, then,
    if nothing else happens until five minutes or more have passed, the
    cleanup scheduled by that departure runs and removes the room, so that
    the status query answers 404, and leaves every other room as it is. *)
Theorem emptied_room_reclaimed st e s roomId room st1 out1 dt :
  e = LeaveRoom s ∨ e = Disconnect s →
  currentRoom st !! s = Some (Some roomId) → roomId ≠ EmptyString →
  rooms st !! roomId = Some room → participants room ∖ {[s]} = ∅ →
  step e st = Some (st1, out1) →
  300000 ≤ dt →
  ∃ st3,
    exec [Advance dt; Timeout (length (timeouts st))] st1 = Some (st3, [])
    ∧ rooms st3 !! roomId = None
    ∧ get_room roomId st3 = None
    ∧ (∀ r, r ≠ roomId → rooms st3 !! r = rooms st1 !! r).
Proof.
  intros He Hcur Hne Hroom Hlast Hst Hdt.
  destruct (last_leave st e s roomId room st1 out1 He Hcur Hne Hroom Hlast Hst)
    as (Hl1 & Ht1 & Hn1).
  cbn [exec]. unfold step at 1. rewrite decide_True by lia.
  unfold step. cbn [timeouts set_now].
  rewrite Ht1, list_lookup_middle by done.
  rewrite decide_True by (cbn; lia).
  eexists. split; [reflexivity|].
  assert (∀ r, rooms (cleanup roomId
                 (set_timeouts (delete (length (timeouts st))
                                   (timeouts st ++ [(now st + 300000, roomId)]))
                    (set_now (now st1 + dt) st1))) !! r
               = match rooms st1 !! r with
                 | Some room0 =>
                     if decide (r = roomId ∧ participants room0 = ∅) then None
                     else Some room0
                 | None => None
                 end) as Hc.
  { intros r. by rewrite cleanup_lookup. }
  assert (rooms (cleanup roomId
                 (set_timeouts (delete (length (timeouts st))
                                   (timeouts st ++ [(now st + 300000, roomId)]))
                    (set_now (now st1 + dt) st1))) !! roomId = None) as Hgone.
  { rewrite Hc, Hl1. by rewrite decide_True. }
  split; [exact Hgone|]. split.
  - unfold get_room. by rewrite Hgone.
  - intros r Hr. rewrite Hc. destruct (rooms st1 !! r); [|done].
    rewrite decide_False; [done|]. intros [? _]. done.
Qed.

Lemma emptied_room_reclaimed_witness :
  currentRoom sample_single !! "a" = Some (Some "1234")
  ∧ ∃ st3,
      exec [Advance 300000; Timeout (length (timeouts sample_single))]
           (disconnect "a" sample_single).1 = Some (st3, [])
      ∧ rooms st3 !! "1234" = None
      ∧ get_room "1234" st3 = None
      ∧ (∀ r, r ≠ "1234" → rooms st3 !! r = rooms (disconnect "a" sample_single).1 !! r).
Proof.
  split; [vm_compute; reflexivity|].
  apply (emptied_room_reclaimed sample_single (Disconnect "a") "a" "1234"
           (mkRoom {["a"]} 0) _ (disconnect "a" sample_single).2).
  - by right.
  - vm_compute. reflexivity.
  - discriminate.
  - vm_compute. reflexivity.
  - vm_compute. reflexivity.
  - vm_compute. reflexivity.
  - lia.
Defined.
(** *** Targeted signaling *)

Lemma leaveRoom_other_members s cur st t :
  cur ≠ t → members (leaveRoom s cur st).1 t = members st t.
Proof.
  intros Hne. rewrite leaveRoom_members. rewrite decide_False; [done|].
  intros [_ ?]. done.
Qed.

Lemma leave_current_own_room s st t :
  bindings_codes st → is_code t = false →
  members (leave_current s st).1 t = members st t.
Proof.
  intros Hb Ht. unfold leave_current.
  destruct (currentRoom st !! s) as [[cur|]|] eqn:E; try done.
  case_decide; [done|]. apply leaveRoom_other_members.
  intros ->. rewrite (Hb s t E) in Ht. discriminate.
Qed.

Lemma connect_relay_ok s st :
  is_code s = false → currentRoom st !! s = None →
  relay_ok st → relay_ok (connect s st).
Proof.
  intros Hs Hnew (Ho & Hb & Hi). split; [|split].
  - intros t Ht. unfold connect. rewrite members_socket_join.
    change (members (set_currentRoom (<[s:=None]> (currentRoom st)) st))
      with (members st).
    cbn [currentRoom socket_join set_adapter set_currentRoom].
    destruct (decide (s = t)) as [<-|Hne].
    + rewrite (Ho s Hs), lookup_insert_eq.
      rewrite decide_False by (rewrite Hnew; by intros [? ?]).
      rewrite decide_True by eauto. apply (left_id_L ∅ (∪)).
    + rewrite lookup_insert_ne by done. by apply Ho.
  - intros t c. cbn. destruct (decide (s = t)) as [<-|Hne].
    + by rewrite lookup_insert_eq.
    + rewrite lookup_insert_ne by done. apply Hb.
  - intros t. cbn. destruct (decide (s = t)) as [<-|Hne]; [done|].
    rewrite lookup_insert_ne by done. apply Hi.
Qed.

Lemma bound_socket_relay_ok s st1 st c :
  is_Some (currentRoom st !! s) →
  (∀ t, is_code t = false → members st1 t = members st t) →
  currentRoom st1 = <[s := c]> (currentRoom st) →
  (∀ r, c = Some r → is_code r = true) →
  relay_ok st → relay_ok st1.
Proof.
  intros Hs Hm Hc Hr (Ho & Hb & Hi).
  assert (∀ t, is_Some (currentRoom st1 !! t) ↔ is_Some (currentRoom st !! t)) as Hconn.
  { intros t. rewrite Hc. destruct (decide (s = t)) as [<-|Hne].
    - rewrite lookup_insert_eq. split; eauto.
    - by rewrite lookup_insert_ne. }
  split; [|split].
  - intros t Ht. rewrite (Hm t Ht), (Ho t Ht).
    destruct (decide (is_Some (currentRoom st !! t))) as [Hy|Hn].
    + rewrite decide_True; [done|]. by apply Hconn.
    + rewrite decide_False; [done|]. by rewrite Hconn.
  - intros t r. rewrite Hc. destruct (decide (s = t)) as [<-|Hne].
    + rewrite lookup_insert_eq. intros Heq. injection Heq as ->. by apply Hr.
    + rewrite lookup_insert_ne by done. apply Hb.
  - intros t Ht. apply Hi. by apply Hconn.
Qed.

Lemma join_room_relay_ok s roomId st :
  is_code roomId = true → is_Some (currentRoom st !! s) →
  relay_ok st → relay_ok (join_room s roomId st).1.
Proof.
  intros Hr Hs Hok.
  assert (relay_ok (ensure_room roomId st)) as Hok0.
  { unfold ensure_room. case_decide; done. }
  assert (is_Some (currentRoom (ensure_room roomId st) !! s)) as Hs0.
  { unfold ensure_room. case_decide; done. }
  unfold join_room.
  destruct (rooms (ensure_room roomId st) !! roomId) as [room|]; [|done].
  destruct (MAX_PARTICIPANTS <=? size (participants room))%nat; [done|].
  pose proof (leave_current_own_room s (ensure_room roomId st)) as Hm.
  pose proof (leave_current_currentRoom s (ensure_room roomId st)) as Hc.
  destruct (leave_current s (ensure_room roomId st)) as [st1 out1]. cbn [fst] in *.
  apply (bound_socket_relay_ok s _ (ensure_room roomId st) (Some roomId)); try done.
  - intros t Ht. rewrite enroll_members.
    rewrite decide_False by (intros ->; congruence).
    apply Hm; [apply Hok0|done].
  - by rewrite enroll_currentRoom, Hc.
  - intros r Heq. by injection Heq as <-.
Qed.

Lemma leave_room_relay_ok s st :
  is_Some (currentRoom st !! s) → relay_ok st → relay_ok (leave_room s st).1.
Proof.
  intros Hs Hok. unfold leave_room.
  destruct (currentRoom st !! s) as [[cur|]|] eqn:E; try done.
  case_decide; [done|].
  pose proof (leaveRoom_other_members s cur st) as Hm.
  pose proof (leaveRoom_currentRoom s cur st) as Hc.
  destruct (leaveRoom s cur st) as [st1 out1]. cbn [fst] in *.
  apply (bound_socket_relay_ok s _ st None); try done.
  - intros t Ht. apply Hm. intros ->.
    destruct Hok as (_ & Hb & _). rewrite (Hb s t E) in Ht. discriminate.
  - cbn. by rewrite Hc.
Qed.

Lemma disconnect_relay_ok s st :
  relay_ok st → relay_ok (disconnect s st).1.
Proof.
  intros (Ho & Hb & Hi). unfold disconnect.
  pose proof (leave_current_own_room s (socket_leave_all s st) ) as Hm.
  pose proof (leave_current_currentRoom s (socket_leave_all s st)) as Hc.
  destruct (leave_current s (socket_leave_all s st)) as [st1 out1]. cbn [fst] in *.
  change (currentRoom (socket_leave_all s st)) with (currentRoom st) in Hc.
  split; [|split].
  - intros t Ht. cbn [members set_currentRoom currentRoom].
    change (members (set_currentRoom (delete s (currentRoom st1)) st1))
      with (members st1).
    rewrite (Hm t Hb Ht), members_socket_leave_all, (Ho t Ht), Hc.
    destruct (decide (s = t)) as [<-|Hne].
    + rewrite lookup_delete_eq.
      rewrite (decide_False (P := is_Some None)) by (by intros [? ?]).
      case_decide; set_solver.
    + rewrite lookup_delete_ne by done. case_decide; set_solver.
  - intros t c. cbn. rewrite Hc. destruct (decide (s = t)) as [<-|Hne].
    + by rewrite lookup_delete_eq.
    + rewrite lookup_delete_ne by done. apply Hb.
  - intros t. cbn. rewrite Hc. destruct (decide (s = t)) as [<-|Hne].
    + rewrite lookup_delete_eq. by intros [? ?].
    + rewrite lookup_delete_ne by done. apply Hi.
Qed.

Lemma step_relay_ok e st st' out :
  (∀ s roomId, e = JoinRoom s roomId → is_code roomId = true) →
  (∀ s, e = Connect s → is_code s = false) →
  relay_ok st → step e st = Some (st', out) → relay_ok st'.
Proof.
  intros Hj Hc Hok. destruct e as [s|rnd|s roomId|s|s|k| |dt]; unfold step.
  - destruct (currentRoom st !! s) eqn:E; [done|]. step_inv.
    apply connect_relay_ok; [by apply Hc|done|done].
  - step_inv. exact Hok.
  - destruct (currentRoom st !! s) eqn:E; [|done]. step_inv.
    apply join_room_relay_ok; [by apply (Hj s)|rewrite E; eauto|done].
  - destruct (currentRoom st !! s) eqn:E; [|done]. step_inv.
    apply leave_room_relay_ok; [rewrite E; eauto|done].
  - destruct (currentRoom st !! s); [|done]. step_inv.
    by apply disconnect_relay_ok.
  - destruct (timeouts st !! k) as [[due roomId]|]; [|done].
    case_decide; [|done]. step_inv.
    unfold cleanup. cbn. destruct (rooms st !! roomId); [case_decide|]; exact Hok.
  - case_decide; [|done]. step_inv. exact Hok.
  - case_decide; [|done]. step_inv. exact Hok.
Qed.

(** X8.  As long as join requests carry four-digit codes and socket ids are
    not four-digit codes, no connected socket has a code as id, and an
    offer, answer or candidate addressed to a target that is not a code is
    delivered exactly once, to the connected socket of that id and to nobody
    else, with the id of the sender and the payload as sent; when no socket
    of that id is connected nothing is delivered. *)
Theorem relay_reaches_target t0 evs st out :
  joins_codes_only evs → ids_not_codes evs →
  exec evs (init t0) = Some (st, out) →
  (∀ t, is_Some (currentRoom st !! t) → is_code t = false)
  ∧ ∀ (P : Type) k s target (payload : P),
      is_code target = false →
      relay k s target payload st =
      if decide (is_Some (currentRoom st !! target))
      then [(target, mkSignal P k s payload)] else [].
Proof.
  intros Hj Hi Hex.
  assert (relay_ok st) as (Ho & _ & Hconn).
  { apply (exec_invariant relay_ok
             (λ e, (∀ s roomId, e = JoinRoom s roomId → is_code roomId = true)
                   ∧ (∀ s, e = Connect s → is_code s = false)))
      with evs (init t0) out; try done.
    - intros e st0 st1 out0 [He1 He2]. by apply step_relay_ok.
    - intros e He. split; [intros s roomId ->; by apply (Hj s)|intros s ->; by apply Hi].
    - split; [|split].
      + intros t Ht. unfold members. cbn. rewrite lookup_empty. cbn.
        rewrite decide_False; [done|]. rewrite lookup_empty. by intros [? ?].
      + intros s c. cbn. by rewrite lookup_empty.
      + intros t. cbn. rewrite lookup_empty. by intros [? ?]. }
  split; [exact Hconn|].
  intros P k s target payload Ht. unfold relay. rewrite (Ho target Ht).
  case_decide; [by rewrite elements_singleton|by rewrite elements_empty].
Qed.
Lemma relay_reaches_target_witness :
  joins_codes_only [Connect "a"; Connect "b"; Connect "c";
                    JoinRoom "a" "1234"; JoinRoom "b" "1234"]
  ∧ ids_not_codes [Connect "a"; Connect "b"; Connect "c";
                   JoinRoom "a" "1234"; JoinRoom "b" "1234"]
  ∧ relay sig_offer "a" "b" "sdp" sample_pair
    = [("b", mkSignal string sig_offer "a" "sdp")]
  ∧ relay sig_answer "b" "gone" "sdp" sample_pair = [].
Proof.
  assert (joins_codes_only [Connect "a"; Connect "b"; Connect "c";
                            JoinRoom "a" "1234"; JoinRoom "b" "1234"]) as Hj.
  { intros s roomId Hin.
    repeat (apply elem_of_cons in Hin as [Heq|Hin];
            [try discriminate Heq; injection Heq as -> ->; reflexivity|]).
    by apply elem_of_nil in Hin. }
  assert (ids_not_codes [Connect "a"; Connect "b"; Connect "c";
                         JoinRoom "a" "1234"; JoinRoom "b" "1234"]) as Hi.
  { intros s Hin.
    repeat (apply elem_of_cons in Hin as [Heq|Hin];
            [try discriminate Heq; injection Heq as ->; reflexivity|]).
    by apply elem_of_nil in Hin. }
  split; [exact Hj|]. split; [exact Hi|].
  destruct (relay_reaches_target 0 _ sample_pair
              [("a", room_joined []); ("b", room_joined ["a"]);
               ("a", participant_joined "b")] Hj Hi) as [_ Hrel].
  { vm_compute. reflexivity. }
  rewrite !Hrel by reflexivity. split; reflexivity.
Defined.

End ServerFacts.

(** ** Room-code extraction *)

Module LandingFacts.
Import Landing.

Lemma code_at_nil i w : ¬ code_at [] i w.
Proof.
  intros (post & Hd & Hlen & _). rewrite drop_nil in Hd.
  symmetry in Hd. apply app_eq_nil in Hd as [-> _]. discriminate Hlen.
Qed.

Lemma code_at_S c s i w : code_at (c :: s) (S i) w ↔ code_at s i w.
Proof. reflexivity. Qed.

Lemma code_at_0 s w : code_at s 0 w ↔ match_here s = Some w.
Proof.
  unfold code_at, match_here. rewrite drop_0. split.
  - intros (post & -> & Hlen & Hdig & Hnext).
    destruct w as [|a [|b [|c [|d [|? ?]]]]]; try discriminate Hlen.
    cbn [forallb] in Hdig. cbn [app]. rewrite !andb_true_iff in Hdig.
    destruct Hdig as (-> & -> & -> & -> & _). by rewrite Hnext.
  - destruct s as [|a [|b [|c [|d rest]]]]; try discriminate.
    destruct (is_digit a && is_digit b && is_digit c && is_digit d
              && not_followed_by_digit rest) eqn:E; [|discriminate].
    intros Hw. injection Hw as <-. exists rest.
    rewrite !andb_true_iff in E. destruct E as ((((Ha & Hb) & Hc) & Hd) & Hn).
    cbn [forallb]. by rewrite Ha, Hb, Hc, Hd, Hn.
Qed.

Lemma match_here_Some_inv s w :
  match_here s = Some w →
  ∃ a b c d rest, s = a :: b :: c :: d :: rest ∧ w = [a; b; c; d]
                  ∧ not_followed_by_digit rest = true.
Proof.
  unfold match_here. destruct s as [|a [|b [|c [|d rest]]]]; try discriminate.
  destruct (is_digit a && is_digit b && is_digit c && is_digit d
            && not_followed_by_digit rest) eqn:E; [|discriminate].
  intros Hw. injection Hw as <-. apply andb_true_iff in E as [_ E].
  by exists a, b, c, d, rest.
Qed.

Lemma code_at_digit s i w :
  code_at s i w →
  ∀ k, (i ≤ k < i + 4)%nat → ∃ c, s !! k = Some c ∧ is_digit c = true.
Proof.
  intros (post & Hd & Hlen & Hdig & _) k Hk.
  destruct (lookup_lt_is_Some_2 w (k - i)) as [c Hc]; [lia|].
  exists c. split.
  - replace k with (i + (k - i))%nat by lia. rewrite <- lookup_drop, Hd.
    by apply lookup_app_l_Some.
  - rewrite forallb_forall in Hdig. apply Hdig.
    apply list_elem_of_In. by apply list_elem_of_lookup_2 with (k - i)%nat.
Qed.

(** No match starts inside a match: the code unit behind a match is not a
    digit, and a match that starts inside would cover it. *)
Lemma no_code_inside s w j w' :
  match_here s = Some w → (1 ≤ j ≤ 3)%nat → ¬ code_at s j w'.
Proof.
  intros Hm Hj Hc.
  destruct (match_here_Some_inv s w Hm) as (a & b & c & d & rest & -> & -> & Hn).
  destruct (code_at_digit _ _ _ Hc 4%nat) as (x & Hx & Hdx); [lia|].
  cbn in Hx. destruct rest as [|y rest]; [discriminate|].
  cbn in Hx, Hn. injection Hx as ->. rewrite Hdx in Hn. discriminate.
Qed.

Lemma match_global_windows skip s :
  (∀ j w, (j < skip)%nat → ¬ code_at s j w) →
  match_global skip s = code_windows s.
Proof.
  revert skip. induction s as [|c rest IH]; intros skip Hfree; [done|].
  cbn [match_global code_windows]. destruct skip as [|k].
  - destruct (match_here (c :: rest)) as [m|] eqn:E.
    + f_equal. apply IH. intros j w Hj Hc. apply code_at_S with (c := c) in Hc.
      revert Hc. apply (no_code_inside _ m); [done|lia].
    + apply IH. intros j w Hj. lia.
  - destruct (match_here (c :: rest)) as [m|] eqn:E.
    + exfalso. apply (Hfree 0%nat m); [lia|]. by apply code_at_0.
    + apply IH. intros j w Hj Hc. apply (Hfree (S j) w); [lia|].
      by apply code_at_S.
Qed.

Lemma code_windows_last s :
  (∀ w, last (code_windows s) = Some w ↔ last_code s w)
  ∧ (last (code_windows s) = None ↔ ∀ i w, ¬ code_at s i w).
Proof.
  induction s as [|c rest [IHs IHn]].
  - split.
    + intros w. split; [discriminate|].
      intros (i & Hc & _). by apply code_at_nil in Hc.
    + split; [intros _ i w; apply code_at_nil|done].
  - cbn [code_windows].
    destruct (match_here (c :: rest)) as [m|] eqn:E.
    + rewrite last_cons. destruct (last (code_windows rest)) as [y|] eqn:El.
      * split.
        -- intros w. rewrite IHs. split.
           ++ intros (i & Hc & Hmax). exists (S i). split; [by apply code_at_S|].
              intros [|j] w' Hc'; [lia|]. apply code_at_S in Hc'.
              specialize (Hmax j w' Hc'). lia.
           ++ intros (i & Hc & Hmax).
              destruct (proj1 (IHs y) eq_refl) as (iy & Hcy & _).
              assert (S iy ≤ i)%nat as Hle by (apply (Hmax (S iy) y); by apply code_at_S).
              destruct i as [|i]; [lia|]. exists i. split; [by apply code_at_S in Hc|].
              intros j w' Hc'. apply code_at_S with (c := c) in Hc'.
              specialize (Hmax (S j) w' Hc'). lia.
        -- split; [discriminate|]. intros Hnone. exfalso.
           apply (Hnone 0%nat m). by apply code_at_0.
      * pose proof (proj1 IHn eq_refl) as Hrest. split.
        -- intros w. split.
           ++ intros Hw. injection Hw as <-. exists 0%nat.
              split; [by apply code_at_0|].
              intros [|j] w' Hc'; [lia|]. apply code_at_S in Hc'.
              by apply Hrest in Hc'.
           ++ intros (i & Hc & _). destruct i as [|i].
              ** apply code_at_0 in Hc. congruence.
              ** apply code_at_S in Hc. by apply Hrest in Hc.
        -- split; [discriminate|]. intros Hnone. exfalso.
           apply (Hnone 0%nat m). by apply code_at_0.
    + assert (∀ w, ¬ code_at (c :: rest) 0 w) as H0.
      { intros w Hc. apply code_at_0 in Hc. congruence. }
      split.
      * intros w. rewrite IHs. split.
        -- intros (i & Hc & Hmax). exists (S i). split; [by apply code_at_S|].
           intros [|j] w' Hc'; [lia|]. apply code_at_S in Hc'.
           specialize (Hmax j w' Hc'). lia.
        -- intros (i & Hc & Hmax). destruct i as [|i]; [by apply H0 in Hc|].
           exists i. split; [by apply code_at_S in Hc|].
           intros j w' Hc'. apply code_at_S with (c := c) in Hc'.
           specialize (Hmax (S j) w' Hc'). lia.
      * rewrite IHn. split.
        -- intros Hrest [|i] w Hc; [by apply H0 in Hc|].
           apply code_at_S in Hc. by apply Hrest in Hc.
        -- intros Hall i w Hc. apply (Hall (S i) w). by apply code_at_S.
Qed.

Lemma extractRoomId_windows input :
  extractRoomId input = last (code_windows (trim input)).
Proof.
  unfold extractRoomId. destruct (trim input) as [|c rest] eqn:E; [done|].
  rewrite match_global_windows by (intros j w Hj; lia).
  destruct (code_windows (c :: rest)); done.
Qed.

(** C9.  [extractRoomId] returns the last run of four digits of the trimmed
    input that no digit follows, and [null] exactly when the trimmed input
    has no such run. *)
Theorem extractRoomId_last_code input :
  (∀ w, extractRoomId input = Some w ↔
        ∃ i, code_at (trim input) i w
             ∧ ∀ j w', code_at (trim input) j w' → (j ≤ i)%nat)
  ∧ (extractRoomId input = None ↔ ∀ i w, ¬ code_at (trim input) i w).
Proof.
  rewrite extractRoomId_windows. apply code_windows_last.
Qed.

Lemma extractRoomId_witness :
  extractRoomId (list_ascii_of_string " https://alphy.chat/0042?x=12345 ")
  = Some (list_ascii_of_string "2345")
  ∧ ∃ i, code_at (trim (list_ascii_of_string " https://alphy.chat/0042?x=12345 ")) i
                 (list_ascii_of_string "2345")
         ∧ ∀ j w', code_at (trim (list_ascii_of_string " https://alphy.chat/0042?x=12345 "))
                           j w' → (j ≤ i)%nat.
Proof.
  split; [vm_compute; reflexivity|].
  apply (proj1 (extractRoomId_last_code
                  (list_ascii_of_string " https://alphy.chat/0042?x=12345 "))
               (list_ascii_of_string "2345")).
  vm_compute. reflexivity.
Defined.

(** *** Further properties of the landing page *)

(** *** What [extractRoomId] returns *)

Lemma code_windows_codes s w : w ∈ code_windows s → test_code w = true.
Proof.
  induction s as [|c rest IH]; cbn [code_windows]; [by intros ?%elem_of_nil|].
  destruct (match_here (c :: rest)) as [m|] eqn:E; [|done].
  intros [->|Hin]%elem_of_cons; [|by apply IH].
  apply code_at_0 in E as (post & _ & Hlen & Hdig & _).
  unfold test_code. by rewrite Hlen, Hdig.
Qed.

Lemma last_elem_of {A} (l : list A) x : last l = Some x → x ∈ l.
Proof.
  intros Hl. apply last_Some in Hl as [l' ->]. apply elem_of_app. right.
  by apply list_elem_of_singleton.
Qed.

Lemma space_not_digit c : is_space c = true → is_digit c = false.
Proof.
  unfold is_space, is_digit. generalize (nat_of_ascii c) as n. intros n.
  rewrite !orb_true_iff, !andb_true_iff, !Nat.leb_le, !Nat.eqb_eq.
  intros H. apply andb_false_iff. rewrite !Nat.leb_gt. lia.
Qed.

Lemma match_here_not_digit c s : is_digit c = false → match_here (c :: s) = None.
Proof.
  intros Hc. unfold match_here. destruct s as [|b [|c' [|d rest]]]; try done.
  by rewrite Hc.
Qed.

Lemma code_windows_spaces ws :
  Forall (λ c, is_space c = true) ws → code_windows ws = [].
Proof.
  induction 1 as [|c ws Hc _ IH]; [done|]. cbn [code_windows].
  by rewrite match_here_not_digit by (by apply space_not_digit).
Qed.

Lemma match_here_app_spaces s ws :
  s ≠ [] → Forall (λ c, is_space c = true) ws →
  match_here (s ++ ws) = match_here s.
Proof.
  intros Hs Hws.
  assert (not_followed_by_digit ws = true) as Hnext.
  { destruct Hws as [|c ws Hc _]; [done|]. cbn. by rewrite space_not_digit. }
  destruct s as [|a [|b [|c [|d rest]]]]; [done| | | |].
  - destruct Hws as [|w1 ws Hw1 Hws]; [done|]. cbn.
    destruct ws as [|w2 [|w3 ws']]; try done.
    by rewrite (space_not_digit w1), andb_false_r.
  - destruct Hws as [|w1 ws Hw1 Hws]; [done|]. cbn.
    destruct ws as [|w2 ws']; try done.
    by rewrite (space_not_digit w1), !andb_false_r.
  - destruct Hws as [|w1 ws Hw1 Hws]; [done|]. cbn.
    by rewrite (space_not_digit w1), !andb_false_r.
  - cbn. destruct rest as [|e rest]; [|done]. cbn [app]. by rewrite Hnext.
Qed.

Lemma code_windows_app_spaces s ws :
  Forall (λ c, is_space c = true) ws → code_windows (s ++ ws) = code_windows s.
Proof.
  intros Hws. induction s as [|c rest IH]; [by apply code_windows_spaces|].
  change ((c :: rest) ++ ws) with (c :: (rest ++ ws)). cbn [code_windows].
  change (c :: (rest ++ ws)) with ((c :: rest) ++ ws).
  rewrite match_here_app_spaces by done. by rewrite IH.
Qed.

Lemma trim_start_split s :
  ∃ ws, Forall (λ c, is_space c = true) ws ∧ s = ws ++ trim_start s.
Proof.
  induction s as [|c s (ws & Hws & IH)]; [by exists []|]. cbn [trim_start].
  destruct (is_space c) eqn:E; [|by exists []].
  exists (c :: ws). split; [by constructor|]. cbn. by rewrite <- IH.
Qed.

Lemma trim_split s :
  ∃ ws1 ws2, Forall (λ c, is_space c = true) ws1
             ∧ Forall (λ c, is_space c = true) ws2
             ∧ s = ws1 ++ trim s ++ ws2.
Proof.
  destruct (trim_start_split s) as (ws1 & H1 & Hs).
  destruct (trim_start_split (rev (trim_start s))) as (ws2 & H2 & Hr).
  exists ws1, (rev ws2). split; [done|]. split; [by apply Forall_rev|].
  unfold trim. rewrite <- rev_app_distr, <- Hr, rev_involutive. exact Hs.
Qed.

Lemma code_windows_trim s : code_windows (trim s) = code_windows s.
Proof.
  destruct (trim_split s) as (ws1 & ws2 & H1 & H2 & Hs).
  rewrite Hs at 2. clear Hs.
  induction H1 as [|c ws1 Hc _ IH]; [by rewrite app_nil_l, code_windows_app_spaces|].
  cbn [app code_windows].
  by rewrite match_here_not_digit by (by apply space_not_digit).
Qed.

Lemma extractRoomId_code input w :
  extractRoomId input = Some w →
  length w = 4%nat ∧ forallb is_digit w = true ∧ test_code w = true
  ∧ extractRoomId w = Some w.
Proof.
  intros Hw. rewrite extractRoomId_windows in Hw.
  apply last_elem_of, code_windows_codes in Hw.
  pose proof Hw as Ht. unfold test_code in Ht.
  apply andb_true_iff in Ht as [Hlen Hdig]. apply Nat.eqb_eq in Hlen.
  split; [done|]. split; [done|]. split; [done|].
  rewrite extractRoomId_windows, code_windows_trim.
  destruct w as [|a [|b [|c [|d [|? ?]]]]]; try discriminate Hlen.
  cbn [code_windows]. unfold match_here at 1. cbn [forallb] in Hdig.
  rewrite !andb_true_iff in Hdig. destruct Hdig as (Ha & Hb & Hc & Hd & _).
  rewrite Ha, Hb, Hc, Hd. cbn [andb not_followed_by_digit]. done.
Qed.

(** X9.  Whatever [extractRoomId] returns is four characters long, all
    digits, passes the test [/^\d{4}$/], and is returned again when it is
    itself the input. *)
Theorem extractRoomId_is_code input w :
  extractRoomId input = Some w →
  length w = 4%nat ∧ forallb is_digit w = true ∧ test_code w = true
  ∧ extractRoomId w = Some w.
Proof. apply extractRoomId_code. Qed.

Lemma extractRoomId_is_code_witness :
  extractRoomId (list_ascii_of_string "join 0042 now") = Some (list_ascii_of_string "0042")
  ∧ test_code (list_ascii_of_string "0042") = true
  ∧ extractRoomId (list_ascii_of_string "0042") = Some (list_ascii_of_string "0042").
Proof.
  assert (extractRoomId (list_ascii_of_string "join 0042 now")
          = Some (list_ascii_of_string "0042")) as He by (vm_compute; reflexivity).
  split; [exact He|].
  destruct (extractRoomId_is_code _ _ He) as (_ & _ & Ht & Hi). by split.
Defined.

(** X10.  White space around the input does not change what
    [extractRoomId] returns, trimming the input beforehand does not either,
    and an input of white space only yields [null]. *)
Theorem extractRoomId_ignores_whitespace input ws1 ws2 :
  Forall (λ c, is_space c = true) ws1 → Forall (λ c, is_space c = true) ws2 →
  extractRoomId (ws1 ++ input ++ ws2) = extractRoomId input
  ∧ extractRoomId (trim input) = extractRoomId input
  ∧ extractRoomId (ws1 ++ ws2) = None.
Proof.
  intros H1 H2.
  assert (∀ s, extractRoomId s = last (code_windows s)) as Hx.
  { intros s. by rewrite extractRoomId_windows, code_windows_trim. }
  assert (∀ s, code_windows (ws1 ++ s) = code_windows s) as Hpre.
  { intros s. induction H1 as [|c ws1 Hc _ IH]; [done|]. cbn [app code_windows].
    by rewrite match_here_not_digit by (by apply space_not_digit). }
  split; [|split].
  - by rewrite !Hx, Hpre, code_windows_app_spaces.
  - by rewrite !Hx, code_windows_trim.
  - by rewrite Hx, Hpre, code_windows_spaces.
Qed.
Lemma extractRoomId_ignores_whitespace_witness :
  Forall (λ c, is_space c = true) (list_ascii_of_string "  ")
  ∧ Forall (λ c, is_space c = true) [ascii_of_nat 10; ascii_of_nat 9]
  ∧ extractRoomId (list_ascii_of_string "  " ++ list_ascii_of_string "room 1234"
                   ++ [ascii_of_nat 10; ascii_of_nat 9])
    = extractRoomId (list_ascii_of_string "room 1234").
Proof.
  assert (Forall (λ c, is_space c = true) (list_ascii_of_string "  ")) as H1
    by (repeat constructor).
  assert (Forall (λ c, is_space c = true) [ascii_of_nat 10; ascii_of_nat 9]) as H2
    by (repeat constructor).
  split; [exact H1|]. split; [exact H2|].
  exact (proj1 (extractRoomId_ignores_whitespace
                  (list_ascii_of_string "room 1234") _ _ H1 H2)).
Defined.

(** *** The boxes *)

Lemma fillCode_from (code : list ascii) k (inputs : boxes) :
  concat (imap (λ index (_ : list ascii),
                  match code !! (k + index)%nat with Some d => [d] | None => [] end)
               inputs)
  = take (length inputs) (drop k code).
Proof.
  revert k. induction inputs as [|v inputs IH]; intros k; [done|].
  cbn [imap concat length].
  rewrite (imap_ext _ (λ index _, match code !! (S k + index)%nat with
                                  | Some d => [d] | None => [] end))
    by (intros i x _; cbn; by rewrite Nat.add_succ_r).
  rewrite IH, Nat.add_0_r.
  destruct (code !! k) as [d|] eqn:E.
  - rewrite (drop_S _ _ _ E). reflexivity.
  - apply lookup_ge_None in E. rewrite !drop_ge by lia. by rewrite !take_nil.
Qed.

Lemma readCode_fillCode code (inputs : boxes) :
  readCode (fillCode code inputs) = take (length inputs) code.
Proof.
  unfold readCode, fillCode. pose proof (fillCode_from code 0 inputs) as H.
  cbn in H. by rewrite drop_0 in H.
Qed.

(** X11.  Reading the boxes after [fillCode] gives the first characters of
    the code, as many as there are boxes; the number of boxes is unchanged,
    box [i] holds character [i] of the code or nothing; and with as many
    boxes as characters the code is read back as it was. *)
Theorem fill_then_read code (inputs : boxes) :
  readCode (fillCode code inputs) = take (length inputs) code
  ∧ length (fillCode code inputs) = length inputs
  ∧ (∀ i v, fillCode code inputs !! i = Some v →
       v = match code !! i with Some d => [d] | None => [] end)
  ∧ (length code = length inputs → readCode (fillCode code inputs) = code).
Proof.
  split; [apply readCode_fillCode|]. split; [apply length_imap|]. split.
  - intros i v. unfold fillCode. rewrite list_lookup_imap.
    destruct (inputs !! i); cbn; [|done]. intros Heq. by injection Heq as <-.
  - intros Hlen. rewrite readCode_fillCode, <- Hlen. apply firstn_all.
Qed.

Lemma fillCode_filled code (inputs : boxes) :
  (length inputs ≤ length code)%nat →
  forallb (λ v, negb (bool_decide (v = []))) (fillCode code inputs) = true.
Proof.
  intros Hlen. apply forallb_forall. intros v Hin.
  apply list_elem_of_In, list_elem_of_lookup in Hin as [i Hi].
  pose proof (lookup_lt_Some _ _ _ Hi) as Hlt.
  unfold fillCode in Hi, Hlt. rewrite length_imap in Hlt.
  rewrite list_lookup_imap in Hi.
  destruct (inputs !! i); cbn in Hi; [|done]. injection Hi as <-.
  destruct (lookup_lt_is_Some_2 code i) as [d ->]; [lia|]. done.
Qed.

(** X12.  With four boxes, pasting a text puts the four digits of the room
    code found in it into the boxes, one each, asks to join that room and
    suppresses the default paste; when the text holds no room code the
    boxes stay as they are, nothing is joined and the default paste goes
    ahead. *)
Theorem paste_joins text (inputs : boxes) :
  length inputs = 4%nat →
  on_paste text inputs =
  match extractRoomId text with
  | Some w => mkOutcome ((λ d, [d]) <$> w) None (Some w) true
  | None => mkOutcome inputs None None false
  end.
Proof.
  intros Hn. unfold on_paste. destruct (extractRoomId text) as [w|] eqn:E; [|done].
  destruct (extractRoomId_code text w E) as (Hlen & Hdig & Ht & _).
  assert (fillCode w inputs = (λ d, [d]) <$> w) as Hf.
  { apply list_eq. intros i. unfold fillCode.
    rewrite list_lookup_imap, list_lookup_fmap.
    destruct (w !! i) as [d|] eqn:Ew.
    - destruct (lookup_lt_is_Some_2 inputs i) as [v ->]; [|done].
      apply lookup_lt_Some in Ew. lia.
    - apply lookup_ge_None in Ew. rewrite lookup_ge_None_2 by lia. done. }
  unfold maybeJoin.
  rewrite fillCode_filled by lia.
  rewrite readCode_fillCode, Hn, <- Hlen, firstn_all.
  rewrite Ht. cbn [andb]. by rewrite Hf.
Qed.
Lemma paste_joins_witness :
  length [[]; []; []; [] : list ascii] = 4%nat
  ∧ on_paste (list_ascii_of_string "https://alphy.chat/0042") [[]; []; []; []]
    = mkOutcome ((λ d, [d]) <$> list_ascii_of_string "0042") None
                (Some (list_ascii_of_string "0042")) true.
Proof.
  split; [reflexivity|].
  rewrite (paste_joins (list_ascii_of_string "https://alphy.chat/0042")
                       [[]; []; []; []] eq_refl).
  reflexivity.
Defined.

Lemma distribute_closed chunk index (inputs : boxes) :
  (index + length chunk ≤ length inputs)%nat →
  distribute index chunk inputs
  = take index inputs ++ ((λ d, [d]) <$> chunk) ++ drop (index + length chunk) inputs.
Proof.
  revert index inputs. induction chunk as [|d chunk IH]; intros index inputs Hlen.
  - cbn. by rewrite Nat.add_0_r, take_drop.
  - cbn [distribute fmap list_fmap]. cbn [length] in Hlen.
    rewrite IH by (rewrite length_insert; lia).
    rewrite take_insert_lt by lia. rewrite drop_insert_lt by lia.
    destruct (lookup_lt_is_Some_2 inputs index) as [v Hv]; [lia|].
    rewrite (take_S_r _ _ _ Hv).
    rewrite insert_app_r_alt by (rewrite length_take; lia).
    rewrite length_take, Nat.min_l, Nat.sub_diag by lia. cbn [insert list_insert].
    rewrite <- app_assoc. cbn [app length]. rewrite Nat.add_succ_r. reflexivity.
Qed.

(** X13.  When the box that receives input holds more than one digit, the
    digits (as many as there are boxes from this one on) are spread over
    this box and the following ones, one each; the boxes before and behind
    are untouched, the focus moves to a box not before this one, and if
    every other box held at most one character, every box does
    afterwards. *)
Theorem input_distributes index (inputs : boxes) value :
  inputs !! index = Some value →
  (1 < length (filter (λ c, is_digit c = true) value))%nat →
  let chunk := take (length inputs - index) (filter (λ c, is_digit c = true) value) in
  o_inputs (on_input index inputs)
  = take index inputs ++ ((λ d, [d]) <$> chunk)
    ++ drop (index + length chunk) inputs
  ∧ length (o_inputs (on_input index inputs)) = length inputs
  ∧ (∃ k, o_focus (on_input index inputs) = Some k
          ∧ (index ≤ k < length inputs)%nat)
  ∧ ((∀ j v, j ≠ index → inputs !! j = Some v → (length v ≤ 1)%nat) →
     ∀ j v, o_inputs (on_input index inputs) !! j = Some v → (length v ≤ 1)%nat).
Proof.
  intros Hv Hmany chunk. pose proof (lookup_lt_Some _ _ _ Hv) as Hlt.
  assert (index + length chunk ≤ length inputs)%nat as Hfit.
  { unfold chunk. rewrite length_take. lia. }
  assert (1 ≤ length chunk)%nat as Hone.
  { unfold chunk. rewrite length_take. lia. }
  unfold on_input. rewrite Hv. apply Nat.ltb_lt in Hmany. rewrite Hmany.
  cbn [o_inputs o_focus]. fold chunk.
  rewrite (distribute_closed chunk index inputs Hfit).
  split; [done|]. split; [|split].
  - rewrite !length_app, length_fmap, length_take, length_drop. lia.
  - exists (Nat.min (index + length chunk) (length inputs - 1)).
    split; [done|]. lia.
  - intros Hothers j v.
    destruct (decide (j < index)%nat) as [Hj|Hj].
    { rewrite lookup_app_l by (rewrite length_take; lia).
      rewrite lookup_take_lt by done. apply Hothers. lia. }
    rewrite lookup_app_r by (rewrite length_take; lia).
    rewrite length_take, Nat.min_l by lia.
    destruct (decide (j - index < length chunk)%nat) as [Hc|Hc].
    { rewrite lookup_app_l by (by rewrite length_fmap).
      rewrite list_lookup_fmap. destruct (chunk !! (j - index)%nat); cbn; [|done].
      intros Heq. injection Heq as <-. cbn. lia. }
    rewrite lookup_app_r by (rewrite length_fmap; lia).
    rewrite length_fmap, lookup_drop. apply Hothers. lia.
Qed.

Lemma input_distributes_witness :
  [list_ascii_of_string "7"; list_ascii_of_string "a1-2 3"; []; []] !! 1%nat
  = Some (list_ascii_of_string "a1-2 3")
  ∧ o_inputs (on_input 1 [list_ascii_of_string "7"; list_ascii_of_string "a1-2 3"; []; []])
    = [list_ascii_of_string "7"; list_ascii_of_string "1"; list_ascii_of_string "2";
       list_ascii_of_string "3"]
  ∧ o_join (on_input 1 [list_ascii_of_string "7"; list_ascii_of_string "a1-2 3"; []; []])
    = Some (list_ascii_of_string "7123").
Proof.
  split; [reflexivity|]. split; [|vm_compute; reflexivity].
  rewrite (proj1 (input_distributes 1
                    [list_ascii_of_string "7"; list_ascii_of_string "a1-2 3"; []; []]
                    (list_ascii_of_string "a1-2 3") eq_refl
                    ltac:(vm_compute; lia))).
  vm_compute. reflexivity.
Defined.

(** X14.  While every box holds at most one character, [maybeJoin] asks to
    join a room exactly when there are four boxes, each holding one digit,
    and the room is the four digits in order. *)
Theorem join_when_complete (inputs : boxes) :
  (∀ v, v ∈ inputs → (length v ≤ 1)%nat) →
  ∀ code, maybeJoin inputs = Some code ↔
          inputs = (λ d, [d]) <$> code ∧ length code = 4%nat
          ∧ forallb is_digit code = true.
Proof.
  intros Hone code.
  assert (forallb (λ v, negb (bool_decide (v = []))) inputs = true →
          inputs = (λ d, [d]) <$> concat inputs) as Hshape.
  { clear code. induction inputs as [|v inputs IH]; [done|].
    cbn [forallb concat]. intros [Hv Hrest]%andb_true_iff.
    assert (length v ≤ 1)%nat as Hl by (apply Hone; by left).
    destruct v as [|d [|? ?]]; [done| |cbn in Hl; lia].
    cbn. f_equal. apply IH; [|done]. intros w Hw. apply Hone. by right. }
  unfold maybeJoin, readCode, test_code. split.
  - destruct (forallb (λ v, negb (bool_decide (v = []))) inputs) eqn:Hfill; [|done].
    cbn [andb].
    destruct ((length (concat inputs) =? 4)%nat && forallb is_digit (concat inputs))
      eqn:Ht; [|done].
    intros Heq. injection Heq as <-. apply andb_true_iff in Ht as [Hlen Hdig].
    apply Nat.eqb_eq in Hlen. split; [by apply Hshape|done].
  - intros (-> & Hlen & Hdig).
    assert (concat ((λ d, [d]) <$> code) = code) as Hc.
    { clear. induction code as [|d code IH]; [done|]. cbn. by rewrite IH. }
    rewrite Hc, Hlen, Hdig. cbn [Nat.eqb andb].
    replace (forallb (λ v, negb (bool_decide (v = []))) ((λ d, [d]) <$> code))
      with true; [done|].
    symmetry. apply forallb_forall. intros v Hin.
    apply list_elem_of_In, list_elem_of_fmap in Hin as (d & -> & _). done.
Qed.
Lemma join_when_complete_witness :
  (∀ v, v ∈ (λ d, [d]) <$> list_ascii_of_string "0042" → (length v ≤ 1)%nat)
  ∧ maybeJoin ((λ d, [d]) <$> list_ascii_of_string "0042")
    = Some (list_ascii_of_string "0042").
Proof.
  assert (∀ v, v ∈ (λ d, [d]) <$> list_ascii_of_string "0042" → (length v ≤ 1)%nat)
    as Hone.
  { intros v Hin. apply list_elem_of_fmap in Hin as (d & -> & _). cbn. lia. }
  split; [exact Hone|].
  apply (proj2 (join_when_complete _ Hone (list_ascii_of_string "0042"))).
  split; [reflexivity|]. split; reflexivity.
Defined.

End LandingFacts.

(** ** The quality loop *)

Module RoomFacts.
Import Room.
Local Open Scope Q_scope.

Lemma Qlt_bool_iff x y : Qlt_bool x y = true ↔ x < y.
Proof.
  unfold Qlt_bool. rewrite negb_true_iff. split.
  - intros Hb. apply Qnot_le_lt. intros Hle. apply Qle_bool_iff in Hle. congruence.
  - intros Hlt. destruct (Qle_bool y x) eqn:E; [|done].
    apply Qle_bool_iff in E. apply Qle_not_lt in E. done.
Qed.

Lemma Qlt_bool_false x y : Qlt_bool x y = false ↔ y <= x.
Proof.
  unfold Qlt_bool. rewrite negb_false_iff. apply Qle_bool_iff.
Qed.

Lemma Qle_bool_false x y : Qle_bool x y = false ↔ y < x.
Proof.
  split.
  - intros Hb. apply Qnot_le_lt. intros Hle. apply Qle_bool_iff in Hle. congruence.
  - intros Hlt. destruct (Qle_bool x y) eqn:E; [|done].
    apply Qle_bool_iff in E. apply Qle_not_lt in E. done.
Qed.

(** The thresholds of the table, as rationals: the products are exact for
    the targets 30 and 20 and one rounding below 14.4 and 20.4 for the
    target 24. *)
Lemma tier_thresholds idx t :
  QUALITY_TIERS !! idx = Some t →
  (idx < 5)%nat
  ∧ ((value (frameRate t) = 30 ∧ low_threshold t = 18 ∧ high_threshold t = 51 # 2)
     ∨ (value (frameRate t) = 24
        ∧ low_threshold t = 2026619832316723 # 140737488355328
        ∧ high_threshold t = 2871044762448691 # 140737488355328)
     ∨ (value (frameRate t) = 20 ∧ low_threshold t = 12 ∧ high_threshold t = 17)).
Proof.
  intros Hl.
  do 3 (destruct idx as [|idx];
        [injection Hl as <-; split; [lia|]; left; by vm_compute|]).
  destruct idx as [|idx];
    [injection Hl as <-; split; [lia|]; right; left; by vm_compute|].
  destruct idx as [|idx];
    [injection Hl as <-; split; [lia|]; right; right; by vm_compute|].
  discriminate Hl.
Qed.

Lemma thresholds_ordered idx t :
  QUALITY_TIERS !! idx = Some t →
  0 < low_threshold t ∧ low_threshold t < high_threshold t.
Proof.
  intros Hl.
  destruct (tier_thresholds idx t Hl) as [_ [(_ & -> & ->)|[(_ & -> & ->)|(_ & -> & ->)]]];
    split; reflexivity.
Qed.

(** One sample in each band. *)
Lemma adaptQuality_low rm t f :
  peers rm ≠ [] → QUALITY_TIERS !! currentTierIndex rm = Some t → low t f →
  adaptQuality f rm =
  Some (if (3 <=? S (degradeCount rm))%nat && (currentTierIndex rm <? 4)%nat
        then mkManager (peers rm) (S (currentTierIndex rm)) 0 0
        else mkManager (peers rm) (currentTierIndex rm) (S (degradeCount rm)) 0).
Proof.
  intros Hp Ht [Hpos Hlow]. unfold adaptQuality.
  rewrite decide_False by (destruct (peers rm); [done|discriminate]).
  rewrite Ht. fold (low_threshold t) (high_threshold t).
  apply Qlt_bool_iff in Hpos, Hlow. rewrite Hpos, Hlow.
  cbn [andb length QUALITY_TIERS Nat.sub].
  destruct ((3 <=? S (degradeCount rm))%nat && (currentTierIndex rm <? 4)%nat); done.
Qed.

Lemma adaptQuality_high rm t f :
  peers rm ≠ [] → QUALITY_TIERS !! currentTierIndex rm = Some t → high t f →
  adaptQuality f rm =
  Some (if (8 <=? S (improveCount rm))%nat && (0 <? currentTierIndex rm)%nat
        then mkManager (peers rm) (Nat.pred (currentTierIndex rm)) 0 0
        else mkManager (peers rm) (currentTierIndex rm) 0 (S (improveCount rm))).
Proof.
  intros Hp Ht Hhigh. unfold adaptQuality.
  rewrite decide_False by (destruct (peers rm); [done|discriminate]).
  rewrite Ht. fold (low_threshold t) (high_threshold t).
  pose proof (thresholds_ordered _ _ Ht) as [_ Hord]. unfold high in Hhigh.
  assert (Qlt_bool f (low_threshold t) = false) as ->
    by (apply Qlt_bool_false; lra).
  rewrite andb_false_r. apply Qle_bool_iff in Hhigh. rewrite Hhigh.
  change (3 <=? 0)%nat with false. cbn [andb].
  destruct ((8 <=? S (improveCount rm))%nat && (0 <? currentTierIndex rm)%nat); done.
Qed.

Lemma adaptQuality_middle rm t f :
  peers rm ≠ [] → QUALITY_TIERS !! currentTierIndex rm = Some t →
  middle t f ∨ f <= 0 →
  adaptQuality f rm = Some (mkManager (peers rm) (currentTierIndex rm) 0 0).
Proof.
  intros Hp Ht Hm. unfold adaptQuality.
  rewrite decide_False by (destruct (peers rm); [done|discriminate]).
  rewrite Ht. fold (low_threshold t) (high_threshold t).
  pose proof (thresholds_ordered _ _ Ht) as [Hpos Hord].
  assert (Qlt_bool 0 f && Qlt_bool f (low_threshold t) = false) as ->.
  { apply andb_false_iff. destruct Hm as [[Hge _]|Hle].
    - right. by apply Qlt_bool_false.
    - left. by apply Qlt_bool_false. }
  assert (Qle_bool (high_threshold t) f = false) as ->.
  { apply Qle_bool_false. destruct Hm as [[_ Hlt]|Hle]; [done|lra]. }
  done.
Qed.

Lemma adaptQuality_step_resets f rm rm' :
  adaptQuality f rm = Some rm' →
  currentTierIndex rm' ≠ currentTierIndex rm →
  degradeCount rm' = 0%nat ∧ improveCount rm' = 0%nat
  ∧ (currentTierIndex rm' = S (currentTierIndex rm)
     ∨ S (currentTierIndex rm') = currentTierIndex rm).
Proof.
  unfold adaptQuality. case_decide; [intros Heq; injection Heq as <-; done|].
  destruct (QUALITY_TIERS !! currentTierIndex rm) as [t|]; [|done].
  fold (low_threshold t) (high_threshold t).
  destruct (Qlt_bool 0 f && Qlt_bool f (low_threshold t));
    [|destruct (Qle_bool (high_threshold t) f)].
  - destruct ((3 <=? S (degradeCount rm))%nat
              && (currentTierIndex rm <? length QUALITY_TIERS - 1)%nat);
      cbn; intros Heq; injection Heq as <-; cbn; intros Hne; [auto|done].
  - change (3 <=? 0)%nat with false. cbn [andb].
    destruct ((8 <=? S (improveCount rm))%nat && (0 <? currentTierIndex rm)%nat) eqn:E;
      intros Heq; injection Heq as <-; cbn; intros Hne; [|done].
    apply andb_true_iff in E as [_ E]. apply Nat.ltb_lt in E.
    split; [done|]. split; [done|]. right. lia.
  - cbn. intros Heq; injection Heq as <-; cbn; intros Hne. done.
Qed.

(** C3, as the code has it.  The code compares a sample with the binary64
    products [targetFps * 0.6] and [targetFps * 0.85]; these are 18 and
    25.5 for the target 30, 12 and 17 for the target 20, and for the target
    24 the binary64 numbers next below 14.4 and 20.4.  While at least one
    peer is present and the tier index is valid: from both counters at 0,
    three consecutive samples that are above 0 and below the first product
    raise the tier index by exactly 1, unless it is the last index already,
    in which case it stays; eight consecutive samples at or above the
    second product lower it by exactly 1, unless it is 0 already; a sample
    from the first product up to but below the second, and a sample that is
    0 or less, sets both counters to 0 and keeps the tier; and whenever a
    sample changes the tier, it changes it by one and both counters are 0
    afterwards. *)
Theorem hysteresis rm t :
  peers rm ≠ [] →
  QUALITY_TIERS !! currentTierIndex rm = Some t →
  (degradeCount rm = 0%nat → improveCount rm = 0%nat →
   ∀ f1 f2 f3, low t f1 → low t f2 → low t f3 →
     ∃ rm', adaptAll [f1; f2; f3] rm = Some rm'
       ∧ currentTierIndex rm' =
           (if (currentTierIndex rm <? 4)%nat then S (currentTierIndex rm)
            else currentTierIndex rm)
       ∧ ((currentTierIndex rm < 4)%nat →
            degradeCount rm' = 0%nat ∧ improveCount rm' = 0%nat))
  ∧ (degradeCount rm = 0%nat → improveCount rm = 0%nat →
     ∀ fs, length fs = 8%nat → Forall (high t) fs →
       ∃ rm', adaptAll fs rm = Some rm'
         ∧ currentTierIndex rm' = Nat.pred (currentTierIndex rm)
         ∧ ((0 < currentTierIndex rm)%nat →
              degradeCount rm' = 0%nat ∧ improveCount rm' = 0%nat))
  ∧ (∀ f, middle t f ∨ f <= 0 →
       ∃ rm', adaptQuality f rm = Some rm'
         ∧ currentTierIndex rm' = currentTierIndex rm
         ∧ degradeCount rm' = 0%nat ∧ improveCount rm' = 0%nat)
  ∧ (∀ f rm', adaptQuality f rm = Some rm' →
       currentTierIndex rm' ≠ currentTierIndex rm →
       degradeCount rm' = 0%nat ∧ improveCount rm' = 0%nat
       ∧ (currentTierIndex rm' = S (currentTierIndex rm)
          ∨ S (currentTierIndex rm') = currentTierIndex rm))
  ∧ ((value (frameRate t) = 30 ∧ low_threshold t = 18 ∧ high_threshold t = 51 # 2)
     ∨ (value (frameRate t) = 24
        ∧ low_threshold t = 2026619832316723 # 140737488355328
        ∧ high_threshold t = 2871044762448691 # 140737488355328)
     ∨ (value (frameRate t) = 20 ∧ low_threshold t = 12 ∧ high_threshold t = 17)).
Proof.
  intros Hp Ht. destruct rm as [ps idx d i]. cbn in Hp, Ht.
  split; [|split; [|split; [|split]]].
  - cbn [degradeCount improveCount currentTierIndex].
    intros -> -> f1 f2 f3 H1 H2 H3. cbn [adaptAll].
    rewrite (adaptQuality_low _ t f1) by done. cbn [degradeCount currentTierIndex peers].
    change (3 <=? 1)%nat with false. cbn [andb].
    rewrite (adaptQuality_low _ t f2) by done. cbn [degradeCount currentTierIndex peers].
    change (3 <=? 2)%nat with false. cbn [andb].
    rewrite (adaptQuality_low _ t f3) by done. cbn [degradeCount currentTierIndex peers].
    change (3 <=? 3)%nat with true. cbn [andb].
    destruct (idx <? 4)%nat eqn:E; eexists; (split; [reflexivity|]);
      cbn [degradeCount improveCount currentTierIndex].
    + split; [done|]. done.
    + split; [done|]. apply Nat.ltb_ge in E. lia.
  - cbn [degradeCount improveCount currentTierIndex].
    intros -> -> fs Hlen Hall.
    do 8 (destruct fs as [|? fs]; [discriminate Hlen|]).
    destruct fs; [|discriminate Hlen].
    repeat match goal with
           | H : Forall _ (_ :: _) |- _ => apply Forall_cons in H as [? H]
           end.
    cbn [adaptAll].
    do 7 (erewrite (adaptQuality_high _ t) by done;
          cbn [improveCount currentTierIndex peers];
          match goal with
          | |- context [(8 <=? ?n)%nat && _] => change (8 <=? n)%nat with false
          end; cbn [andb]).
    erewrite (adaptQuality_high _ t) by done. cbn [improveCount currentTierIndex peers].
    change (8 <=? 8)%nat with true. cbn [andb].
    destruct idx as [|idx]; eexists; (split; [reflexivity|]);
      cbn [degradeCount improveCount currentTierIndex Nat.pred Nat.ltb Nat.leb].
    + split; [done|]. lia.
    + split; [done|]. done.
  - intros f Hm. rewrite (adaptQuality_middle _ t f) by done.
    eexists. split; [reflexivity|]. done.
  - intros f rm'. apply adaptQuality_step_resets.
  - apply (tier_thresholds idx t Ht).
Qed.

Lemma hysteresis_witness :
  (∃ rm', adaptAll [14; 14; 14] (mkManager ["p"] 3 0 0) = Some rm'
     ∧ currentTierIndex rm' = 4%nat
     ∧ ((3 < 4)%nat → degradeCount rm' = 0%nat ∧ improveCount rm' = 0%nat))
  ∧ (∃ rm', adaptAll [21; 21; 21; 21; 21; 21; 21; 21] (mkManager ["p"] 3 0 0) = Some rm'
       ∧ currentTierIndex rm' = 2%nat
       ∧ ((0 < 3)%nat → degradeCount rm' = 0%nat ∧ improveCount rm' = 0%nat)).
Proof.
  assert (["p"] ≠ ([] : list string)) as Hp by discriminate.
  destruct (hysteresis (mkManager ["p"] 3 0 0) _ Hp eq_refl) as (Hlow & Hhigh & _).
  split.
  - apply (Hlow eq_refl eq_refl 14 14 14); split; reflexivity.
  - apply (Hhigh eq_refl eq_refl [21; 21; 21; 21; 21; 21; 21; 21]); [reflexivity|].
    repeat constructor; discriminate.
Defined.

(** At the tier of target 24, three samples of [just_under] frames per
    second, each above 0 and strictly below 60% of the target, leave the
    tier where it is: [24 * 0.6] is that very number in binary64.  So do, at
    tier 0, three samples of 0 frames per second, each below 60% of the
    target 30. *)
Lemma low_samples_do_not_degrade :
  (∃ t rm',
     QUALITY_TIERS !! 3%nat = Some t
     ∧ value (frameRate t) = 24
     ∧ 0 < just_under
     ∧ just_under < value (frameRate t) * (6 # 10)
     ∧ adaptAll [just_under; just_under; just_under] (mkManager ["p"] 3 0 0) = Some rm'
     ∧ currentTierIndex rm' = 3%nat
     ∧ currentTierIndex rm' ≠ 4%nat)
  ∧ (∃ t rm',
       QUALITY_TIERS !! 0%nat = Some t
       ∧ value (frameRate t) = 30
       ∧ 0 < value (frameRate t) * (6 # 10)
       ∧ adaptAll [0; 0; 0] (mkManager ["p"] 0 0 0) = Some rm'
       ∧ currentTierIndex rm' = 0%nat
       ∧ currentTierIndex rm' ≠ 1%nat).
Proof.
  split.
  - eexists _, _. split; [reflexivity|]. split; [by vm_compute|].
    split; [reflexivity|]. split; [by vm_compute|].
    split; [by vm_compute|]. split; [reflexivity|discriminate].
  - eexists _, _. split; [reflexivity|]. split; [by vm_compute|].
    split; [by vm_compute|].
    split; [by vm_compute|]. split; [reflexivity|discriminate].
Qed.

(** *** The sample the tick feeds *)

Lemma least_positive_snoc acc L f :
  least_positive acc L →
  least_positive (if Qlt_bool 0 f then Math_min acc f else acc) (L ++ [f]).
Proof.
  intros Hacc. destruct (Qlt_bool 0 f) eqn:Hpos.
  - apply Qlt_bool_iff in Hpos. destruct acc as [|m]; cbn.
    + split; [apply elem_of_app; right; by apply list_elem_of_singleton|].
      split; [done|]. intros g Hg Hgpos.
      apply elem_of_app in Hg as [Hg|Hg]; [by apply Hacc in Hg|].
      apply list_elem_of_singleton in Hg as ->. apply Qle_refl.
    + destruct Hacc as (Hin & Hm & Hmin). destruct (Qle_bool m f) eqn:Hle; cbn.
      * apply Qle_bool_iff in Hle. split; [apply elem_of_app; by left|].
        split; [done|]. intros g Hg Hgpos.
        apply elem_of_app in Hg as [Hg|Hg]; [by apply Hmin|].
        by apply list_elem_of_singleton in Hg as ->.
      * apply Qle_bool_false in Hle.
        split; [apply elem_of_app; right; by apply list_elem_of_singleton|].
        split; [done|]. intros g Hg Hgpos.
        apply elem_of_app in Hg as [Hg|Hg].
        -- specialize (Hmin g Hg Hgpos). lra.
        -- apply list_elem_of_singleton in Hg as ->. apply Qle_refl.
  - apply Qlt_bool_false in Hpos. destruct acc as [|m]; cbn.
    + intros g Hg. apply elem_of_app in Hg as [Hg|Hg]; [by apply Hacc|].
      apply list_elem_of_singleton in Hg as ->. by apply Qle_not_lt.
    + destruct Hacc as (Hin & Hm & Hmin). split; [apply elem_of_app; by left|].
      split; [done|]. intros g Hg Hgpos.
      apply elem_of_app in Hg as [Hg|Hg]; [by apply Hmin|].
      apply list_elem_of_singleton in Hg as ->. lra.
Qed.

Lemma scan_reports_least rs acc L :
  least_positive acc L →
  least_positive (scan_reports rs acc)
    (L ++ map reading (filter (λ r, is_outbound_video r = true) rs)).
Proof.
  unfold scan_reports. revert acc L.
  induction rs as [|r rs IH]; intros acc L Hacc; cbn [fold_left].
  - by rewrite app_nil_r.
  - rewrite filter_cons. destruct (is_outbound_video r) eqn:E.
    + rewrite decide_True by done. cbn [map].
      rewrite (cons_middle (reading r)), app_assoc.
      apply IH. by apply least_positive_snoc.
    + rewrite decide_False by done. by apply IH.
Qed.

Lemma scan_peers_least getStats ps acc L :
  least_positive acc L →
  least_positive (scan_peers getStats ps acc) (L ++ observed getStats ps).
Proof.
  unfold scan_peers, observed. revert acc L.
  induction ps as [|p ps IH]; intros acc L Hacc; cbn [fold_left flat_map].
  - by rewrite app_nil_r.
  - rewrite app_assoc. apply IH. destruct (getStats p) as [rs|].
    + by apply scan_reports_least.
    + by rewrite app_nil_r.
Qed.

(** C4, as the code has it.  On a tick with at least one peer, the readings
    that are not above 0 are passed over: when some reading of an outbound
    video report is above 0, the least of those is the sample given to
    [adaptQuality]; when none is, [adaptQuality] is not called and the
    quality state stays as it is. *)
Theorem fed_sample getStats rm :
  peers rm ≠ [] →
  (∀ m, minFps_of getStats rm = Fps m →
     m ∈ observed getStats (peers rm) ∧ 0 < m
     ∧ (∀ f, f ∈ observed getStats (peers rm) → 0 < f → m <= f)
     ∧ collectStats getStats rm = adaptQuality m rm)
  ∧ (minFps_of getStats rm = Infinity ↔
     ∀ f, f ∈ observed getStats (peers rm) → ¬ 0 < f)
  ∧ (minFps_of getStats rm = Infinity → collectStats getStats rm = Some rm).
Proof.
  intros Hp.
  pose proof (scan_peers_least getStats (peers rm) Infinity []) as Hl.
  rewrite app_nil_l in Hl. specialize (Hl ltac:(intros f Hf; by apply elem_of_nil in Hf)).
  fold (minFps_of getStats rm) in Hl.
  assert (length (peers rm) ≠ 0%nat) as Hlen by (destruct (peers rm); [done|discriminate]).
  split; [|split].
  - intros m Hm. rewrite Hm in Hl. destruct Hl as (Hin & Hpos & Hmin).
    split; [done|]. split; [done|]. split; [done|].
    unfold collectStats. by rewrite decide_False, Hm.
  - destruct (minFps_of getStats rm) as [|m]; cbn in Hl.
    + split; [done|reflexivity].
    + split; [discriminate|]. intros Hnone. destruct Hl as (Hin & Hpos & _).
      by apply Hnone in Hin.
  - intros Hinf. unfold collectStats. by rewrite decide_False, Hinf.
Qed.

Lemma fed_sample_witness :
  peers sample_manager ≠ []
  ∧ minFps_of sample_stats sample_manager = Fps 12
  ∧ 12 ∈ observed sample_stats (peers sample_manager) ∧ 0 < 12
  ∧ (∀ f, f ∈ observed sample_stats (peers sample_manager) → 0 < f → 12 <= f)
  ∧ collectStats sample_stats sample_manager = adaptQuality 12 sample_manager.
Proof.
  assert (peers sample_manager ≠ []) as Hp by discriminate.
  split; [exact Hp|]. split; [reflexivity|].
  exact (proj1 (fed_sample sample_stats sample_manager Hp) 12 eq_refl).
Defined.

(** A peer stalled at 0 frames per second does not drive the decision: the
    sample fed is the 30 of the other peer. *)
Lemma stalled_peer_masked :
  0 ∈ observed stalled_stats (peers sample_manager)
  ∧ 30 ∈ observed stalled_stats (peers sample_manager)
  ∧ 0 < 30
  ∧ minFps_of stalled_stats sample_manager = Fps 30
  ∧ collectStats stalled_stats sample_manager = adaptQuality 30 sample_manager.
Proof.
  split; [apply list_elem_of_here|].
  split; [apply list_elem_of_further, list_elem_of_here|].
  split; [reflexivity|]. split; reflexivity.
Qed.

(** *** Further properties of the room page *)

(** *** The tier index stays in the table *)

Lemma adaptQuality_in_range f rm :
  (currentTierIndex rm < 5)%nat →
  ∃ rm', adaptQuality f rm = Some rm' ∧ (currentTierIndex rm' < 5)%nat
         ∧ peers rm' = peers rm.
Proof.
  intros Hidx. unfold adaptQuality. case_decide; [by exists rm|].
  destruct (lookup_lt_is_Some_2 QUALITY_TIERS (currentTierIndex rm)) as [t ->];
    [cbn; lia|].
  fold (low_threshold t) (high_threshold t).
  destruct (Qlt_bool 0 f && Qlt_bool f (low_threshold t));
    [|destruct (Qle_bool (high_threshold t) f)].
  - destruct ((3 <=? S (degradeCount rm))%nat
              && (currentTierIndex rm <? length QUALITY_TIERS - 1)%nat) eqn:E;
      cbn; eexists; (split; [reflexivity|]); cbn; [|by split].
    apply andb_true_iff in E as [_ E]. apply Nat.ltb_lt in E. cbn in E.
    split; [lia|done].
  - change (3 <=? 0)%nat with false. cbn [andb].
    destruct ((8 <=? S (improveCount rm))%nat && (0 <? currentTierIndex rm)%nat);
      eexists; (split; [reflexivity|]); cbn; split; try done; lia.
  - cbn. eexists. split; [reflexivity|]. by split.
Qed.

Lemma handle_in_range h rm :
  (currentTierIndex rm < 5)%nat →
  ∃ rm', handle h rm = Some rm' ∧ (currentTierIndex rm' < 5)%nat.
Proof.
  intros Hidx. destruct h as [ps|p|p|getStats]; cbn [handle].
  - eexists. split; [reflexivity|]. revert rm Hidx.
    induction ps as [|p ps IH]; intros rm Hidx; [done|]. cbn [fold_left].
    by apply IH.
  - eexists. split; [reflexivity|]. done.
  - eexists. split; [reflexivity|]. done.
  - unfold collectStats. case_decide; [by exists rm|].
    destruct (minFps_of getStats rm) as [|f]; [by exists rm|].
    destruct (adaptQuality_in_range f rm Hidx) as (rm' & -> & Hr & _). by exists rm'.
Qed.

(** X15.  After any sequence of roster messages and statistics ticks from
    the initial state, the tier index is an index of [QUALITY_TIERS], so
    reading the current tier never fails and [adaptQuality] returns for
    every sample. *)
Theorem tier_stays_in_table hs :
  ∃ rm, handleAll hs start = Some rm
        ∧ (currentTierIndex rm < length QUALITY_TIERS)%nat
        ∧ is_Some (QUALITY_TIERS !! currentTierIndex rm)
        ∧ ∀ f, is_Some (adaptQuality f rm).
Proof.
  assert (∀ rm0, (currentTierIndex rm0 < 5)%nat →
            ∃ rm, handleAll hs rm0 = Some rm ∧ (currentTierIndex rm < 5)%nat) as Hall.
  { induction hs as [|h hs IH]; intros rm0 H0; [by exists rm0|].
    cbn [handleAll]. destruct (handle_in_range h rm0 H0) as (rm1 & -> & H1).
    by apply IH. }
  destruct (Hall start) as (rm & Hrm & Hidx); [cbn; lia|].
  exists rm. split; [done|]. split; [done|]. split.
  - by apply lookup_lt_is_Some_2.
  - intros f. destruct (adaptQuality_in_range f rm Hidx) as (rm' & -> & _). eauto.
Qed.
(** *** When the tier moves *)

Lemma adaptQuality_cases f rm t rm' :
  peers rm ≠ [] → QUALITY_TIERS !! currentTierIndex rm = Some t →
  adaptQuality f rm = Some rm' →
  (low t f
   ∧ rm' = (if (3 <=? S (degradeCount rm))%nat && (currentTierIndex rm <? 4)%nat
            then mkManager (peers rm) (S (currentTierIndex rm)) 0 0
            else mkManager (peers rm) (currentTierIndex rm) (S (degradeCount rm)) 0))
  ∨ (high t f
     ∧ rm' = (if (8 <=? S (improveCount rm))%nat && (0 <? currentTierIndex rm)%nat
              then mkManager (peers rm) (Nat.pred (currentTierIndex rm)) 0 0
              else mkManager (peers rm) (currentTierIndex rm) 0 (S (improveCount rm))))
  ∨ (¬ low t f ∧ ¬ high t f
     ∧ rm' = mkManager (peers rm) (currentTierIndex rm) 0 0).
Proof.
  intros Hp Ht Hrm.
  destruct (Qlt_bool 0 f && Qlt_bool f (low_threshold t)) eqn:El.
  - apply andb_true_iff in El as [H0 H1]. apply Qlt_bool_iff in H0, H1.
    left. split; [by split|].
    rewrite (adaptQuality_low rm t f Hp Ht (conj H0 H1)) in Hrm. by injection Hrm.
  - assert (¬ low t f) as Hnl.
    { intros [H0 H1]. apply Qlt_bool_iff in H0, H1. by rewrite H0, H1 in El. }
    destruct (Qle_bool (high_threshold t) f) eqn:Eh.
    + apply Qle_bool_iff in Eh. right. left. split; [done|].
      rewrite (adaptQuality_high rm t f Hp Ht Eh) in Hrm. by injection Hrm.
    + right. right. split; [done|]. split.
      * intros Hh. apply Qle_bool_iff in Hh. unfold high in Hh. congruence.
      * revert Hrm. unfold adaptQuality.
        rewrite decide_False by (destruct (peers rm); [done|discriminate]).
        rewrite Ht. fold (low_threshold t) (high_threshold t).
        rewrite El, Eh. cbn. intros Heq. by injection Heq.
Qed.

(** X16.  A sample lowers the quality (raises the tier index) only when it
    is above 0 and below the low threshold, the binary64 product
    [targetFps * 0.6], and two such samples came right before it; it raises
    the quality only when it is at or above the high threshold, the binary64
    product [targetFps * 0.85], and seven such samples came right before it;
    either way the index moves by one.  A sample in the low band never
    raises the quality and one in the high band never lowers it. *)
Theorem tier_moves_with_evidence f rm t rm' :
  peers rm ≠ [] → QUALITY_TIERS !! currentTierIndex rm = Some t →
  adaptQuality f rm = Some rm' →
  ((currentTierIndex rm < currentTierIndex rm')%nat →
     low t f ∧ (2 ≤ degradeCount rm)%nat
     ∧ currentTierIndex rm' = S (currentTierIndex rm))
  ∧ ((currentTierIndex rm' < currentTierIndex rm)%nat →
       high t f ∧ (7 ≤ improveCount rm)%nat
       ∧ S (currentTierIndex rm') = currentTierIndex rm)
  ∧ (low t f → (currentTierIndex rm ≤ currentTierIndex rm')%nat)
  ∧ (high t f → (currentTierIndex rm' ≤ currentTierIndex rm)%nat).
Proof.
  intros Hp Ht Hrm. pose proof (thresholds_ordered _ _ Ht) as [_ Hord].
  assert (low t f → high t f → False) as Hexcl.
  { unfold low, high. intros [_ Hl] Hh. lra. }
  destruct (adaptQuality_cases f rm t rm' Hp Ht Hrm)
    as [[Hl ->]|[[Hh ->]|(Hnl & Hnh & ->)]].
  - destruct ((3 <=? S (degradeCount rm))%nat && (currentTierIndex rm <? 4)%nat) eqn:E;
      cbn [currentTierIndex].
    + apply andb_true_iff in E as [E _]. apply Nat.leb_le in E.
      split; [intros _; split; [done|]; split; [lia|done]|].
      split; [lia|]. split; [lia|]. intros Hh. by destruct (Hexcl Hl Hh).
    + split; [lia|]. split; [lia|]. split; [lia|]. lia.
  - destruct ((8 <=? S (improveCount rm))%nat && (0 <? currentTierIndex rm)%nat) eqn:E;
      cbn [currentTierIndex].
    + apply andb_true_iff in E as [E E0]. apply Nat.leb_le in E. apply Nat.ltb_lt in E0.
      split; [lia|]. split; [intros _; split; [done|]; split; lia|].
      split; [|lia]. intros Hl. by destruct (Hexcl Hl Hh).
    + split; [lia|]. split; [lia|]. split; lia.
  - cbn [currentTierIndex]. split; [lia|]. split; [lia|]. split; lia.
Qed.

Lemma tier_moves_with_evidence_witness :
  adaptQuality 14 (mkManager ["p"] 3 2 0) = Some (mkManager ["p"] 4 0 0)
  ∧ (∃ t, QUALITY_TIERS !! 3%nat = Some t ∧ low t 14)
  ∧ (2 ≤ 2)%nat.
Proof.
  assert (adaptQuality 14 (mkManager ["p"] 3 2 0) = Some (mkManager ["p"] 4 0 0)) as Ha
    by (by vm_compute).
  split; [exact Ha|].
  destruct (tier_moves_with_evidence 14 (mkManager ["p"] 3 2 0) _ _
              ltac:(discriminate) eq_refl Ha) as (Hdown & _).
  destruct (Hdown ltac:(cbn; lia)) as (Hl & Hd & _).
  split; [eexists; split; [reflexivity|exact Hl]|exact Hd].
Defined.

Lemma adaptQuality_counters f rm rm' :
  adaptQuality f rm = Some rm' →
  (currentTierIndex rm' = currentTierIndex rm
   ∧ (degradeCount rm' ≤ S (degradeCount rm))%nat
   ∧ (improveCount rm' ≤ S (improveCount rm))%nat)
  ∨ (degradeCount rm' = 0%nat ∧ improveCount rm' = 0%nat
     ∧ ((2 ≤ degradeCount rm)%nat ∨ (7 ≤ improveCount rm)%nat)).
Proof.
  unfold adaptQuality. case_decide; [intros Heq; injection Heq as <-; left; lia|].
  destruct (QUALITY_TIERS !! currentTierIndex rm) as [t|]; [|done].
  fold (low_threshold t) (high_threshold t).
  destruct (Qlt_bool 0 f && Qlt_bool f (low_threshold t));
    [|destruct (Qle_bool (high_threshold t) f)].
  - destruct ((3 <=? S (degradeCount rm))%nat
              && (currentTierIndex rm <? length QUALITY_TIERS - 1)%nat) eqn:E;
      cbn; intros Heq; injection Heq as <-; cbn; [|left; lia].
    apply andb_true_iff in E as [E _]. apply Nat.leb_le in E. right. lia.
  - change (3 <=? 0)%nat with false. cbn [andb].
    destruct ((8 <=? S (improveCount rm))%nat && (0 <? currentTierIndex rm)%nat) eqn:E;
      intros Heq; injection Heq as <-; cbn; [|left; lia].
    apply andb_true_iff in E as [E _]. apply Nat.leb_le in E. right. lia.
  - cbn. intros Heq; injection Heq as <-; cbn. left. lia.
Qed.

(** X17.  After a sample has changed the tier, the next two samples do not
    change it, whatever they are. *)
Theorem no_flapping f rm rm1 :
  adaptQuality f rm = Some rm1 →
  currentTierIndex rm1 ≠ currentTierIndex rm →
  ∀ f2 f3 rm3, adaptAll [f2; f3] rm1 = Some rm3 →
    currentTierIndex rm3 = currentTierIndex rm1.
Proof.
  intros H1 Hmoved f2 f3 rm3 H3.
  destruct (adaptQuality_counters f rm rm1 H1) as [[Hsame _]|(Hd & Hi & _)]; [done|].
  cbn [adaptAll] in H3. destruct (adaptQuality f2 rm1) as [rm2|] eqn:H2; [|done].
  destruct (adaptQuality f3 rm2) as [rm3'|] eqn:H3'; [|done]. injection H3 as <-.
  destruct (adaptQuality_counters f2 rm1 rm2 H2) as [(Hs2 & Hd2 & Hi2)|(_ & _ & Hbig)];
    [|lia].
  destruct (adaptQuality_counters f3 rm2 rm3' H3') as [(Hs3 & _)|(_ & _ & Hbig)];
    [congruence|lia].
Qed.

Lemma no_flapping_witness :
  adaptQuality 10 (mkManager ["p"] 1 2 0) = Some (mkManager ["p"] 2 0 0)
  ∧ ∀ f2 f3 rm3, adaptAll [f2; f3] (mkManager ["p"] 2 0 0) = Some rm3 →
      currentTierIndex rm3 = 2%nat.
Proof.
  assert (adaptQuality 10 (mkManager ["p"] 1 2 0) = Some (mkManager ["p"] 2 0 0)) as Ha
    by reflexivity.
  split; [exact Ha|].
  apply (no_flapping 10 (mkManager ["p"] 1 2 0) (mkManager ["p"] 2 0 0) Ha).
  discriminate.
Defined.
(** *** The room of the page *)

Lemma match_path_here_Some s m :
  match_path_here s = Some m →
  ∃ rest, s = "/"%char :: m ++ rest ∧ (rest = [] ∨ rest = ["/"%char])
          ∧ length m = 4%nat ∧ forallb Landing.is_digit m = true.
Proof.
  unfold match_path_here. destruct s as [|sl [|a [|b [|c [|d rest]]]]]; try done.
  destruct (bool_decide (sl = "/"%char) && Landing.is_digit a && Landing.is_digit b
            && Landing.is_digit c && Landing.is_digit d
            && (bool_decide (rest = []) || bool_decide (rest = ["/"%char]))) eqn:E;
    [|done].
  intros Heq. injection Heq as <-.
  rewrite !andb_true_iff, orb_true_iff, !bool_decide_eq_true in E.
  destruct E as (((((-> & Ha) & Hb) & Hc) & Hd) & Hrest).
  exists rest. split; [done|]. split; [done|]. split; [done|].
  cbn. by rewrite Ha, Hb, Hc, Hd.
Qed.

Lemma match_path_here_code w rest :
  length w = 4%nat → forallb Landing.is_digit w = true →
  rest = [] ∨ rest = ["/"%char] →
  match_path_here ("/"%char :: w ++ rest) = Some w.
Proof.
  intros Hlen Hdig Hrest.
  destruct w as [|a [|b [|c [|d [|? ?]]]]]; try discriminate Hlen.
  cbn [forallb] in Hdig. rewrite !andb_true_iff in Hdig.
  destruct Hdig as (Ha & Hb & Hc & Hd & _).
  cbn [app match_path_here]. rewrite Ha, Hb, Hc, Hd.
  rewrite bool_decide_eq_true_2 by done. cbn [andb].
  destruct Hrest as [-> | ->]; done.
Qed.

Lemma path_roomId_found pre w rest :
  length w = 4%nat → forallb Landing.is_digit w = true →
  rest = [] ∨ rest = ["/"%char] →
  path_roomId (pre ++ "/"%char :: w ++ rest) = Some w.
Proof.
  intros Hlen Hdig Hrest. induction pre as [|c pre IH].
  - cbn [app path_roomId]. by rewrite match_path_here_code.
  - cbn [app path_roomId].
    destruct (match_path_here (c :: pre ++ "/"%char :: w ++ rest)) as [m|] eqn:E;
      [|exact IH].
    exfalso. apply match_path_here_Some in E as (rest' & Heq & Hrest' & Hm & Hmd).
    injection Heq as -> Heq.
    assert (length (pre ++ "/"%char :: w ++ rest) = length (m ++ rest')) as Hl
      by (by rewrite Heq).
    rewrite !length_app in Hl. cbn [length] in Hl. rewrite length_app in Hl.
    destruct pre as [|p pre].
    + cbn [app] in Heq. destruct m as [|x m]; [discriminate Hm|].
      injection Heq as <- _. cbn in Hmd. discriminate Hmd.
    + cbn [length] in Hl. destruct Hrest as [-> | ->], Hrest' as [-> | ->];
        cbn [length] in Hl; lia.
Qed.

Lemma path_roomId_Some s w :
  path_roomId s = Some w →
  length w = 4%nat ∧ forallb Landing.is_digit w = true
  ∧ ∃ pre, s = pre ++ "/"%char :: w ∨ s = pre ++ "/"%char :: w ++ ["/"%char].
Proof.
  induction s as [|c s IH]; [done|]. cbn [path_roomId].
  destruct (match_path_here (c :: s)) as [m|] eqn:E.
  - intros Heq. injection Heq as ->.
    apply match_path_here_Some in E as (rest & Heq & Hrest & Hm & Hmd).
    split; [done|]. split; [done|]. exists []. cbn [app]. rewrite Heq.
    destruct Hrest as [-> | ->]; [left; by rewrite app_nil_r|by right].
  - intros Hw. destruct (IH Hw) as (Hlen & Hdig & pre & Hpre).
    split; [done|]. split; [done|]. exists (c :: pre).
    destruct Hpre as [-> | ->]; [by left|by right].
Qed.

(** X18.  The room page reads a room id off the path exactly when the path
    ends in a slash and four digits, with or without one more slash behind
    them, and the id is those four digits; in particular the path [/dddd]
    gives [dddd]. *)
Theorem page_room pathname w :
  (path_roomId pathname = Some w ↔
   length w = 4%nat ∧ forallb Landing.is_digit w = true
   ∧ ∃ pre, pathname = pre ++ "/"%char :: w
            ∨ pathname = pre ++ "/"%char :: w ++ ["/"%char])
  ∧ (length w = 4%nat → forallb Landing.is_digit w = true →
     path_roomId ("/"%char :: w) = Some w).
Proof.
  split; [split|].
  - apply path_roomId_Some.
  - intros (Hlen & Hdig & pre & [-> | ->]).
    + rewrite <- (app_nil_r w) at 1. apply path_roomId_found; auto.
    + apply path_roomId_found; auto.
  - intros Hlen Hdig. rewrite <- (app_nil_r w) at 1.
    apply (path_roomId_found [] w []); auto.
Qed.
Lemma page_room_witness :
  path_roomId (list_ascii_of_string "/0042/") = Some (list_ascii_of_string "0042")
  ∧ path_roomId (list_ascii_of_string "/room/0042") = Some (list_ascii_of_string "0042")
  ∧ path_roomId (list_ascii_of_string "/10042") = None.
Proof.
  split; [|split; [|reflexivity]].
  - apply (proj1 (page_room _ _)). split; [reflexivity|]. split; [reflexivity|].
    exists []. by right.
  - apply (proj1 (page_room _ _)). split; [reflexivity|]. split; [reflexivity|].
    exists (list_ascii_of_string "/room"). by left.
Defined.

(** *** Relay detection *)

Lemma relay_loop_spec stats (l : list (string * stat)) acc :
  fold_left
    (λ isRelay (kv : string * stat),
       if nominated_pair kv.2
       then if is_relay_candidate stats (localCandidateId kv.2)
               || is_relay_candidate stats (remoteCandidateId kv.2)
            then true else isRelay
       else isRelay) l acc = true
  ↔ acc = true
    ∨ ∃ kv, kv ∈ l ∧ nominated_pair kv.2 = true
            ∧ (is_relay_candidate stats (localCandidateId kv.2) = true
               ∨ is_relay_candidate stats (remoteCandidateId kv.2) = true).
Proof.
  revert acc. induction l as [|kv l IH]; intros acc; cbn [fold_left].
  - split; [by left|]. intros [?|(kv & Hin & _)]; [done|]. by apply elem_of_nil in Hin.
  - rewrite IH. split.
    + intros [Hacc|(kv' & Hin & Hn & Hr)].
      * destruct (nominated_pair kv.2) eqn:En; [|by left].
        destruct (is_relay_candidate stats (localCandidateId kv.2)
                  || is_relay_candidate stats (remoteCandidateId kv.2)) eqn:Er;
          [|by left].
        right. exists kv. split; [by left|]. split; [done|].
        by apply orb_true_iff in Er.
      * right. exists kv'. split; [by right|]. done.
    + intros [->|(kv' & Hin & Hn & Hr)].
      * left. destruct (nominated_pair kv.2); [|done].
        by destruct (is_relay_candidate stats (localCandidateId kv.2)
                     || is_relay_candidate stats (remoteCandidateId kv.2)).
      * apply elem_of_cons in Hin as [->|Hin].
        -- left. rewrite Hn. apply orb_true_iff in Hr. by rewrite Hr.
        -- right. by exists kv'.
Qed.

(** X20.  The relay check flags a link exactly when the statistics hold a
    nominated candidate pair in state succeeded one of whose two candidates
    is in the statistics with type relay; and the badge is shown exactly
    when some peer is flagged. *)
Theorem relay_detected stats :
  (check_relay stats = true ↔
   ∃ id r, stats !! id = Some r
     ∧ s_type r = "candidate-pair" ∧ s_state r = "succeeded" ∧ s_nominated r = true
     ∧ ((∃ c, stats !! localCandidateId r = Some c ∧ candidateType c = "relay")
        ∨ (∃ c, stats !! remoteCandidateId r = Some c ∧ candidateType c = "relay")))
  ∧ (∀ flags, badge_hidden flags = false ↔ ∃ p, (p, true) ∈ flags).
Proof.
  assert (∀ id, is_relay_candidate stats id = true ↔
                ∃ c, stats !! id = Some c ∧ candidateType c = "relay") as Hcand.
  { intros id. unfold is_relay_candidate. destruct (stats !! id) as [c|].
    - rewrite String.eqb_eq. split; [by exists c|]. intros (c' & Heq & Hc).
      by injection Heq as ->.
    - split; [done|]. by intros (c & ? & _). }
  split.
  - unfold check_relay. rewrite relay_loop_spec. split.
    + intros [?|([id r] & Hin & Hn & Hr)]; [done|].
      apply elem_of_map_to_list in Hin. exists id, r. split; [done|].
      unfold nominated_pair in Hn. cbn [snd] in Hn, Hr.
      rewrite !andb_true_iff, !String.eqb_eq in Hn. destruct Hn as [[Ht Hs] Hnom].
      rewrite !Hcand in Hr. done.
    + intros (id & r & Hl & Ht & Hs & Hnom & Hr). right. exists (id, r).
      split; [by apply elem_of_map_to_list|]. cbn [snd]. split.
      * unfold nominated_pair. rewrite Ht, Hs, Hnom. done.
      * by rewrite !Hcand.
  - intros flags. induction flags as [|[p b] flags IH]; cbn [badge_hidden].
    + split; [done|]. intros (p & Hin). by apply elem_of_nil in Hin.
    + destruct b.
      * split; [|done]. intros _. exists p. by left.
      * rewrite IH. split.
        -- intros (q & Hin). exists q. by right.
        -- intros (q & Hin). apply elem_of_cons in Hin as [Heq|Hin]; [done|].
           by exists q.
Qed.

(** *** From the link to the room *)

Lemma is_code_digits s :
  Server.is_code s = true ↔
  length (list_ascii_of_string s) = 4%nat
  ∧ forallb Landing.is_digit (list_ascii_of_string s) = true.
Proof.
  unfold Server.is_code.
  destruct s as [|a [|b [|c [|d [|e s]]]]]; cbn [list_ascii_of_string length forallb];
    try (split; [discriminate|intros [Hl _]; discriminate Hl]).
  change Server.is_digit with Landing.is_digit.
  rewrite !andb_true_iff. split; [intros (((? & ?) & ?) & ?)|intros (_ & ? & ? & ? & ? & _)];
    repeat split; done.
Qed.

(** X19.  The code that [extractRoomId] finds and the code that
    [POST /api/rooms] returns, put behind a slash as the landing page does
    when it navigates, are read back by the room page; and whatever the
    room page reads off a path is a four-digit code, so the [join-room] it
    sends carries one. *)
Theorem link_round_trip :
  (∀ text w, Landing.extractRoomId text = Some w →
     path_roomId ("/"%char :: w) = Some w)
  ∧ (∀ rnd st,
       path_roomId ("/"%char :: list_ascii_of_string (Server.post_rooms rnd st).2)
       = Some (list_ascii_of_string (Server.post_rooms rnd st).2))
  ∧ (∀ pathname w, path_roomId pathname = Some w →
       Server.is_code (string_of_list_ascii w) = true).
Proof.
  split; [|split].
  - intros text w Hw.
    destruct (LandingFacts.extractRoomId_code text w Hw) as (Hlen & Hdig & _).
    rewrite <- (app_nil_r w) at 1. apply (path_roomId_found [] w []); auto.
  - intros rnd st.
    destruct (proj1 (is_code_digits _) (ServerFacts.post_rooms_code rnd st))
      as [Hlen Hdig].
    rewrite <- (app_nil_r (list_ascii_of_string _)) at 1.
    apply (path_roomId_found [] _ []); auto.
  - intros pathname w Hw. apply path_roomId_Some in Hw as (Hlen & Hdig & _).
    apply is_code_digits. by rewrite list_ascii_of_string_of_list_ascii.
Qed.

End RoomFacts.
